(* ===== verification/_CoqProject ===== *)
-Q . S2P
Prelude.v
Text.v
JsCore.v
ToNumber.v
Channel.v
InputController.v
RelaySpec.v
Page.v
StreamSelect.v
Session.v
Recovery.v
Script.v
Lights.v
