(* ===== verification/Prelude.v ===== *)
(** * Verification of the shared-desktop viewer client (src/app/html/index.js)

    The program is the browser side of a remote desktop viewer.  It has two
    cooperating parts and a page script that wires them:

    - [StreamInputController] (index.js 3-110), the input relay: DOM
      listeners on the stream element capture pointer and keyboard input,
      pointer motion is coalesced in [mouseMovePacket] and flushed by a
      30 Hz interval timer, buttons, wheel and keys are emitted at once on a
      socket, and Control+v is replaced by a clipboard read whose result is
      sent as text.
    - [startJanus] (index.js 112-252), one attempt to attach a media
      session: initialise the library, connect, attach the streaming
      plugin, list the streams, pick the first whose description contains
      the wanted name, watch it, answer the offer (with a stereo rewrite of
      the SDP) and, on ICE disconnection, tear down and call back.
    - the page script (index.js 254-483): query parameters, volume, the
      "info" handler that starts and stops the controller, the autoplay
      poll, the prompt that waits for a click before the sessions start,
      the 5 s retry loop [check] over the [playing] flags, and the ambient
      light sampler.

    ** Files

    - [Prelude] (this file): the [relay_scope] notation for sequencing
      handlers, the tactics and the hint databases [relay] and [relay_rw],
      runs of a step function over a list of events ([run]) with their
      induction principles and projections, runs without an end as
      schedules ([state_at], [infinitely_often]), and counting in logs.
    - [Text]: [split], [join] and the decimal numeral of an integer
      ([toString]) with the reader of digits, on the Standard Library
      alone so that every other file can load it.
    - [JsCore]: the JavaScript values the program computes with.  Numbers
      produced by the division of two integers ([jsnum], [js_div]) with the
      IEEE cases for a zero divisor; strings with [toLowerCase], [indexOf],
      [includes] and [replace], defined from their specification and proved
      against the relation [occurs].  Exact rationals stand for doubles:
      rounding is monotone and 0 and 1 are doubles, so the range theorems
      transfer.  Strings are sequences of 8-bit characters; case folding is
      ASCII.
    - [ToNumber]: [Number] on strings ([StringToNumber]), by the grammar
      of numeric literals, and the theorem that it reads the numeral of an
      integer back.
    - [Channel]: the outbound socket.  [emit] has one constructor per event
      name the program emits; the socket is the list of what was emitted,
      oldest first.  The class [ControlSwitch] states what the page script
      may assume of a controller: an on/off switch with idempotent
      operations.
    - [InputController]: the controller.  [controller] is the object's
      fields, [world] adds the browser objects it holds (socket log,
      listener registry of the element, the two keyboard handler slots, the
      interval timers, clipboard promises).  One definition per method or
      callback ([mousemove], [mousedown], [mouseup], [wheel],
      [interval_callback], [start], [stop], [onkeydown], [onkeyup],
      [paste_then]); [dispatch] is the browser delivering one event, and
      runs are lists of events.  Theorems: the wiring invariant [wired] and
      its preservation, idempotence of [start] and [stop], the coalescing
      and rate bound of pointer motion, order and completeness of discrete
      events, paste interception on success and failure, silence after
      [stop], and the races the code leaves open.  The instance
      [controller_switch] discharges [ControlSwitch].
    - [RelaySpec]: the abstract relay of the specification (on/off, one
      pending position, the set of held keys, the timer, the reads in
      flight) as the transition function [rstep] with emissions [remit],
      the abstraction [abs] from worlds, and the refinement theorem: from a
      wired world [dispatch] and [output] are [rstep] and [remit] through
      [abs].  Properties proved of the relay (the paste chord is never
      forwarded, typed text comes from a paste) then hold of the
      controller.
    - [Page]: the page script around the controller: [queryParams] with
      [split], what the parameters select, [displayPlural], the initial
      volume with [Number], and the handler [on_info] of the "info"
      message, written and proved against [ControlSwitch] and then
      instantiated with the controller.
    - [StreamSelect]: the pure computations inside [startJanus]: the
      matcher [find_stream], the stereo test and [customizeSdp], the server
      address, with their functional theorems.
    - [Session]: the attach sequence of [startJanus] as a state machine
      over callbacks ([sstep]), one [attempt] per call, the [playing]
      flags with [check] and [preStartJanus], and the calls made on the
      media elements ([attachMediaStream], [play]).  Theorems: the
      protocol invariant of attempts, disconnection and retry, the
      attempts that pile up while none has its session, which failures
      are retried and which are not, the answer to an offer,
      initialisation, and the projection of a run on one attempt with the
      attach sequence that goes well whatever is interleaved.
    - [Recovery]: what the retry loop achieves on runs without an end.
      A schedule gives the callback delivered to the sessions at each
      instant, or nothing when the event loop does something else; when
      the timer keeps ticking and the library answers without reporting a
      failure, a sub-stream that was disconnected is connected again
      (liveness, by a variant on what attempts wait for), and the loop
      stops starting attempts (termination).
    - [Script]: the page script as a whole.  [load] is the anonymous
      function run to its end for a query string and a browser; [deliver]
      is one turn of the event loop, over the product of the controls, the
      sessions, the media elements, the prompt and the Qt bridge.  The
      media elements are shared: the page polls them and the sessions
      play them, so [library] lets the calls a callback of [Session]
      makes on an element take effect on the element of the page.
      Theorems: the invariant [script_ok] of every reachable page,
      [preStartJanus] runs once, the sessions of the page are a run of
      [Session] (so the theorems of [Session] and [Recovery] hold of the
      page), a remote stream is attached to its element and played, the
      autoplay poll resumes paused elements, the counter of the model is
      a ghost, and after the click on the prompt both sub-streams
      are established in every fair schedule of the page, whatever else
      the schedule delivers (the liveness of [Recovery] through the
      projection of the page's schedule on the sessions).
    - [Lights]: the ambient light sampler, [getAverageColor] as the fold
      of the source's loop, the array of [getColors] and its [join],
      [drawImage] and the timer's callback; the loop is the floor of the
      mean, the result is 24 bytes, the colours are those of the eight
      outer blocks in the order of the source, and the middle block is not
      sampled.  This file uses MathComp and loads [Text] only.

    ** Conventions

    A handler has type [world -> world] (or [page -> page]); [w |> f |> g]
    runs [f] then [g].  Events that reach no listener leave the state
    unchanged, which is how the browser behaves for an element with no
    listener, a cleared timer, a null handler slot or a settled promise.
    The JavaScript event loop is single-threaded: a handler runs to
    completion, and a [then] callback runs before the next event, so one
    step of [dispatch] or [sstep] is one turn of the loop together with
    the microtasks it queues (the [then] of [check] runs in the step in
    which the promise of [startJanus] resolves).

    Assumptions on the signaling library.  [sstep] delivers a callback
    only where the library can issue it: the callback of [Janus.init], of
    [new Janus], of [janus.attach] and of a request once each and in this
    order, the callbacks of the plugin handle only between attach and
    detach.  The code has no such guards; they state what janus.js is
    taken to do, and the theorems of [Session] and [Recovery] hold under
    them.

    No definition uses fuel: every handler is a finite composition of
    state updates, runs recurse on the list of events, the string
    functions recurse on the string, and the sampler's loop is a fold over
    the 100 pixel indices.  The timers never stop; their runs are
    schedules, functions from instants to events, and what is proved of
    them is proved for every schedule that satisfies the stated fairness
    hypotheses, each of which is shown satisfiable by a schedule that
    delivers a finite list of events and then ticks for ever.  Integers
    are unbounded ([Z], [nat], [N]): the program computes no machine-width
    arithmetic; the bytes of image data are bounded by hypothesis
    ([bytes]).

    ** Not modelled

    The lifecycle of the specification as a relation: the code has no
    state for it, an attempt that fails stays where it failed, and the way
    back to Idle is a new attempt; what it promises of the order of the
    attach sequence is in the invariant [attempt_ok].  What receives the
    string of colours behind the Qt bridge.  Rendering and layout; the
    media transport behind Janus and what the library sends on the wire;
    the socket's wire format and the server;
    [preventDefault] and [focus] (they change no state the program reads
    back); how the browser scales a video frame onto the canvas, when it
    lets a media element play and when it pauses one (inputs of the
    model); the rounding of numbers to doubles and the conversion of a
    fraction to text (the slider's value is kept as a number); the Qt host
    behind [EventBridge]. *)

From stdpp Require Export prelude.

(** ** Notation *)

Declare Scope relay_scope.
Delimit Scope relay_scope with relay.

(** [w |> f] applies the handler [f] to the state [w]; chains read in the
    order the statements of a method run. *)
Notation "w |> f" := (f w)
  (at level 68, left associativity, only parsing) : relay_scope.

#[global] Open Scope relay_scope.

(** ** Tactics *)

(** Split on every [if] and [match] the goal is stuck on. *)
Ltac split_guards :=
  repeat first
    [ progress simplify_eq/=
    | case_decide
    | case_bool_decide
    | case_match ].

(** Close a decidable goal about concrete data by evaluation. *)
Ltac by_compute := apply (bool_decide_unpack _); vm_compute; exact I.

(** [relay] holds the resolution hints of the development, [relay_rw] its
    rewrite rules; [relay_simpl] normalises a goal with the latter. *)
Create HintDb relay discriminated.
Create Rewrite HintDb relay_rw.

Ltac relay_simpl := autorewrite with relay_rw; simpl.

(** ** Runs of a step function *)

Section run.
Context {E W : Type} (step : E → W → W).
Implicit Types (e : E) (es : list E) (w : W).

(** The state after the events [es] were delivered in order, starting
    from [w]. *)
Definition run es w : W := foldl (λ w e, step e w) w es.

Lemma run_nil w : run [] w = w.
Proof. done. Qed.

Lemma run_cons e es w : run (e :: es) w = run es (step e w).
Proof. done. Qed.

Lemma run_app es1 es2 w : run (es1 ++ es2) w = run es2 (run es1 w).
Proof. apply foldl_app. Qed.

Lemma run_snoc es e w : run (es ++ [e]) w = step e (run es w).
Proof. by rewrite run_app. Qed.

(** A property kept by every step is kept by every run. *)
Lemma run_invariant (P : W → Prop) es w :
  (∀ e w, P w → P (step e w)) → P w → P (run es w).
Proof.
  intros Hstep. revert w.
  induction es as [|e es IH]; intros w Hw; [done|].
  rewrite run_cons. by apply IH, Hstep.
Qed.

(** The same, for runs all of whose events satisfy [Q]. *)
Lemma run_invariant_where (Q : E → Prop) (P : W → Prop) es w :
  (∀ e w, Q e → P w → P (step e w)) → Forall Q es → P w → P (run es w).
Proof.
  intros Hstep Hes. revert w.
  induction Hes as [|e es He _ IH]; intros w Hw; [done|].
  rewrite run_cons. by apply IH, Hstep.
Qed.

(** A preorder that every step respects relates the ends of every run. *)
Lemma run_preorder (R : relation W) `{!PreOrder R} es w :
  (∀ e w, R w (step e w)) → R w (run es w).
Proof.
  intros Hstep. revert w.
  induction es as [|e es IH]; intros w; [done|].
  rewrite run_cons. by etrans; [apply Hstep|apply IH].
Qed.

(** Steps that fix a state are absorbed by it. *)
Lemma run_fixed es w :
  Forall (λ e, step e w = w) es → run es w = w.
Proof.
  induction 1 as [|e es He _ IH]; [done|].
  by rewrite run_cons, He.
Qed.

End run.

#[global] Arguments run {E W} step es w : simpl never.

(** A part of the state that evolves by a step of its own is, after a
    run, what its own steps make of it.  The second form is for a part
    that does so in the states that satisfy an invariant. *)
Lemma run_project {E W V : Type} (step : E → W → W) (f : E → V → V)
    (π : W → V) es w :
  (∀ e w, π (step e w) = f e (π w)) → π (run step es w) = run f es (π w).
Proof.
  intros Hπ. revert w. induction es as [|e es IH]; intros w; [done|].
  by rewrite !run_cons, IH, Hπ.
Qed.

Lemma run_project_where {E W V : Type} (step : E → W → W) (f : E → V → V)
    (π : W → V) (P : W → Prop) es w :
  (∀ e w, P w → P (step e w)) →
  (∀ e w, P w → π (step e w) = f e (π w)) →
  P w → π (run step es w) = run f es (π w).
Proof.
  intros HP Hπ. revert w. induction es as [|e es IH]; intros w Hw; [done|].
  by rewrite !run_cons, IH, Hπ by auto.
Qed.

(** A part of the state that no step changes is the same after a run. *)
Lemma run_const {E W V : Type} (step : E → W → W) (π : W → V) es w :
  (∀ e w, π (step e w) = π w) → π (run step es w) = π w.
Proof.
  intros Hπ. revert w. induction es as [|e es IH]; intros w; [done|].
  by rewrite run_cons, IH, Hπ.
Qed.

(** Events that change nothing can be left out of a run. *)
Lemma run_filter {E W : Type} (step : E → W → W) (p : E → bool) es w :
  (∀ e w, p e = false → step e w = w) →
  run step (filter (λ e, p e = true) es) w = run step es w.
Proof.
  intros Hp. revert w. induction es as [|e es IH]; intros w; [done|].
  rewrite filter_cons. destruct (p e) eqn:He.
  - rewrite decide_True by done. by rewrite !run_cons, IH.
  - rewrite decide_False by done. by rewrite run_cons, Hp, IH.
Qed.

(** A step that acts through a partial translation of the events is the
    translated step on the translated events. *)
Lemma run_omap {E F W : Type} (step : F → W → W) (g : E → option F) es w :
  run (λ e w, from_option (λ c, step c w) w (g e)) es w
  = run step (omap g es) w.
Proof.
  revert w. induction es as [|e es IH]; intros w; [done|].
  rewrite run_cons, IH. cbn [omap list_omap]. by destruct (g e).
Qed.

(** ** Infinite schedules

    A timer that never stops and a library that keeps calling back give
    runs without an end.  Such a run is a schedule [σ : nat → E], the
    event delivered at each instant; [state_at σ w n] is the state after
    its first [n] events.  Liveness is stated on schedules: what holds
    at some instant of every schedule that is fair. *)

Section schedule.
Context {E W : Type} (step : E → W → W).
Implicit Types (σ : nat → E) (w : W) (n m : nat).

Fixpoint state_at σ w n : W :=
  match n with
  | 0 => w
  | S n => step (σ n) (state_at σ w n)
  end.

(** [Q] holds of infinitely many events of [σ]. *)
Definition infinitely_often (Q : E → Prop) σ : Prop :=
  ∀ n, ∃ m, n ≤ m ∧ Q (σ m).

(** The first [n] events of a schedule are a run. *)
Lemma state_at_run σ w n : state_at σ w n = run step (σ <$> seq 0 n) w.
Proof.
  induction n as [|n IH]; [done|].
  rewrite seq_S, fmap_app. cbn [fmap list_fmap]. by rewrite run_snoc, <-IH.
Qed.

(** A property kept by the events of the schedule, each taken in the
    state it is delivered in, holds at every instant. *)
Lemma schedule_invariant (Q : W → E → Prop) (P : W → Prop) σ w :
  (∀ e w, Q w e → P w → P (step e w)) →
  (∀ n, Q (state_at σ w n) (σ n)) → P w → ∀ n, P (state_at σ w n).
Proof. intros Hstep HQ Hw n. induction n as [|n IH]; simpl; auto. Qed.

(** The same between two instants. *)
Lemma schedule_invariant_from (Q : W → E → Prop) (P : W → Prop) σ w n m :
  (∀ e w, Q w e → P w → P (step e w)) →
  (∀ n, Q (state_at σ w n) (σ n)) →
  n ≤ m → P (state_at σ w n) → P (state_at σ w m).
Proof. intros Hstep HQ Hnm Hn. induction Hnm; simpl; auto. Qed.

End schedule.

(** A component of the state that follows the events by a step of its
    own, in the states of an invariant, has the schedule of those events:
    the projection of a schedule is a schedule. *)
Lemma state_at_project {E F W V} (step : E → W → W) (f : F → V → V)
    (g : E → F) (π : W → V) (P : W → Prop) (σ : nat → E) w n :
  (∀ e w, P w → P (step e w)) →
  (∀ e w, P w → π (step e w) = f (g e) (π w)) → P w →
  P (state_at step σ w n) ∧
  π (state_at step σ w n) = state_at f (λ i, g (σ i)) (π w) n.
Proof.
  intros HP Hπ Hw. induction n as [|n [IHP IH]]; [done|]. simpl.
  split; [by apply HP|]. by rewrite Hπ, IH.
Qed.

(** ** Counting in logs *)

Section count.
Context {A : Type} (p : A → bool).
Implicit Types (x : A) (l : list A).

(** Number of entries of [l] that satisfy [p]. *)
Definition countb l : nat := length (filter (λ x, p x = true) l).

Lemma countb_nil : countb [] = 0.
Proof. done. Qed.

Lemma countb_app l1 l2 : countb (l1 ++ l2) = countb l1 + countb l2.
Proof. unfold countb. by rewrite filter_app, length_app. Qed.

Lemma countb_cons x l :
  countb (x :: l) = (if p x then 1 else 0) + countb l.
Proof.
  unfold countb. rewrite filter_cons.
  destruct (p x); by case_decide.
Qed.

Lemma countb_snoc l x :
  countb (l ++ [x]) = countb l + (if p x then 1 else 0).
Proof. rewrite countb_app, countb_cons, countb_nil. lia. Qed.

End count.

#[export] Hint Rewrite @run_nil @run_cons @run_app : relay_rw.
#[export] Hint Rewrite @countb_nil @countb_app @countb_cons : relay_rw.
#[export] Hint Rewrite @app_nil_r @app_nil_l : relay_rw.
#[export] Hint Rewrite <- @app_assoc : relay_rw.
