(* ===== verification/Text.v ===== *)
(** * Text: splitting, joining and decimal numerals

    The string operations the page script uses outside [startJanus]:
    [String.prototype.split] with a separator of one character (index.js
    257, 259), [Array.prototype.join] (index.js 469), and the conversion of
    a non-negative integer to its decimal numeral, which [join] applies to
    the numbers of an array.  [read_uint] reads a numeral back; it is the
    digit reader of [Number] in [ToNumber].  The lemmas check the
    definitions against each other: [split] and [join] are inverse to
    each other, and a numeral is read back as it was written.

    The file uses the Standard Library only, so that both the files built
    on stdpp and the one built on MathComp can load it.  Strings are
    sequences of characters of one byte, as everywhere in the
    development. *)

From Stdlib Require Import String Ascii List Arith NArith Lia Utf8.
From Stdlib Require Import DecimalString DecimalN.
Import ListNotations.

#[local] Open Scope string_scope.

(** ** Definitions *)

(** The separators of the page script. *)
Definition amp : ascii := ascii_of_nat 38.
Definition equals : ascii := ascii_of_nat 61.
Definition comma : ascii := ascii_of_nat 44.

(** [s.split(sep)] for a separator of one character. *)
Fixpoint split (sep : ascii) (s : string) : list string :=
  match s with
  | EmptyString => [EmptyString]
  | String c s' =>
      if Ascii.eqb c sep then EmptyString :: split sep s'
      else match split sep s' with
           | p :: ps => String c p :: ps
           | [] => [String c EmptyString]
           end
  end.

(** [l.join(sep)] for an array of strings. *)
Fixpoint join (sep : string) (l : list string) : string :=
  match l with
  | [] => EmptyString
  | [p] => p
  | p :: l => p ++ sep ++ join sep l
  end.

(** [String(n)] for a non-negative integer: its decimal numeral, without
    leading zeros.  JavaScript writes integers from 10^21 on with an
    exponent; the numbers the program prints are bytes. *)
Definition toString (n : N) : string :=
  NilEmpty.string_of_uint (N.to_uint n).

(** The digit a character stands for, as a constructor of numerals. *)
Definition digit_of (c : ascii) : option (Decimal.uint → Decimal.uint) :=
  if (nat_of_ascii c <? 48)%nat then None else
  match (nat_of_ascii c - 48)%nat with
  | 0 => Some Decimal.D0
  | 1 => Some Decimal.D1
  | 2 => Some Decimal.D2
  | 3 => Some Decimal.D3
  | 4 => Some Decimal.D4
  | 5 => Some Decimal.D5
  | 6 => Some Decimal.D6
  | 7 => Some Decimal.D7
  | 8 => Some Decimal.D8
  | 9 => Some Decimal.D9
  | _ => None
  end.

Definition is_digit (c : ascii) : bool :=
  match digit_of c with Some _ => true | None => false end.

(** The longest prefix of [s] made of digits, as a numeral, and the rest
    of [s]. *)
Fixpoint read_uint (s : string) : Decimal.uint * string :=
  match s with
  | EmptyString => (Decimal.Nil, EmptyString)
  | String c s' =>
      match digit_of c with
      | Some d => let (u, r) := read_uint s' in (d u, r)
      | None => (Decimal.Nil, s)
      end
  end.

(** [s] is made of digits. *)
Fixpoint all_digits (s : string) : bool :=
  match s with
  | EmptyString => true
  | String c s' => is_digit c && all_digits s'
  end.

(** No character of [s] is [c]. *)
Fixpoint free_of (c : ascii) (s : string) : bool :=
  match s with
  | EmptyString => true
  | String c' s' => negb (Ascii.eqb c' c) && free_of c s'
  end.

(** ** Splitting and joining *)

Section split_join.
Implicit Types (s p : string) (sep : ascii) (l : list string).

Lemma split_nonempty sep s : split sep s ≠ [].
Proof.
  destruct s as [|c s]; simpl; [discriminate|].
  destruct (Ascii.eqb c sep), (split sep s); discriminate.
Qed.

Lemma join_cons (d : string) p l :
  l ≠ [] → join d (p :: l) = p ++ d ++ join d l.
Proof. destruct l; [contradiction|reflexivity]. Qed.

(** Joining the pieces of [s.split(sep)] with the separator gives [s]
    back: the pieces lose no character but the separators. *)
Theorem join_split sep s : join (String sep EmptyString) (split sep s) = s.
Proof.
  induction s as [|c s IH]; [reflexivity|]. cbn [split].
  pose proof (split_nonempty sep s) as Hne.
  destruct (Ascii.eqb_spec c sep) as [->|Hc].
  - rewrite join_cons, IH by assumption. reflexivity.
  - destruct (split sep s) as [|p ps] eqn:Hs; [contradiction|].
    rewrite <-IH. destruct ps; reflexivity.
Qed.

(** A piece without separator is one piece. *)
Lemma split_free sep p : free_of sep p = true → split sep p = [p].
Proof.
  induction p as [|c p IH]; [reflexivity|]. simpl.
  destruct (Ascii.eqb c sep); [discriminate|]. simpl.
  intros Hp. rewrite (IH Hp). reflexivity.
Qed.

Lemma split_app_free sep p s :
  free_of sep p = true →
  split sep (p ++ String sep s) = p :: split sep s.
Proof.
  induction p as [|c p IH]; simpl.
  - rewrite Ascii.eqb_refl. reflexivity.
  - destruct (Ascii.eqb c sep); [discriminate|]. simpl.
    intros Hp. rewrite (IH Hp). reflexivity.
Qed.

(** Splitting what was joined gives the pieces back, when no piece holds
    the separator. *)
Lemma split_join sep l :
  l ≠ [] → Forall (λ p, free_of sep p = true) l →
  split sep (join (String sep EmptyString) l) = l.
Proof.
  intros Hne Hl. induction Hl as [|p l Hp Hl IH]; [contradiction|].
  destruct l as [|q l]; [apply split_free, Hp|].
  rewrite join_cons by discriminate. cbn [append].
  rewrite split_app_free by assumption. f_equal. apply IH. discriminate.
Qed.

End split_join.

(** ** Numerals *)

Section numerals.
Implicit Types (u : Decimal.uint) (s r : string) (n m : N) (c : ascii).

(** What follows a numeral does not start with a digit. *)
Definition ends_numeral (r : string) : Prop :=
  match r with
  | EmptyString => True
  | String c _ => digit_of c = None
  end.

(** Reading what was printed gives the numeral back. *)
Lemma read_string_of_uint u r :
  ends_numeral r → read_uint (NilEmpty.string_of_uint u ++ r) = (u, r).
Proof.
  intros Hr. induction u as [|u IH|u IH|u IH|u IH|u IH|u IH|u IH|u IH|u IH|u IH];
    simpl; try (rewrite IH; reflexivity).
  destruct r as [|c r]; [reflexivity|]. simpl in *. rewrite Hr. reflexivity.
Qed.

Lemma append_empty s : s ++ EmptyString = s.
Proof. induction s as [|c s IH]; simpl; [|rewrite IH]; reflexivity. Qed.

Lemma to_uint_nonnil n : N.to_uint n ≠ Decimal.Nil.
Proof.
  intros Hn. pose proof (DecimalN.Unsigned.of_to n) as Hof.
  rewrite Hn in Hof. simpl in Hof. subst n. discriminate.
Qed.

(** A numeral is made of digits, and the digits are the characters 48
    to 57. *)
Lemma string_of_uint_digits u : all_digits (NilEmpty.string_of_uint u) = true.
Proof.
  induction u as [|u IH|u IH|u IH|u IH|u IH|u IH|u IH|u IH|u IH|u IH];
    [reflexivity|..]; cbn [NilEmpty.string_of_uint all_digits];
    rewrite IH; reflexivity.
Qed.

Lemma toString_digits n : all_digits (toString n) = true.
Proof. apply string_of_uint_digits. Qed.

Lemma toString_nonempty n : toString n ≠ EmptyString.
Proof.
  unfold toString. pose proof (to_uint_nonnil n).
  destruct (N.to_uint n); [contradiction|..]; discriminate.
Qed.

Lemma is_digit_code c :
  is_digit c = true → 48 ≤ nat_of_ascii c ∧ nat_of_ascii c ≤ 57.
Proof.
  unfold is_digit, digit_of.
  destruct (Nat.ltb_spec (nat_of_ascii c) 48) as [|Hc]; [discriminate|].
  remember (nat_of_ascii c - 48) as k eqn:Hk.
  do 10 (destruct k as [|k]; [lia|]). discriminate.
Qed.

Lemma string_of_uint_free c u :
  digit_of c = None → free_of c (NilEmpty.string_of_uint u) = true.
Proof.
  intros Hc.
  induction u as [|u IH|u IH|u IH|u IH|u IH|u IH|u IH|u IH|u IH|u IH];
    cbn [NilEmpty.string_of_uint free_of]; [reflexivity|..];
    rewrite IH, Bool.andb_true_r;
    apply Bool.negb_true_iff, Ascii.eqb_neq; intros <-; discriminate.
Qed.

Lemma toString_free c n : digit_of c = None → free_of c (toString n) = true.
Proof. apply string_of_uint_free. Qed.

End numerals.

Example toString_examples :
  toString 0 = "0" ∧ toString 7 = "7" ∧ toString 255 = "255".
Proof. repeat split. Qed.

Example split_examples :
  split equals "a=b=c" = ["a"; "b"; "c"] ∧ split amp "" = [""] ∧
  join "," ["1"; "2"; "3"] = "1,2,3".
Proof. repeat split. Qed.
