(* ===== verification/JsCore.v ===== *)
(** * JsCore: the JavaScript values the program computes with

    Numbers: the controller divides a pointer offset by the size of the
    element (index.js 25-26).  Both operands are DOM [long]s, so they are
    integers here, and the quotient is a [jsnum]: an exact rational, or one
    of the IEEE results of a division by zero.

    Strings: [startJanus] uses [toLowerCase], [includes], [indexOf] and
    [replace] of String.prototype (index.js 166-170, 216, 224-228).  They
    are defined here on [string] as sequences of characters, with the
    theorems the clients need: what an index means, that [replace] touches
    the leftmost occurrence only, that case folding is idempotent. *)

From stdpp Require Import strings.
From Stdlib Require Import QArith.
From S2P Require Import Prelude.

Close Scope Q_scope.
#[local] Open Scope Z_scope.

(** ** Numbers *)

(** The result of dividing two integers as JavaScript numbers. *)
Inductive jsnum : Type :=
  | JsFin (q : Q)
  | JsInf (negative : bool)
  | JsNaN.

#[export] Instance Q_eq_dec : EqDecision Q.
Proof. solve_decision. Defined.

#[export] Instance jsnum_eq_dec : EqDecision jsnum.
Proof. solve_decision. Defined.

(** [a / b] for integers [a] and [b]: [0 / 0] is NaN, [a / 0] is an
    infinity with the sign of [a], any other quotient is exact (kept in
    lowest terms so that equal numbers are equal terms). *)
Definition js_div (a b : Z) : jsnum :=
  if decide (b = 0) then
    if decide (a = 0) then JsNaN else JsInf (bool_decide (a < 0))
  else JsFin (Qred (inject_Z a / inject_Z b)).

(** [x < 0] on a finite number, as the wheel handler tests it. *)
Definition js_negative (x : Q) : bool := negb (Qle_bool 0 x).

(** A number of the closed unit interval. *)
Definition in_unit (x : jsnum) : Prop :=
  match x with
  | JsFin q => (0 <= q)%Q ∧ (q <= 1)%Q
  | _ => False
  end.

Definition in_unitb (x : jsnum) : bool :=
  match x with
  | JsFin q => Qle_bool 0 q && Qle_bool q 1
  | _ => false
  end.

Lemma in_unitb_spec x : in_unitb x = true ↔ in_unit x.
Proof.
  destruct x as [q| |]; simpl; [|done..].
  by rewrite andb_true_iff, !Qle_bool_iff.
Qed.

#[export] Instance in_unit_dec x : Decision (in_unit x).
Proof.
  refine (cast_if (decide (in_unitb x = true))); by rewrite <-in_unitb_spec.
Defined.

Lemma js_negative_spec x : js_negative x = true ↔ (x < 0)%Q.
Proof.
  unfold js_negative. rewrite negb_true_iff, <-not_true_iff_false, Qle_bool_iff.
  split; [apply Qnot_le_lt|apply Qlt_not_le].
Qed.

Section js_div.
Implicit Types a b : Z.

Lemma js_div_zero a : js_div a 0 = if decide (a = 0) then JsNaN
                                   else JsInf (bool_decide (a < 0)).
Proof. done. Qed.

Lemma js_div_finite a b :
  b ≠ 0 → ∃ q, js_div a b = JsFin q ∧ (q == inject_Z a / inject_Z b)%Q.
Proof.
  intros Hb. unfold js_div. rewrite decide_False by done.
  eexists; split; [done|]. apply Qred_correct.
Qed.

(** The quotient of a positive divisor lies in the unit interval exactly
    when the dividend lies between zero and the divisor. *)
Lemma js_div_in_unit_pos a b :
  0 < b → in_unit (js_div a b) ↔ 0 ≤ a ≤ b.
Proof.
  intros Hb. unfold js_div. rewrite decide_False by lia. simpl.
  rewrite !Qred_correct.
  destruct b as [|p|p]; [lia| |lia].
  unfold Qle, Qdiv, Qmult, Qinv; simpl.
  lia.
Qed.

End js_div.

(** ** Strings *)

#[local] Close Scope Z_scope.

Section strings.
Implicit Types (s t pat pre post new : string) (c : Ascii.ascii) (i n : nat).

(** *** Definitions *)

(** Lower-case form of a character: the letters A-Z move to a-z. *)
Definition lower_ascii c : Ascii.ascii :=
  let n := Ascii.nat_of_ascii c in
  if (65 <=? n)%nat && (n <=? 90)%nat then Ascii.ascii_of_nat (n + 32) else c.

(** [s.toLowerCase()] *)
Fixpoint toLowerCase s : string :=
  match s with
  | "" => ""
  | String c s' => String (lower_ascii c) (toLowerCase s')
  end.

(** [s] without its first [n] characters. *)
Fixpoint string_drop n s : string :=
  match n, s with
  | S n', String _ s' => string_drop n' s'
  | _, _ => s
  end.

(** [s.startsWith(pat)] *)
Fixpoint startsWith s pat {struct pat} : bool :=
  match pat, s with
  | "", _ => true
  | String c pat', String d s' => bool_decide (c = d) && startsWith s' pat'
  | String _ _, "" => false
  end.

(** Position of the leftmost occurrence of [pat] in [s]. *)
Fixpoint find_first pat s : option nat :=
  if startsWith s pat then Some 0
  else match s with
       | "" => None
       | String _ s' => S <$> find_first pat s'
       end.

(** [s.indexOf(pat)]: the position, or -1. *)
Definition indexOf s pat : Z :=
  match find_first pat s with
  | Some i => Z.of_nat i
  | None => (-1)%Z
  end.

(** [s.includes(pat)] *)
Definition includes s pat : bool := bool_decide (is_Some (find_first pat s)).

(** [s.replace(pat, new)] for a string pattern: the leftmost occurrence
    is replaced, the rest of [s] is kept. *)
Fixpoint replace s pat new : string :=
  if startsWith s pat then new +:+ string_drop (String.length pat) s
  else match s with
       | "" => ""
       | String c s' => String c (replace s' pat new)
       end.

(** [pat] occurs in [s]. *)
Definition occurs pat s : Prop := ∃ pre post, s = pre +:+ pat +:+ post.

(** *** Append, prefix, drop *)

Lemma string_app_nil_l s : "" +:+ s = s.
Proof. done. Qed.

Lemma string_app_cons c s t : String c s +:+ t = String c (s +:+ t).
Proof. done. Qed.

Lemma string_app_nil_r s : s +:+ "" = s.
Proof. induction s as [|c s IH]; [done|]. by rewrite string_app_cons, IH. Qed.

Lemma string_app_eq_nil s t : s +:+ t = "" → s = "" ∧ t = "".
Proof. destruct s; [done|]. by rewrite string_app_cons. Qed.

Lemma string_app_assoc s t u : (s +:+ t) +:+ u = s +:+ (t +:+ u).
Proof.
  induction s as [|c s IH]; [done|]. by rewrite !string_app_cons, IH.
Qed.

Lemma string_app_length s t :
  String.length (s +:+ t) = String.length s + String.length t.
Proof.
  induction s as [|c s IH]; [done|]. rewrite string_app_cons. simpl. by rewrite IH.
Qed.

Lemma startsWith_spec s pat : startsWith s pat = true ↔ ∃ post, s = pat +:+ post.
Proof.
  revert s. induction pat as [|c pat IH]; intros s; simpl.
  { split; [by exists s|done]. }
  destruct s as [|d s].
  { split; [done|]. intros [post Hp]. by rewrite string_app_cons in Hp. }
  rewrite andb_true_iff, bool_decide_eq_true, IH.
  setoid_rewrite string_app_cons. split.
  - intros [-> [post ->]]. by exists post.
  - intros [post ?]; simplify_eq. split; [done|by exists post].
Qed.

Lemma startsWith_app pat post : startsWith (pat +:+ post) pat = true.
Proof. apply startsWith_spec. by exists post. Qed.

Lemma string_drop_app pre s : string_drop (String.length pre) (pre +:+ s) = s.
Proof. induction pre as [|c pre IH]; [by destruct s|done]. Qed.

(** *** Searching *)

Lemma find_first_unfold pat s :
  find_first pat s =
    if startsWith s pat then Some 0
    else match s with
         | "" => None
         | String _ s' => S <$> find_first pat s'
         end.
Proof. by destruct s. Qed.

Lemma occurs_here pat post : occurs pat (pat +:+ post).
Proof. by exists "", post. Qed.

Lemma occurs_cons c pat s : occurs pat s → occurs pat (String c s).
Proof. intros (pre & post & ->). by exists (String c pre), post. Qed.

Lemma occurs_inv c pat s :
  occurs pat (String c s) → startsWith (String c s) pat = true ∨ occurs pat s.
Proof.
  intros (pre & post & Hs). destruct pre as [|d pre].
  - left. rewrite Hs, string_app_nil_l. apply startsWith_app.
  - right. rewrite string_app_cons in Hs. simplify_eq. by exists pre, post.
Qed.

Lemma occurs_refl s : occurs s s.
Proof. exists "", "". by rewrite string_app_nil_r. Qed.

Lemma occurs_trans s t u : occurs s t → occurs t u → occurs s u.
Proof.
  intros (p1 & q1 & ->) (p2 & q2 & ->). exists (p2 +:+ p1), (q1 +:+ q2).
  by rewrite !string_app_assoc.
Qed.

Lemma occurs_app_l pat s t : occurs pat s → occurs pat (s +:+ t).
Proof.
  intros (pre & post & ->). exists pre, (post +:+ t).
  by rewrite !string_app_assoc.
Qed.

Lemma occurs_app_r pat s t : occurs pat t → occurs pat (s +:+ t).
Proof.
  intros (pre & post & ->). exists (s +:+ pre), post.
  by rewrite !string_app_assoc.
Qed.

(** [find_first] answers [None] exactly when there is no occurrence. *)
Lemma find_first_None pat s : find_first pat s = None ↔ ¬ occurs pat s.
Proof.
  induction s as [|c s IH]; rewrite find_first_unfold.
  - destruct (startsWith "" pat) eqn:Hp.
    + apply startsWith_spec in Hp as [post Hp].
      split; [done|]. intros []. by exists "", post.
    + split; [|done]. intros _ (pre & post & Hs). symmetry in Hs.
      apply string_app_eq_nil in Hs as [_ [-> _]%string_app_eq_nil]. done.
  - destruct (startsWith (String c s) pat) eqn:Hp.
    + apply startsWith_spec in Hp as [post Hp].
      split; [done|]. intros []. rewrite Hp. apply occurs_here.
    + rewrite fmap_None, IH. split.
      * intros Hs [?|?]%occurs_inv; [congruence|done].
      * intros Hs ?. by apply Hs, occurs_cons.
Qed.

(** A position it answers is the start of an occurrence, and no
    occurrence starts further left. *)
Lemma find_first_Some pat s i :
  find_first pat s = Some i →
  ∃ pre post, s = pre +:+ pat +:+ post ∧ String.length pre = i.
Proof.
  revert i. induction s as [|c s IH]; intros i; rewrite find_first_unfold.
  - destruct (startsWith "" pat) eqn:Hp; [|done].
    apply startsWith_spec in Hp as [post Hp]. intros [= <-]. by exists "", post.
  - destruct (startsWith (String c s) pat) eqn:Hp.
    + apply startsWith_spec in Hp as [post Hp]. intros [= <-]. by exists "", post.
    + intros (j & Hj & ->)%fmap_Some.
      destruct (IH j Hj) as (pre & post & -> & <-).
      by exists (String c pre), post.
Qed.

Lemma find_first_leftmost pat s i pre post :
  find_first pat s = Some i → s = pre +:+ pat +:+ post → i ≤ String.length pre.
Proof.
  revert i pre. induction s as [|c s IH]; intros i pre; rewrite find_first_unfold.
  - destruct (startsWith "" pat); [|done]. intros [= <-] _. lia.
  - destruct (startsWith (String c s) pat) eqn:Hp; [intros [= <-] _; lia|].
    intros (j & Hj & ->)%fmap_Some Hs. destruct pre as [|d pre].
    + rewrite string_app_nil_l in Hs. by rewrite Hs, startsWith_app in Hp.
    + rewrite string_app_cons in Hs. simplify_eq. simpl.
      apply le_n_S. by eapply IH.
Qed.

Lemma find_first_is_Some pat s : is_Some (find_first pat s) ↔ occurs pat s.
Proof.
  rewrite <-not_eq_None_Some, find_first_None.
  split; [|by intros ? []]. intros Hnn.
  destruct (find_first pat s) as [i|] eqn:Hf.
  - destruct (find_first_Some _ _ _ Hf) as (pre & post & -> & _). by exists pre, post.
  - by apply find_first_None in Hf.
Qed.

Lemma includes_spec s pat : includes s pat = true ↔ occurs pat s.
Proof. unfold includes. by rewrite bool_decide_eq_true, find_first_is_Some. Qed.

Lemma includes_false s pat : includes s pat = false ↔ ¬ occurs pat s.
Proof. by rewrite <-includes_spec, not_true_iff_false. Qed.

#[export] Instance occurs_dec pat s : Decision (occurs pat s).
Proof.
  refine (cast_if (decide (includes s pat = true))); by rewrite <-includes_spec.
Defined.

Lemma indexOf_absent s pat : indexOf s pat = (-1)%Z ↔ ¬ occurs pat s.
Proof.
  rewrite <-find_first_None. unfold indexOf.
  destruct (find_first pat s); split; (done || lia).
Qed.

Lemma indexOf_includes s pat :
  includes s pat = bool_decide (indexOf s pat ≠ (-1)%Z).
Proof.
  apply bool_decide_ext. rewrite indexOf_absent, find_first_is_Some.
  destruct (decide (occurs pat s)); tauto.
Qed.

Lemma indexOf_range s pat :
  (-1 ≤ indexOf s pat ≤ Z.of_nat (String.length s) - Z.of_nat (String.length pat))%Z
  ∨ indexOf s pat = (-1)%Z.
Proof.
  unfold indexOf. destruct (find_first pat s) as [i|] eqn:Hf; [left|by right].
  destruct (find_first_Some _ _ _ Hf) as (pre & post & -> & <-).
  rewrite !string_app_length. lia.
Qed.

(** *** Replacing *)

Lemma replace_unfold s pat new :
  replace s pat new =
    if startsWith s pat then new +:+ string_drop (String.length pat) s
    else match s with
         | "" => ""
         | String c s' => String c (replace s' pat new)
         end.
Proof. by destruct s. Qed.

(** Without an occurrence the string is returned as it is. *)
Lemma replace_absent s pat new : ¬ occurs pat s → replace s pat new = s.
Proof.
  induction s as [|c s IH]; intros Hs; rewrite replace_unfold.
  - destruct (startsWith "" pat) eqn:Hp; [|done].
    apply startsWith_spec in Hp as [post Hp]. destruct Hs. by exists "", post.
  - destruct (startsWith (String c s) pat) eqn:Hp.
    + apply startsWith_spec in Hp as [post Hp]. destruct Hs.
      rewrite Hp. apply occurs_here.
    + f_equal. apply IH. intros ?. by apply Hs, occurs_cons.
Qed.

(** With one, the leftmost occurrence is cut out and [new] put in its
    place; what stands before and after it is kept. *)
Lemma replace_first s pat new i :
  find_first pat s = Some i →
  ∃ pre post, s = pre +:+ pat +:+ post ∧ String.length pre = i ∧
              replace s pat new = pre +:+ new +:+ post.
Proof.
  revert i. induction s as [|c s IH]; intros i;
    rewrite find_first_unfold, replace_unfold.
  - destruct (startsWith "" pat) eqn:Hp; [|done].
    apply startsWith_spec in Hp as [post Hp]. intros [= <-]. symmetry in Hp.
    apply string_app_eq_nil in Hp as [-> ->]. by exists "", "".
  - destruct (startsWith (String c s) pat) eqn:Hp.
    + apply startsWith_spec in Hp as [post Hp]. intros [= <-].
      rewrite Hp, string_drop_app. by exists "", post.
    + intros (j & Hj & ->)%fmap_Some.
      destruct (IH j Hj) as (pre & post & -> & <- & ->).
      by exists (String c pre), post.
Qed.

Lemma replace_occurs s pat new : occurs pat s → occurs new (replace s pat new).
Proof.
  intros [i Hi]%find_first_is_Some.
  destruct (replace_first s pat new i Hi) as (pre & post & _ & _ & ->).
  by exists pre, post.
Qed.

(** *** Case folding *)

Lemma lower_ascii_idemp c : lower_ascii (lower_ascii c) = lower_ascii c.
Proof. by destruct c as [[] [] [] [] [] [] [] []]. Qed.

Lemma toLowerCase_idemp s : toLowerCase (toLowerCase s) = toLowerCase s.
Proof.
  induction s as [|c s IH]; [done|]. simpl. by rewrite lower_ascii_idemp, IH.
Qed.

Lemma toLowerCase_app s t :
  toLowerCase (s +:+ t) = toLowerCase s +:+ toLowerCase t.
Proof.
  induction s as [|c s IH]; [done|].
  rewrite string_app_cons. simpl. by rewrite IH.
Qed.

Lemma toLowerCase_length s : String.length (toLowerCase s) = String.length s.
Proof. induction s as [|c s IH]; [done|]. simpl. by rewrite IH. Qed.

Lemma occurs_toLowerCase pat s :
  occurs pat s → occurs (toLowerCase pat) (toLowerCase s).
Proof.
  intros (pre & post & ->). rewrite !toLowerCase_app.
  by exists (toLowerCase pre), (toLowerCase post).
Qed.

End strings.

#[export] Hint Rewrite string_app_nil_r string_app_assoc string_app_length
  toLowerCase_idemp toLowerCase_app toLowerCase_length : relay_rw.
#[export] Hint Resolve occurs_here occurs_cons occurs_toLowerCase
  replace_occurs occurs_refl occurs_app_l occurs_app_r : relay.
