(* ===== verification/ToNumber.v ===== *)
(** * ToNumber: [Number(value)] on strings

    The page script converts two strings to numbers: the value of the
    query parameter [volume] (index.js 305) and the value of the volume
    slider (index.js 301).  [StringToNumber] follows the grammar of
    ECMAScript's StringNumericLiteral: white space is trimmed, the empty
    string is 0, a literal is decimal (with an optional sign, fraction and
    exponent, or the word Infinity) or an unsigned integer in base 16, 8
    or 2 with its prefix, and any other string is NaN.

    The result is a [jsnum], an exact rational: the rounding of a literal
    to the nearest double is not modelled, and neither is the sign of
    zero.  Neither matters to the comparisons the script makes with 0 and
    1, except for a literal that exceeds 1 by less than the rounding
    error, which the script accepts as 1 and the model rejects.  Strings
    are sequences of characters of one byte, so the white space is that
    of ASCII; a query string holds no other. *)

From stdpp Require Import strings.
From Stdlib Require Import QArith DecimalString DecimalN.
From S2P Require Import Prelude Text JsCore.

Close Scope Q_scope.
#[local] Open Scope Z_scope.

(** ** Characters *)

Definition code (c : Ascii.ascii) : Z := Z.of_nat (Ascii.nat_of_ascii c).

(** TAB, LF, VT, FF, CR and space. *)
Definition is_space (c : Ascii.ascii) : bool :=
  bool_decide (9 ≤ code c ≤ 13) || bool_decide (code c = 32).

(** The value of a digit in a base up to 16. *)
Definition digit_value (c : Ascii.ascii) : option Z :=
  let n := code c in
  if bool_decide (48 ≤ n ≤ 57) then Some (n - 48)
  else if bool_decide (97 ≤ n ≤ 102) then Some (n - 87)
  else if bool_decide (65 ≤ n ≤ 70) then Some (n - 55)
  else None.

(** ** Trimming *)

Fixpoint trim_start (s : string) : string :=
  match s with
  | String c s' => if is_space c then trim_start s' else s
  | EmptyString => EmptyString
  end.

Fixpoint trim_end (s : string) : string :=
  match s with
  | EmptyString => EmptyString
  | String c s' =>
      match trim_end s' with
      | EmptyString => if is_space c then EmptyString else String c EmptyString
      | t => String c t
      end
  end.

(** [s.trim()] *)
Definition trim (s : string) : string := trim_end (trim_start s).

(** ** Literals *)

(** The digits of [s] in base [radix], most significant first, added to
    [acc]; [None] if a character is not a digit of the base. *)
Fixpoint read_radix (radix acc : Z) (s : string) : option Z :=
  match s with
  | EmptyString => Some acc
  | String c s' =>
      match digit_value c with
      | Some d =>
          if bool_decide (d < radix) then read_radix radix (radix * acc + d) s'
          else None
      | None => None
      end
  end.

(** An integer in base [radix], of one digit at least. *)
Definition integer_literal (radix : Z) (s : string) : jsnum :=
  match s with
  | EmptyString => JsNaN
  | _ => from_option (λ n, JsFin (inject_Z n)) JsNaN (read_radix radix 0 s)
  end.

(** The exponent part of a decimal literal: nothing, or [e] or [E], an
    optional sign and one digit at least, up to the end of the string. *)
Definition exponent_part (s : string) : option Z :=
  match s with
  | EmptyString => Some 0
  | String c s' =>
      if bool_decide (code c = 101 ∨ code c = 69) then
        let '(negative, digits) :=
          match s' with
          | String d s'' =>
              if bool_decide (code d = 45) then (true, s'')
              else if bool_decide (code d = 43) then (false, s'')
              else (false, s')
          | EmptyString => (false, s')
          end in
        match read_uint digits with
        | (Decimal.Nil, _) => None
        | (u, EmptyString) =>
            Some (if negative then - Z.of_uint u else Z.of_uint u)
        | _ => None
        end
      else None
  end.

(** The numeral has no digit. *)
Definition no_digit (u : Decimal.uint) : bool :=
  match u with
  | Decimal.Nil => true
  | _ => false
  end.

(** An unsigned decimal literal: digits, a fraction and an exponent, of
    which the digits before or those after the point may be missing, but
    not both. *)
Definition unsigned_decimal (s : string) : option Q :=
  let '(i, r) := read_uint s in
  let '(f, r) :=
    match r with
    | String c r' =>
        if bool_decide (code c = 46) then read_uint r' else (Decimal.Nil, r)
    | EmptyString => (Decimal.Nil, r)
    end in
  if no_digit i && no_digit f then None else
  e ← exponent_part r;
  Some (Qred ((inject_Z (Z.of_uint i)
               + (Z.of_uint f # Pos.of_nat (10 ^ Decimal.nb_digits f)%nat))
              * (10 # 1) ^ e)%Q).

(** A decimal literal with its sign. *)
Definition decimal_literal (s : string) : jsnum :=
  let '(negative, s) :=
    match s with
    | String c s' =>
        if bool_decide (code c = 45) then (true, s')
        else if bool_decide (code c = 43) then (false, s')
        else (false, s)
    | EmptyString => (false, s)
    end in
  if bool_decide (s = "Infinity") then JsInf negative
  else match unsigned_decimal s with
       | Some q => JsFin (if negative then Qred (- q) else q)
       | None => JsNaN
       end.

(** [Number(s)] for a string [s]. *)
Definition StringToNumber (s : string) : jsnum :=
  match trim s with
  | EmptyString => JsFin 0
  | String c (String x s') as t =>
      if bool_decide (code c = 48) then
        if bool_decide (code x = 120 ∨ code x = 88) then integer_literal 16 s'
        else if bool_decide (code x = 111 ∨ code x = 79) then integer_literal 8 s'
        else if bool_decide (code x = 98 ∨ code x = 66) then integer_literal 2 s'
        else decimal_literal t
      else decimal_literal t
  | t => decimal_literal t
  end.

(** ** Examples *)

Example StringToNumber_decimal :
  StringToNumber "0.5" = JsFin (1 # 2) ∧ StringToNumber "1" = JsFin 1 ∧
  StringToNumber ".25" = JsFin (1 # 4) ∧ StringToNumber "5." = JsFin 5 ∧
  StringToNumber "-1.5" = JsFin (-3 # 2) ∧ StringToNumber "+2" = JsFin 2 ∧
  StringToNumber "007" = JsFin 7.
Proof. split_and!; reflexivity. Qed.

Example StringToNumber_exponent :
  StringToNumber "1e-1" = JsFin (1 # 10) ∧ StringToNumber "2.5E2" = JsFin 250 ∧
  StringToNumber "1e+0" = JsFin 1 ∧ StringToNumber "1e" = JsNaN ∧
  StringToNumber "e5" = JsNaN.
Proof. split_and!; reflexivity. Qed.

Example StringToNumber_other :
  StringToNumber "" = JsFin 0 ∧ StringToNumber "  " = JsFin 0 ∧
  StringToNumber " 0.7 " = JsFin (7 # 10) ∧
  StringToNumber "0x1F" = JsFin 31 ∧ StringToNumber "0b101" = JsFin 5 ∧
  StringToNumber "0o17" = JsFin 15 ∧ StringToNumber "0x" = JsNaN ∧
  StringToNumber "-0x10" = JsNaN ∧ StringToNumber "Infinity" = JsInf false ∧
  StringToNumber "-Infinity" = JsInf true ∧ StringToNumber "." = JsNaN ∧
  StringToNumber "loud" = JsNaN ∧ StringToNumber "1 2" = JsNaN ∧
  StringToNumber "1,5" = JsNaN.
Proof. split_and!; reflexivity. Qed.

(** ** Numerals *)

Section numerals.
Implicit Types (s : string) (c : Ascii.ascii) (u : Decimal.uint) (z : Z).

Lemma is_digit_range c : is_digit c = true → 48 ≤ code c ≤ 57.
Proof. intros ?%is_digit_code. unfold code. lia. Qed.

Lemma digit_not_space c : is_digit c = true → is_space c = false.
Proof.
  intros ?%is_digit_range. unfold is_space.
  rewrite !bool_decide_eq_false_2 by lia. done.
Qed.

Lemma trim_end_digits s : all_digits s = true → trim_end s = s.
Proof.
  induction s as [|c s IH]; [done|]. cbn [all_digits trim_end].
  intros [Hc Hs]%andb_true_iff. rewrite IH, digit_not_space by done.
  by destruct s.
Qed.

(** A string of digits has no white space to trim. *)
Lemma trim_digits s : all_digits s = true → trim s = s.
Proof.
  intros Hs. unfold trim.
  replace (trim_start s) with s; [by apply trim_end_digits|].
  destruct s as [|c s]; [done|]. simpl in *.
  apply andb_true_iff in Hs as [Hc _]. by rewrite digit_not_space.
Qed.

Lemma Qred_inject_Z z : Qred (inject_Z z) = inject_Z z.
Proof.
  unfold Qred, inject_Z.
  pose proof (Z.ggcd_gcd z 1) as Hg.
  pose proof (Z.ggcd_correct_divisors z 1) as Hd.
  destruct (Z.ggcd z 1) as [g [r1 r2]]. simpl in *.
  rewrite Z.gcd_1_r in Hg. subst g. destruct Hd as [-> Hr2].
  f_equal; [lia|]. replace r2 with 1 by lia. done.
Qed.

(** A numeral is a decimal literal without fraction or exponent. *)
Lemma unsigned_decimal_numeral u :
  u ≠ Decimal.Nil →
  unsigned_decimal (NilEmpty.string_of_uint u) = Some (inject_Z (Z.of_uint u)).
Proof.
  intros Hu. unfold unsigned_decimal.
  rewrite <-(append_empty (NilEmpty.string_of_uint u)).
  rewrite read_string_of_uint by done.
  replace (no_digit u) with false by (by destruct u).
  cbn [andb exponent_part mbind option_bind]. f_equal.
  generalize (Z.of_uint u). intros z.
  etrans; [|apply Qred_inject_Z]. apply Qred_complete.
  unfold Qeq. simpl. change (Z.of_uint Decimal.Nil) with 0.
  change (Pos.of_nat 1) with 1%positive. lia.
Qed.

Lemma decimal_literal_digits s u :
  s = NilEmpty.string_of_uint u → u ≠ Decimal.Nil →
  decimal_literal s = JsFin (inject_Z (Z.of_uint u)).
Proof.
  intros Hs Hu. pose proof (string_of_uint_digits u) as Hd.
  rewrite <-Hs in Hd. unfold decimal_literal.
  destruct s as [|c s']; [by destruct u|]. cbn [all_digits] in Hd.
  apply andb_true_iff in Hd as [Hc%is_digit_range _].
  rewrite !bool_decide_eq_false_2 by lia.
  rewrite bool_decide_eq_false_2, Hs, unsigned_decimal_numeral; [done..|].
  intros [= -> _]. by vm_compute in Hc; destruct Hc.
Qed.

End numerals.

(** Reading the numeral of a number gives the number: [Number(String(n))]
    is [n] for every non-negative integer [n]. *)
Theorem StringToNumber_toString (n : N) :
  StringToNumber (toString n) = JsFin (inject_Z (Z.of_N n)).
Proof.
  pose proof (toString_digits n) as Hd.
  assert (decimal_literal (toString n) = JsFin (inject_Z (Z.of_N n))) as Hn.
  { rewrite (decimal_literal_digits _ (N.to_uint n));
      [|done|apply to_uint_nonnil].
    change (Z.of_uint (N.to_uint n)) with (Z.of_N (N.of_uint (N.to_uint n))).
    by rewrite DecimalN.Unsigned.of_to. }
  unfold StringToNumber. rewrite trim_digits by done.
  destruct (toString n) as [|c [|x s]] eqn:Hs; [by apply toString_nonempty in Hs|done|].
  cbn [all_digits] in Hd.
  apply andb_true_iff in Hd as [_ [Hx%is_digit_range _]%andb_true_iff].
  case_bool_decide; [|done].
  by rewrite !bool_decide_eq_false_2 by lia.
Qed.
