(* ===== verification/Channel.v ===== *)
(** * Channel: the outbound socket and the controller's interface

    [emit] lists the events the client sends: one constructor per event
    name passed to [socket.emit] in index.js, with the payload it carries.
    The socket is fire-and-forget, so its state is the list of what was
    emitted, oldest first.

    [ControlSwitch] is what the page script relies on when it drives a
    controller from "info" messages: an on/off switch whose two operations
    are idempotent. *)

From stdpp Require Import strings.
From S2P Require Import Prelude JsCore.

#[local] Open Scope Z_scope.

(** ** Outbound events *)

Inductive emit : Type :=
  | EmitMouseMove (x y : jsnum)
  | EmitMouseDown (button : Z)
  | EmitMouseUp (button : Z)
  | EmitScroll (up : bool)
  | EmitKeyDown (keysym : Z)
  | EmitKeyUp (keysym : Z)
  | EmitType (text : string)
  | EmitToggleControls.

#[export] Instance emit_eq_dec : EqDecision emit.
Proof. solve_decision. Defined.

(** Pointer motion is the one kind of event that is sampled; all others
    are discrete. *)
Definition is_motion (e : emit) : bool :=
  match e with
  | EmitMouseMove _ _ => true
  | _ => false
  end.

(** The discrete events of a log, in order. *)
Definition discrete (log : list emit) : list emit :=
  filter (λ e, is_motion e = false) log.

Section discrete.
Implicit Types (e : emit) (log : list emit).

Lemma discrete_app log1 log2 :
  discrete (log1 ++ log2) = discrete log1 ++ discrete log2.
Proof. apply filter_app. Qed.

Lemma discrete_cons e log :
  discrete (e :: log) = if is_motion e then discrete log else e :: discrete log.
Proof. unfold discrete. rewrite filter_cons. by destruct (is_motion e). Qed.

Lemma discrete_all log :
  Forall (λ e, is_motion e = false) log → discrete log = log.
Proof.
  induction 1 as [|e log He _ IH]; [done|]. by rewrite discrete_cons, He, IH.
Qed.

Lemma countb_motion_discrete log : countb is_motion (discrete log) = 0%nat.
Proof.
  induction log as [|e log IH]; [done|]. rewrite discrete_cons.
  destruct (is_motion e) eqn:He; [done|]. by rewrite countb_cons, He.
Qed.

End discrete.

#[export] Hint Rewrite discrete_app discrete_cons : relay_rw.

(** ** What the page script assumes of a controller *)

Class ControlSwitch (C : Type) := {
  switch_on : C → C;
  switch_off : C → C;
  is_on : C → bool;
  switch_on_on c : is_on (switch_on c) = true;
  switch_off_off c : is_on (switch_off c) = false;
  switch_on_noop c : is_on c = true → switch_on c = c;
  switch_off_noop c : is_on c = false → switch_off c = c;
}.

Section switch.
Context `{ControlSwitch C}.
Implicit Types c : C.

Lemma switch_on_idemp c : switch_on (switch_on c) = switch_on c.
Proof. apply switch_on_noop, switch_on_on. Qed.

Lemma switch_off_idemp c : switch_off (switch_off c) = switch_off c.
Proof. apply switch_off_noop, switch_off_off. Qed.

(** Setting the switch to a position. *)
Definition switch_to (b : bool) c : C := if b then switch_on c else switch_off c.

Lemma switch_to_is_on b c : is_on (switch_to b c) = b.
Proof. destruct b; [apply switch_on_on|apply switch_off_off]. Qed.

Lemma switch_to_noop c : switch_to (is_on c) c = c.
Proof.
  unfold switch_to. destruct (is_on c) eqn:Hc;
    [by apply switch_on_noop|by apply switch_off_noop].
Qed.

Lemma switch_to_idemp b c : switch_to b (switch_to b c) = switch_to b c.
Proof. destruct b; [apply switch_on_idemp|apply switch_off_idemp]. Qed.

End switch.
