(* ===== verification/InputController.v ===== *)
(** * InputController: the input relay (class StreamInputController)

    [controller] holds the fields of the object (index.js 3-21); [world]
    adds the browser objects the controller holds references to and that
    its methods change: the socket (as the log of emitted events), the
    listener registry of the stream element, the two handler slots of the
    Guacamole keyboard, the window's interval timers and the clipboard's
    pending reads.

    The methods and callbacks of the class are the definitions [mousemove],
    [mousedown], [mouseup], [wheel], [interval_callback], [start], [stop],
    [onkeydown], [paste_then] and [onkeyup].  [dispatch] is the browser:
    it delivers one event to the callback registered for it, if any.
    [emitted es w] is what the run [es] added to the socket; [output] and
    [outputs] compute it event by event.

    Theorems, in the order of the file: effect of each handler on the
    socket; the wiring invariant [wired] and its preservation; idempotence
    of [start] and [stop]; coalescing and rate bound of pointer motion;
    order and completeness of discrete events; paste interception; silence
    after [stop]; the behaviours the code leaves open (a read resolved
    after [stop], a position left pending across [stop]). *)

From stdpp Require Import gmap strings finite.
From Stdlib Require Import QArith.
From S2P Require Import Prelude JsCore Channel.

Close Scope Q_scope.
#[local] Open Scope Z_scope.
#[local] Set Warnings "-clear-no-such-hyp".

(** ** Data *)

(** The four DOM listeners [start] registers on the stream element.  The
    registry of an element holds a callback at most once, and the class
    keeps one callback per event type, so the registry is a set. *)
Inductive listener : Type := OnMouseMove | OnMouseDown | OnMouseUp | OnWheel.

#[export] Instance listener_eq_dec : EqDecision listener.
Proof. solve_decision. Defined.

#[export] Instance listener_finite : Finite listener.
Proof.
  refine {| enum := [OnMouseMove; OnMouseDown; OnMouseUp; OnWheel] |}.
  - apply NoDup_ListNoDup. repeat constructor; cbn; intuition discriminate.
  - intros []; repeat first [apply list_elem_of_here | apply list_elem_of_further].
Defined.

(** What a [readText()] promise is awaited for: nothing (the permission
    probe of [start]) or the paste continuation of [onkeydown]. *)
Inductive read_kind : Type := ReadProbe | ReadPaste.

#[export] Instance read_kind_eq_dec : EqDecision read_kind.
Proof. solve_decision. Defined.

Record read : Type := Read {
  read_for : read_kind;
  read_settled : bool;
}.

#[export] Instance read_eq_dec : EqDecision read.
Proof. solve_decision. Defined.

(** The fields of a StreamInputController. *)
Record controller : Type := Controller {
  intervals : list nat;
  keysDown : gmap Z bool;
  active : bool;
  mouseMovePacket : option (jsnum * jsnum);
}.

(** The controller together with the browser objects it acts on. *)
Record world : Type := World {
  this : controller;
  socket : list emit;
  streamEl : gset listener;
  has_onkeydown : bool;
  has_onkeyup : bool;
  timers : gset nat;
  next_timer : nat;
  clipboard : bool;
  reads : list read;
}.

(** ** Field updates *)

Definition set_intervals (l : list nat) (c : controller) : controller :=
  Controller l (keysDown c) (active c) (mouseMovePacket c).
Definition set_keysDown (m : gmap Z bool) (c : controller) : controller :=
  Controller (intervals c) m (active c) (mouseMovePacket c).
Definition set_active (b : bool) (c : controller) : controller :=
  Controller (intervals c) (keysDown c) b (mouseMovePacket c).
Definition set_mouseMovePacket (p : option (jsnum * jsnum)) (c : controller)
    : controller :=
  Controller (intervals c) (keysDown c) (active c) p.

Definition on_this (f : controller → controller) (w : world) : world :=
  World (f (this w)) (socket w) (streamEl w) (has_onkeydown w) (has_onkeyup w)
        (timers w) (next_timer w) (clipboard w) (reads w).
Definition set_socket (l : list emit) (w : world) : world :=
  World (this w) l (streamEl w) (has_onkeydown w) (has_onkeyup w)
        (timers w) (next_timer w) (clipboard w) (reads w).
Definition set_streamEl (s : gset listener) (w : world) : world :=
  World (this w) (socket w) s (has_onkeydown w) (has_onkeyup w)
        (timers w) (next_timer w) (clipboard w) (reads w).
Definition set_onkeydown (b : bool) (w : world) : world :=
  World (this w) (socket w) (streamEl w) b (has_onkeyup w)
        (timers w) (next_timer w) (clipboard w) (reads w).
Definition set_onkeyup (b : bool) (w : world) : world :=
  World (this w) (socket w) (streamEl w) (has_onkeydown w) b
        (timers w) (next_timer w) (clipboard w) (reads w).
Definition set_timers (s : gset nat) (n : nat) (w : world) : world :=
  World (this w) (socket w) (streamEl w) (has_onkeydown w) (has_onkeyup w)
        s n (clipboard w) (reads w).
Definition set_reads (l : list read) (w : world) : world :=
  World (this w) (socket w) (streamEl w) (has_onkeydown w) (has_onkeyup w)
        (timers w) (next_timer w) (clipboard w) l.

(** ** Browser primitives *)

(** [socket.emit(name, payload)] *)
Definition socket_emit (e : emit) (w : world) : world :=
  set_socket (socket w ++ [e]) w.

(** [streamEl.addEventListener(type, callback)] *)
Definition addEventListener (l : listener) (w : world) : world :=
  set_streamEl ({[l]} ∪ streamEl w) w.

(** [streamEl.removeEventListener(type, callback)] *)
Definition removeEventListener (l : listener) (w : world) : world :=
  set_streamEl (streamEl w ∖ {[l]}) w.

(** [setInterval(callback, period)]: the new timer gets the next unused
    identifier, which the caller reads as [next_timer] before the call. *)
Definition setInterval (w : world) : world :=
  set_timers ({[next_timer w]} ∪ timers w) (S (next_timer w)) w.

(** [clearInterval(id)] *)
Definition clearInterval (tid : nat) (w : world) : world :=
  set_timers (timers w ∖ {[tid]}) (next_timer w) w.

(** [navigator.clipboard.readText()]: a new pending promise. *)
Definition readText (k : read_kind) (w : world) : world :=
  set_reads (reads w ++ [Read k false]) w.

(** A promise settles once. *)
Definition settle (i : nat) (w : world) : world :=
  set_reads (alter (λ r, Read (read_for r) true) i (reads w)) w.

(** Unfold the updates and primitives down to record literals. *)
Ltac world_simpl :=
  unfold socket_emit, addEventListener, removeEventListener, setInterval,
    clearInterval, readText, settle, on_this, set_socket, set_streamEl,
    set_onkeydown, set_onkeyup, set_timers, set_reads, set_intervals,
    set_keysDown, set_active, set_mouseMovePacket in *;
  cbn [this socket streamEl has_onkeydown has_onkeyup timers next_timer
       clipboard reads intervals keysDown active mouseMovePacket] in *.

(** ** The controller *)

(** The object after its constructor ran (index.js 3-21), in a browser
    whose clipboard API is present or not. *)
Definition new_controller (clipboard_api : bool) : world :=
  World (Controller [] ∅ false None) [] ∅ false false ∅ 0%nat clipboard_api [].

(** index.js 23-28 *)
Definition mousemove (layerX layerY clientWidth clientHeight : Z) (w : world)
    : world :=
  let x := js_div layerX clientWidth in
  let y := js_div layerY clientHeight in
  w |> on_this (set_mouseMovePacket (Some (x, y))).

(** index.js 30-34 *)
Definition mousedown (button : Z) (w : world) : world :=
  w |> socket_emit (EmitMouseDown button).

(** index.js 36-39 *)
Definition mouseup (button : Z) (w : world) : world :=
  w |> socket_emit (EmitMouseUp button).

(** index.js 41-45 *)
Definition wheel (deltaY : Q) (w : world) : world :=
  let up := js_negative deltaY in
  w |> socket_emit (EmitScroll up).

(** The callback of the 30 Hz timer, index.js 52-56. *)
Definition interval_callback (w : world) : world :=
  match mouseMovePacket (this w) with
  | None => w
  | Some (x, y) =>
      w |> socket_emit (EmitMouseMove x y)
        |> on_this (set_mouseMovePacket None)
  end.

(** The test of [onkeydown] for the paste shortcut, index.js 70-73:
    Control (keysym 65507) is recorded as held and the key is v or V. *)
Definition paste_shortcut (held : gmap Z bool) (keysym : Z) : bool :=
  bool_decide (held !! 65507 = Some true)
  && (bool_decide (keysym = 118) || bool_decide (keysym = 86)).

(** The key-down callback installed by [start], index.js 67-85. *)
Definition onkeydown (keysym : Z) (w : world) : world :=
  let w := w |> on_this (set_keysDown (<[keysym := true]> (keysDown (this w)))) in
  if paste_shortcut (keysDown (this w)) keysym
  then
    if clipboard w then w |> readText ReadPaste else w
  else
    w |> socket_emit (EmitKeyDown keysym).

(** The [then] continuation of the paste read, index.js 77-80. *)
Definition paste_then (text : string) (w : world) : world :=
  w |> socket_emit (EmitKeyUp 65507)
    |> socket_emit (EmitType text).

(** The key-up callback installed by [start], index.js 86-89. *)
Definition onkeyup (keysym : Z) (w : world) : world :=
  w |> on_this (set_keysDown (delete keysym (keysDown (this w))))
    |> socket_emit (EmitKeyUp keysym).

(** index.js 47-90 *)
Definition start (w : world) : world :=
  if active (this w) then w else
  w |> on_this (set_active true)
    |> (λ w, w |> setInterval
               |> on_this (set_intervals (intervals (this w) ++ [next_timer w])))
    |> addEventListener OnMouseMove
    |> addEventListener OnMouseDown
    |> addEventListener OnMouseUp
    |> addEventListener OnWheel
    |> (λ w, if clipboard w then w |> readText ReadProbe else w)
    |> set_onkeydown true
    |> set_onkeyup true.

(** The loop over [this.intervals] in [stop], index.js 96-98. *)
Definition clearIntervals (l : list nat) (w : world) : world :=
  foldl (λ w tid, clearInterval tid w) w l.

(** index.js 92-109 *)
Definition stop (w : world) : world :=
  if negb (active (this w)) then w else
  w |> on_this (set_active false)
    |> (λ w, clearIntervals (intervals (this w)) w)
    |> removeEventListener OnMouseMove
    |> removeEventListener OnMouseDown
    |> removeEventListener OnMouseUp
    |> removeEventListener OnWheel
    |> set_onkeydown false
    |> set_onkeyup false
    |> on_this (set_keysDown ∅).

(** ** The browser delivering events *)

Inductive event : Type :=
  | MouseMove (layerX layerY clientWidth clientHeight : Z)
  | MouseDown (button : Z)
  | MouseUp (button : Z)
  | Wheel (deltaY : Q)
  | TimerFires (tid : nat)
  | KeyPressed (keysym : Z)
  | KeyReleased (keysym : Z)
  | ReadResolves (i : nat) (text : string)
  | ReadRejects (i : nat)
  | Start
  | Stop.

(** One turn of the event loop.  An event reaches a callback only while
    that callback is registered: a listener on the element, a live timer, a
    non-null handler slot, a promise that has not settled.  The paste
    read's [catch] swallows a rejection (index.js 81). *)
Definition dispatch (e : event) (w : world) : world :=
  match e with
  | MouseMove lx ly cw ch =>
      if decide (OnMouseMove ∈ streamEl w) then mousemove lx ly cw ch w else w
  | MouseDown b =>
      if decide (OnMouseDown ∈ streamEl w) then mousedown b w else w
  | MouseUp b =>
      if decide (OnMouseUp ∈ streamEl w) then mouseup b w else w
  | Wheel dy =>
      if decide (OnWheel ∈ streamEl w) then wheel dy w else w
  | TimerFires tid =>
      if decide (tid ∈ timers w) then interval_callback w else w
  | KeyPressed k => if has_onkeydown w then onkeydown k w else w
  | KeyReleased k => if has_onkeyup w then onkeyup k w else w
  | ReadResolves i text =>
      match reads w !! i with
      | Some (Read ReadPaste false) => w |> settle i |> paste_then text
      | Some (Read ReadProbe false) => w |> settle i
      | _ => w
      end
  | ReadRejects i =>
      match reads w !! i with
      | Some (Read _ false) => w |> settle i
      | _ => w
      end
  | Start => start w
  | Stop => stop w
  end.

(** The world after a sequence of events. *)
Abbreviation play := (run dispatch).

(** What one turn of the event loop puts on the socket. *)
Definition output (e : event) (w : world) : list emit :=
  match e with
  | MouseDown b => if decide (OnMouseDown ∈ streamEl w) then [EmitMouseDown b] else []
  | MouseUp b => if decide (OnMouseUp ∈ streamEl w) then [EmitMouseUp b] else []
  | Wheel dy =>
      if decide (OnWheel ∈ streamEl w) then [EmitScroll (js_negative dy)] else []
  | TimerFires tid =>
      match mouseMovePacket (this w) with
      | Some (x, y) => if decide (tid ∈ timers w) then [EmitMouseMove x y] else []
      | None => []
      end
  | KeyPressed k =>
      if has_onkeydown w && negb (paste_shortcut (keysDown (this w)) k)
      then [EmitKeyDown k] else []
  | KeyReleased k => if has_onkeyup w then [EmitKeyUp k] else []
  | ReadResolves i text =>
      match reads w !! i with
      | Some (Read ReadPaste false) => [EmitKeyUp 65507; EmitType text]
      | _ => []
      end
  | MouseMove _ _ _ _ | ReadRejects _ | Start | Stop => []
  end.

(** The events a user's devices and the timer produce: everything but the
    calls of [start] and [stop] and the settling of promises. *)
Definition is_input (e : event) : bool :=
  match e with
  | MouseMove _ _ _ _ | MouseDown _ | MouseUp _ | Wheel _
  | TimerFires _ | KeyPressed _ | KeyReleased _ => true
  | _ => false
  end.

Definition is_tick (e : event) : bool :=
  match e with TimerFires _ => true | _ => false end.

Definition is_move (e : event) : bool :=
  match e with MouseMove _ _ _ _ => true | _ => false end.

(** The listeners [start] registers. *)
Definition all_listeners : gset listener :=
  {[OnMouseMove; OnMouseDown; OnMouseUp; OnWheel]}.

(** The timers the controller counts on: the one it created last, while
    it is active. *)
Definition own_timers (w : world) : gset nat :=
  if active (this w)
  then from_option singleton ∅ (last (intervals (this w)))
  else ∅.

(** The wiring invariant: listeners, handler slots and the timer are all
    in place exactly while [active] is set; timer identifiers the object
    remembers were all handed out already; an inactive controller holds no
    key. *)
Record wired (w : world) : Prop := Wired {
  wired_listeners :
    streamEl w = if active (this w) then all_listeners else ∅;
  wired_onkeydown : has_onkeydown w = active (this w);
  wired_onkeyup : has_onkeyup w = active (this w);
  wired_timers : timers w = own_timers w;
  wired_started : active (this w) = true → is_Some (last (intervals (this w)));
  wired_fresh : Forall (λ t, (t < next_timer w)%nat) (intervals (this w));
  wired_keys : active (this w) = false → keysDown (this w) = ∅;
}.

#[export] Instance wired_dec w : Decision (wired w).
Proof.
  refine (cast_if (decide (
    streamEl w = (if active (this w) then all_listeners else ∅) ∧
    has_onkeydown w = active (this w) ∧
    has_onkeyup w = active (this w) ∧
    timers w = own_timers w ∧
    (active (this w) = true → is_Some (last (intervals (this w)))) ∧
    Forall (λ t, (t < next_timer w)%nat) (intervals (this w)) ∧
    (active (this w) = false → keysDown (this w) = ∅))));
  [by destruct_and!; constructor|intros []; tauto].
Defined.

(** What a run puts on the socket: the outputs of its turns, in order. *)
Fixpoint outputs (es : list event) (w : world) : list emit :=
  match es with
  | [] => []
  | e :: es => output e w ++ outputs es (dispatch e w)
  end.

(** What a run added to the socket. *)
Definition emitted (es : list event) (w : world) : list emit :=
  drop (length (socket w)) (socket (run dispatch es w)).

(** ** The socket *)

Section socket.
Implicit Types (w : world) (e : event) (es : list event).

(** Recording the pressed key first does not change the outcome of the
    test: the keys it accepts are not Control. *)
Lemma paste_shortcut_insert held k :
  paste_shortcut (<[k:=true]> held) k = paste_shortcut held k.
Proof.
  unfold paste_shortcut. destruct (decide (k = 65507)) as [->|Hk].
  - rewrite !(bool_decide_eq_false_2 (65507 = _)) by done.
    by rewrite !andb_false_r.
  - by rewrite lookup_insert_ne.
Qed.

Lemma clearIntervals_timers l w :
  clearIntervals l w = set_timers (timers w ∖ list_to_set l) (next_timer w) w.
Proof.
  unfold clearIntervals. revert w.
  induction l as [|t l IH]; intros [c so el hd hu tm nt cb rd]; simpl.
  - unfold set_timers; simpl. f_equal. set_solver.
  - rewrite IH. unfold set_timers, clearInterval; simpl. f_equal. set_solver.
Qed.

Lemma socket_start w : socket (start w) = socket w.
Proof. unfold start. by repeat case_match. Qed.

Lemma socket_stop w : socket (stop w) = socket w.
Proof.
  unfold stop. case_match; [done|]. by rewrite clearIntervals_timers.
Qed.

(** Every turn of the event loop appends [output] to the socket and
    changes nothing that was sent before. *)
Lemma dispatch_socket e w : socket (dispatch e w) = socket w ++ output e w.
Proof.
  destruct e; simpl;
    rewrite ?socket_start, ?socket_stop, ?app_nil_r; try done;
    unfold interval_callback, onkeydown; simpl;
    rewrite ?paste_shortcut_insert;
    repeat (case_match; simplify_eq/=); by rewrite ?app_nil_r, <-?app_assoc.
Qed.

Lemma play_socket es w : socket (play es w) = socket w ++ outputs es w.
Proof.
  revert w. induction es as [|e es IH]; intros w; simpl.
  - by rewrite run_nil, app_nil_r.
  - by rewrite run_cons, IH, dispatch_socket, app_assoc.
Qed.

Lemma emitted_outputs es w : emitted es w = outputs es w.
Proof. unfold emitted. by rewrite play_socket, drop_app_length. Qed.

Lemma outputs_app es1 es2 w :
  outputs (es1 ++ es2) w = outputs es1 w ++ outputs es2 (play es1 w).
Proof.
  revert w. induction es1 as [|e es1 IH]; intros w; simpl; [done|].
  by rewrite run_cons, IH, app_assoc.
Qed.

(** The socket is append-only: whatever the events and calls, what
    was emitted stays emitted, in the same order, and a run only adds to
    the end of it. *)
Theorem socket_append_only (es : list event) (w : world) : socket w `prefix_of` socket (play es w).
Proof. rewrite play_socket. by apply prefix_app_r. Qed.

End socket.

(** ** The wiring invariant *)

Section wired.
Implicit Types (w : world) (e : event) (es : list event).

Lemma new_controller_wired b : wired (new_controller b).
Proof. by constructor. Qed.

(** Updates of the socket, the pending position and the promises do not
    touch the wiring; neither does an update of the held keys while the
    controller is active. *)
Lemma wired_socket_emit em w : wired w → wired (socket_emit em w).
Proof. by intros []. Qed.

Lemma wired_mouseMovePacket p w :
  wired w → wired (on_this (set_mouseMovePacket p) w).
Proof. by intros []. Qed.

Lemma wired_reads l w : wired w → wired (set_reads l w).
Proof. by intros []. Qed.

Lemma wired_keysDown m w :
  wired w → active (this w) = true → wired (on_this (set_keysDown m) w).
Proof. intros [] Hac. constructor; simpl; try done. by rewrite Hac. Qed.

Lemma wired_active w : wired w → has_onkeydown w = true → active (this w) = true.
Proof. intros [] ?. congruence. Qed.

Lemma wired_active_up w : wired w → has_onkeyup w = true → active (this w) = true.
Proof. intros [] ?. congruence. Qed.

Lemma interval_callback_wired w : wired w → wired (interval_callback w).
Proof.
  intros Hw. unfold interval_callback. repeat case_match; [|done].
  by apply wired_mouseMovePacket, wired_socket_emit.
Qed.

Lemma onkeydown_wired k w :
  wired w → active (this w) = true → wired (onkeydown k w).
Proof.
  intros Hw Hac. unfold onkeydown.
  pose proof (wired_keysDown (<[k:=true]> (keysDown (this w))) w Hw Hac).
  repeat case_match; eauto using wired_reads, wired_socket_emit.
Qed.

Lemma onkeyup_wired k w :
  wired w → active (this w) = true → wired (onkeyup k w).
Proof. intros Hw Hac. by apply wired_socket_emit, wired_keysDown. Qed.

Lemma paste_then_wired text w : wired w → wired (paste_then text w).
Proof. intros Hw. by do 2 apply wired_socket_emit. Qed.

(** [start] wires an inactive controller. *)
Lemma start_wired w : wired w → wired (start w).
Proof.
  intros Hw. unfold start. destruct (active (this w)) eqn:Hac; [done|].
  destruct Hw as [Hl Hd Hu Ht _ Hf _]. unfold own_timers in Ht.
  destruct w as [[iv kd ac pk] so el hd hu tm nt [] rd]; simplify_eq/=.
  all: constructor; unfold own_timers; simpl; rewrite ?last_snoc; try done.
  all: try set_solver.
  all: rewrite Forall_app, Forall_singleton; split; [|lia].
  all: eapply Forall_impl; [done|]; simpl; lia.
Qed.

(** [stop] unwires an active one: the timer it clears is the live one. *)
Lemma stop_wired w : wired w → wired (stop w).
Proof.
  intros Hw. unfold stop. destruct (active (this w)) eqn:Hac; [|done]. simpl.
  rewrite clearIntervals_timers.
  destruct Hw as [Hl Hd Hu Ht Hs Hf _]. unfold own_timers in Ht.
  destruct (Hs Hac) as [t Hlast]. rewrite Hac, Hlast in Ht.
  apply last_Some in Hlast as [l' Hiv].
  destruct w as [[iv kd ac pk] so el hd hu tm nt cb rd]; simplify_eq/=.
  constructor; simpl; try done; set_solver.
Qed.

(** Every turn of the event loop keeps the wiring invariant. *)
Lemma dispatch_wired e w : wired w → wired (dispatch e w).
Proof.
  intros Hw. destruct e; simpl; repeat case_match; try done;
    eauto using wired_socket_emit, wired_mouseMovePacket, wired_reads,
      interval_callback_wired, onkeydown_wired, onkeyup_wired,
      paste_then_wired, start_wired, stop_wired, wired_active,
      wired_active_up.
Qed.

Lemma reachable_wired es b : wired (play es (new_controller b)).
Proof. apply run_invariant; [apply dispatch_wired|apply new_controller_wired]. Qed.

(** C1: the wiring invariant is kept by every sequence of events and
    calls: listeners, keyboard handlers and the timer are in place exactly
    while the controller is active, and an inactive controller holds no
    key. *)
Theorem play_wired (es : list event) (w : world) : wired w → wired (play es w).
Proof. apply run_invariant, dispatch_wired. Qed.

End wired.

#[export] Hint Resolve new_controller_wired dispatch_wired
  reachable_wired start_wired stop_wired : relay.

(** ** [start] and [stop] *)

Section start_stop.
Implicit Types (w : world) (e : event) (es : list event).

Lemma start_active w : active (this (start w)) = true.
Proof. unfold start. by repeat case_match. Qed.

Lemma stop_inactive w : active (this (stop w)) = false.
Proof.
  unfold stop. destruct (active (this w)) eqn:Hac; [|done].
  simpl. by rewrite clearIntervals_timers.
Qed.

Lemma start_noop w : active (this w) = true → start w = w.
Proof. intros Hac. unfold start. by rewrite Hac. Qed.

Lemma stop_noop w : active (this w) = false → stop w = w.
Proof. intros Hac. unfold stop. by rewrite Hac. Qed.

(** C31: A second [start] in a row changes nothing: no second timer, no
    second registration, no second clipboard probe. *)
Theorem start_idempotent (w : world) : start (start w) = start w.
Proof. apply start_noop, start_active. Qed.

(** A second [stop] in a row changes nothing. *)
Theorem stop_idempotent (w : world) : stop (stop w) = stop w.
Proof. apply stop_noop, stop_inactive. Qed.

(** What [start] does to an inactive controller, field by field: a new
    timer whose identifier is appended to [intervals], the four listeners,
    one clipboard probe if the API is there, the two keyboard handlers.
    The held keys and the pending position are left as they are. *)
Lemma start_effect w :
  active (this w) = false →
  start w = World (Controller (intervals (this w) ++ [next_timer w])
                              (keysDown (this w)) true
                              (mouseMovePacket (this w)))
                  (socket w)
                  ({[OnWheel]} ∪ ({[OnMouseUp]} ∪ ({[OnMouseDown]} ∪
                     ({[OnMouseMove]} ∪ streamEl w))))
                  true true
                  ({[next_timer w]} ∪ timers w) (S (next_timer w))
                  (clipboard w)
                  (if clipboard w then reads w ++ [Read ReadProbe false]
                   else reads w).
Proof.
  intros Hac. unfold start. rewrite Hac.
  by destruct w as [[iv kd ac pk] so el hd hu tm nt [] rd].
Qed.

(** What [stop] does to an active one.  The list of timer identifiers,
    the pending position and the pending reads are left as they are. *)
Lemma stop_effect w :
  active (this w) = true →
  stop w = World (Controller (intervals (this w)) ∅ false
                             (mouseMovePacket (this w)))
                 (socket w)
                 (streamEl w ∖ {[OnMouseMove]} ∖ {[OnMouseDown]}
                    ∖ {[OnMouseUp]} ∖ {[OnWheel]})
                 false false
                 (timers w ∖ list_to_set (intervals (this w)))
                 (next_timer w) (clipboard w) (reads w).
Proof.
  intros Hac. unfold stop. rewrite Hac. cbn [negb].
  rewrite clearIntervals_timers.
  by destruct w as [[iv kd ac pk] so el hd hu tm nt cb rd].
Qed.

(** The controller is an on/off switch in the sense of [Channel]. *)
#[export] Instance controller_switch : ControlSwitch world := {|
  switch_on := start;
  switch_off := stop;
  is_on w := active (this w);
  switch_on_on := start_active;
  switch_off_off := stop_inactive;
  switch_on_noop := start_noop;
  switch_off_noop := stop_noop;
|}.

(** The page never has two of the controller's timers live,
    whatever the order of calls and events. *)
Theorem at_most_one_timer (es : list event) (b : bool) :
  (size (timers (play es (new_controller b))) ≤ 1)%nat.
Proof.
  destruct (reachable_wired es b) as [_ _ _ -> _ _ _]. unfold own_timers.
  destruct (active _); [destruct (last _); cbn [from_option]|].
  - by rewrite size_singleton.
  - rewrite size_empty. lia.
  - rewrite size_empty. lia.
Qed.

End start_stop.

(** ** Pointer motion *)

Section motion.
Implicit Types (w : world) (e : event) (es ms : list event).

Lemma mousemove_overrides lx ly cw ch p w :
  mousemove lx ly cw ch (on_this (set_mouseMovePacket p) w)
  = mousemove lx ly cw ch w.
Proof. done. Qed.

Lemma dispatch_move lx ly cw ch w :
  OnMouseMove ∈ streamEl w →
  dispatch (MouseMove lx ly cw ch) w = mousemove lx ly cw ch w.
Proof. intros Hel. simpl. by rewrite decide_True. Qed.

Lemma dispatch_tick tid w :
  tid ∈ timers w → dispatch (TimerFires tid) w = interval_callback w.
Proof. intros Hel. simpl. by rewrite decide_True. Qed.

(** After any burst of moves, the next move leaves the world it would
    have left without the burst. *)
Lemma move_after_moves ms lx ly cw ch w :
  Forall (λ e, is_move e = true) ms → OnMouseMove ∈ streamEl w →
  dispatch (MouseMove lx ly cw ch) (play ms w) = mousemove lx ly cw ch w.
Proof.
  intros Hms. revert w. induction Hms as [|m ms Hm _ IH]; intros w Hel.
  - by rewrite run_nil, dispatch_move.
  - destruct m; try done. by rewrite run_cons, (dispatch_move _ _ _ _ w), IH.
Qed.

(** C2: coalescing.  However many moves arrive between two ticks of the
    timer, the tick relays the last position only, once, and empties the
    pending slot. *)
Theorem motion_coalesced (ms : list event) lx ly cw ch tid (w : world) :
  Forall (λ e, is_move e = true) ms →
  OnMouseMove ∈ streamEl w → tid ∈ timers w →
  play (ms ++ [MouseMove lx ly cw ch; TimerFires tid]) w
  = w |> socket_emit (EmitMouseMove (js_div lx cw) (js_div ly ch))
      |> on_this (set_mouseMovePacket None).
Proof.
  intros Hms Hel Htid.
  rewrite (run_app _ ms), run_cons, (move_after_moves ms) by done.
  by rewrite run_cons, run_nil, dispatch_tick.
Qed.

Lemma output_motion e w :
  (countb is_motion (output e w) ≤ if is_tick e then 1 else 0)%nat.
Proof.
  destruct e; simpl; repeat case_match; simplify_eq/=;
    rewrite ?countb_cons, ?countb_nil; simpl; lia.
Qed.

(** C22: rate bound.  A run relays at most one position per tick of the
    timer, however many moves it contains. *)
Theorem motion_rate_bound (es : list event) (w : world) :
  (countb is_motion (emitted es w) ≤ countb is_tick es)%nat.
Proof.
  rewrite emitted_outputs.
  revert w. induction es as [|e es IH]; intros w; simpl; [done|].
  rewrite countb_app, countb_cons.
  pose proof (output_motion e w). pose proof (IH (dispatch e w)). lia.
Qed.

End motion.

(** ** Discrete events *)

(** The command a button, wheel or key event is relayed as. *)
Definition relay_of (e : event) : option emit :=
  match e with
  | MouseDown b => Some (EmitMouseDown b)
  | MouseUp b => Some (EmitMouseUp b)
  | Wheel dy => Some (EmitScroll (js_negative dy))
  | KeyPressed k => Some (EmitKeyDown k)
  | KeyReleased k => Some (EmitKeyUp k)
  | _ => None
  end.

(** A press of v or V, the only events the paste test can intercept. *)
Definition is_paste_key (e : event) : bool :=
  match e with
  | KeyPressed k => bool_decide (k = 118) || bool_decide (k = 86)
  | _ => false
  end.

(** The promise an event settles, if it is the settling of one. *)
Definition settles (e : event) : option nat :=
  match e with
  | ReadResolves i _ | ReadRejects i => Some i
  | _ => None
  end.

Section discrete_events.
Implicit Types (w : world) (e : event) (es : list event).

Lemma wired_listening l w : wired w → active (this w) = true → l ∈ streamEl w.
Proof.
  intros [-> _ _ _ _ _ _] ->. unfold all_listeners. destruct l; set_solver.
Qed.

Lemma input_keeps_active e w :
  is_input e = true → active (this (dispatch e w)) = active (this w).
Proof.
  destruct e; try done; intros _; simpl;
    unfold interval_callback, onkeydown; by repeat case_match.
Qed.

Lemma paste_shortcut_key held k :
  paste_shortcut held k = true → is_paste_key (KeyPressed k) = true.
Proof. unfold paste_shortcut. by intros [_ ?]%andb_true_iff. Qed.

(** While the controller is active, an input event that is not a press of
    v or V is relayed as [relay_of] says, apart from motion. *)
Lemma output_discrete e w :
  wired w → active (this w) = true →
  is_input e = true → is_paste_key e = false →
  discrete (output e w) = option_list (relay_of e).
Proof.
  intros Hw Hac He Hp.
  pose proof (λ l, wired_listening l w Hw Hac) as Hl.
  destruct Hw as [_ Hd Hu _ _ _ _]. rewrite Hac in Hd, Hu.
  destruct e; try done; simpl in *; rewrite ?Hd, ?Hu, ?decide_True by done;
    try done.
  - by repeat case_match.
  - destruct (paste_shortcut _ _) eqn:Hps; [|done].
    apply paste_shortcut_key in Hps. simpl in Hps. congruence.
Qed.

(** C10: order and completeness of discrete events.  While the
    controller is active, button, wheel and key events (presses of v and V
    set aside) reach the socket one for one, in the order they occurred,
    whatever motion and timer ticks are interleaved with them. *)
Theorem discrete_in_order (es : list event) (w : world) :
  wired w → active (this w) = true →
  Forall (λ e, is_input e = true ∧ is_paste_key e = false) es →
  discrete (emitted es w) = omap relay_of es.
Proof.
  intros Hw Hac Hes. rewrite emitted_outputs. revert w Hw Hac.
  induction Hes as [|e es [He Hp] _ IH]; intros w Hw Hac; [done|]. simpl.
  rewrite discrete_app, output_discrete, IH by
    (auto with relay || by rewrite input_keeps_active).
  by destruct (relay_of e).
Qed.

End discrete_events.

(** ** Paste interception *)

Section paste.
Implicit Types (w : world) (e : event) (es : list event) (i : nat).

Lemma reads_start w :
  reads (start w) = reads w ++
    (if active (this w) then []
     else if clipboard w then [Read ReadProbe false] else []).
Proof.
  destruct (active (this w)) eqn:Hac; [by rewrite start_noop, app_nil_r|].
  rewrite start_effect by done. cbn [reads].
  destruct (clipboard w); by rewrite ?app_nil_r.
Qed.

Lemma reads_stop w : reads (stop w) = reads w.
Proof. unfold stop. case_match; [done|]. by rewrite clearIntervals_timers. Qed.

(** A turn of the event loop changes a promise only by settling it. *)
Lemma dispatch_read_stable e i r w :
  reads w !! i = Some r → settles e ≠ Some i →
  reads (dispatch e w) !! i = Some r.
Proof.
  intros Hi He. destruct e; simpl in *;
    rewrite ?reads_start, ?reads_stop;
    unfold interval_callback, onkeydown, paste_then;
    repeat case_match; world_simpl; try done;
    try (by apply lookup_app_l_Some).
  all: by rewrite list_lookup_alter_ne by congruence.
Qed.

Lemma play_read_stable es i r w :
  reads w !! i = Some r → Forall (λ e, settles e ≠ Some i) es →
  reads (play es w) !! i = Some r.
Proof.
  intros Hi Hes. revert w Hi. induction Hes as [|e es He _ IH]; intros w Hi;
    [done|]. rewrite run_cons. by apply IH, dispatch_read_stable.
Qed.

(** An intercepted press records the key, starts one clipboard read and
    emits nothing. *)
Lemma dispatch_paste k w :
  has_onkeydown w = true → clipboard w = true →
  paste_shortcut (keysDown (this w)) k = true →
  dispatch (KeyPressed k) w
  = w |> on_this (set_keysDown (<[k:=true]> (keysDown (this w))))
      |> readText ReadPaste.
Proof.
  intros Hd Hc Hp. cbn [dispatch]. rewrite Hd. unfold onkeydown.
  cbn [this keysDown on_this set_keysDown clipboard].
  by rewrite paste_shortcut_insert, Hp, Hc.
Qed.

(** The read it started stays pending until an event settles it. *)
Lemma pending_after_paste k es w :
  has_onkeydown w = true → clipboard w = true →
  paste_shortcut (keysDown (this w)) k = true →
  Forall (λ e, settles e ≠ Some (length (reads w))) es →
  reads (play (KeyPressed k :: es) w) !! length (reads w)
  = Some (Read ReadPaste false).
Proof.
  intros Hd Hc Hp Hes. rewrite run_cons, dispatch_paste by done.
  apply play_read_stable; [|done]. world_simpl.
  by rewrite lookup_app_r, Nat.sub_diag.
Qed.

Lemma output_resolve i text w :
  reads w !! i = Some (Read ReadPaste false) →
  output (ReadResolves i text) w = [EmitKeyUp 65507; EmitType text].
Proof. intros Hi. simpl. by rewrite Hi. Qed.

Lemma dispatch_reject i k w :
  reads w !! i = Some (Read k false) →
  dispatch (ReadRejects i) w = settle i w.
Proof. intros Hi. simpl. by rewrite Hi. Qed.

(** C3: paste, success.  With Control held and the clipboard API
    present, a press of v or V puts nothing on the socket; when its read
    resolves with [text], however many other events came in between, the
    socket receives the release of Control and then the text, and nothing
    else. *)
Theorem paste_success k text (es : list event) (w : world) :
  has_onkeydown w = true → clipboard w = true →
  paste_shortcut (keysDown (this w)) k = true →
  Forall (λ e, settles e ≠ Some (length (reads w))) es →
  socket (dispatch (KeyPressed k) w) = socket w ∧
  socket (play (KeyPressed k :: es ++ [ReadResolves (length (reads w)) text]) w)
  = socket (play (KeyPressed k :: es) w) ++ [EmitKeyUp 65507; EmitType text].
Proof.
  intros Hd Hc Hp Hes. split; [by rewrite dispatch_paste|].
  rewrite app_comm_cons, run_snoc, dispatch_socket.
  by rewrite output_resolve by by apply pending_after_paste.
Qed.

(** C19: paste, failure.  In the same situation, when the read is
    rejected the socket receives nothing for this press: neither the key
    nor any synthetic event, and a later resolution of the same promise
    is without effect. *)
Theorem paste_failure k text (es : list event) (w : world) :
  has_onkeydown w = true → clipboard w = true →
  paste_shortcut (keysDown (this w)) k = true →
  Forall (λ e, settles e ≠ Some (length (reads w))) es →
  socket (dispatch (KeyPressed k) w) = socket w ∧
  socket (play (KeyPressed k :: es ++
                  [ReadRejects (length (reads w));
                   ReadResolves (length (reads w)) text]) w)
  = socket (play (KeyPressed k :: es) w).
Proof.
  intros Hd Hc Hp Hes. split; [by rewrite dispatch_paste|].
  pose proof (pending_after_paste k es w Hd Hc Hp Hes) as Hpend.
  rewrite app_comm_cons, run_app.
  set (w' := play (KeyPressed k :: es) w) in *.
  rewrite !run_cons, run_nil.
  rewrite (dispatch_reject _ ReadPaste) by done.
  rewrite dispatch_socket. cbn [output]. world_simpl.
  by rewrite list_lookup_alter_eq, Hpend, app_nil_r.
Qed.

(** C34: paste, no clipboard.  Without the clipboard API the press is
    dropped: the key is recorded as held and nothing else happens. *)
Theorem paste_unavailable k (w : world) :
  has_onkeydown w = true → clipboard w = false →
  paste_shortcut (keysDown (this w)) k = true →
  dispatch (KeyPressed k) w
  = w |> on_this (set_keysDown (<[k:=true]> (keysDown (this w)))).
Proof.
  intros Hd Hc Hp. cbn [dispatch]. rewrite Hd. unfold onkeydown.
  cbn [this keysDown on_this set_keysDown clipboard].
  by rewrite paste_shortcut_insert, Hp, Hc.
Qed.

End paste.

(** ** After [stop] *)

Section stopped.
Implicit Types (w : world) (e : event) (es : list event) (i : nat).

(** An inactive controller is deaf to input: no listener, no timer and
    no keyboard handler is left to receive it. *)
Lemma inactive_ignores e w :
  wired w → active (this w) = false → is_input e = true → dispatch e w = w.
Proof.
  intros [Hl Hd Hu Ht _ _ _] Hac He. unfold own_timers in Ht.
  rewrite Hac in *. destruct e; try done; simpl;
    rewrite ?Hl, ?Ht, ?Hd, ?Hu; by rewrite ?decide_False by set_solver.
Qed.

(** C20: silence after [stop].  From any state the page can be in,
    once [stop] has run no pointer, wheel, key or timer event changes
    anything: nothing is relayed, and no key is held. *)
Theorem stop_silences (es : list event) (w : world) :
  wired w → Forall (λ e, is_input e = true) es →
  play (Stop :: es) w = stop w ∧ keysDown (this (stop w)) = ∅.
Proof.
  intros Hw Hes. rewrite run_cons. simpl.
  pose proof (stop_wired w Hw) as Hsw. pose proof (stop_inactive w) as Hin.
  split; [|by apply Hsw].
  apply run_fixed. eapply Forall_impl; [done|]. intros e He.
  by apply inactive_ignores.
Qed.

(** C38: a clipboard read that is pending when [stop] runs is not
    cancelled: if it resolves afterwards, the release of Control and the
    text are emitted although the controller is inactive. *)
Theorem late_paste_after_stop i text (w : world) :
  reads w !! i = Some (Read ReadPaste false) →
  socket (play [Stop; ReadResolves i text] w)
  = socket w ++ [EmitKeyUp 65507; EmitType text] ∧
  active (this (play [Stop; ReadResolves i text] w)) = false.
Proof.
  intros Hi. rewrite !run_cons, run_nil.
  change (dispatch Stop w) with (stop w). split.
  - by rewrite dispatch_socket, output_resolve, socket_stop
      by by rewrite reads_stop.
  - cbn [dispatch]. rewrite reads_stop, Hi. apply stop_inactive.
Qed.

(** C39: a position that is pending when [stop] runs is kept, and is
    relayed by the first tick after the next [start]. *)
Theorem stale_position_after_restart x y (w : world) :
  wired w → active (this w) = true →
  mouseMovePacket (this w) = Some (x, y) →
  socket (play [Stop; Start; TimerFires (next_timer w)] w)
  = socket w ++ [EmitMouseMove x y].
Proof.
  intros Hw Hac Hp. rewrite !run_cons, run_nil, dispatch_socket. simpl.
  rewrite socket_start, socket_stop.
  rewrite (start_effect (stop w)) by apply stop_inactive.
  rewrite (stop_effect w Hac).
  cbn [this timers next_timer mouseMovePacket]. rewrite Hp.
  by rewrite decide_True by set_solver.
Qed.

End stopped.

(** ** Range of the relayed positions *)

Section range.
Implicit Types (w : world).

(** C35: the position stored by [mousemove] for an element of positive
    size lies in the unit square exactly when the pointer offsets lie
    within the element's client box; the handler does not clamp. *)
Theorem mousemove_normalized lx ly cw ch (w : world) :
  0 < cw → 0 < ch →
  ∃ x y, mouseMovePacket (this (mousemove lx ly cw ch w)) = Some (x, y) ∧
         (in_unit x ∧ in_unit y ↔ 0 ≤ lx ≤ cw ∧ 0 ≤ ly ≤ ch).
Proof.
  intros Hcw Hch. eexists _, _. split; [done|].
  by rewrite !js_div_in_unit_pos.
Qed.

End range.

(** ** Concrete runs *)

(** A controller started in a browser that has the clipboard API, and the
    same with Control held down. *)
Definition running : world := play [Start] (new_controller true).
Definition ctrl_held : world := play [KeyPressed 65507] running.

Lemma play_wired_witness :
  wired (new_controller true) ∧
  wired (play [Start; MouseMove 3 4 10 10; KeyPressed 65; Stop]
              (new_controller true)).
Proof. split; [by_compute|]. apply play_wired. by_compute. Defined.

Lemma motion_coalesced_witness :
  Forall (λ e, is_move e = true) [MouseMove 1 1 4 4; MouseMove 2 2 4 4] ∧
  OnMouseMove ∈ streamEl running ∧ 0%nat ∈ timers running ∧
  play ([MouseMove 1 1 4 4; MouseMove 2 2 4 4]
          ++ [MouseMove 3 1 4 2; TimerFires 0]) running
  = running |> socket_emit (EmitMouseMove (js_div 3 4) (js_div 1 2))
            |> on_this (set_mouseMovePacket None).
Proof. split_and!; [by_compute..|]. apply motion_coalesced; by_compute. Defined.

Lemma discrete_in_order_witness :
  wired ctrl_held ∧ active (this ctrl_held) = true ∧
  discrete (emitted [MouseDown 0; MouseMove 1 1 2 2; KeyPressed 99;
                     TimerFires 0; Wheel (-3); KeyReleased 99; MouseUp 0]
                    ctrl_held)
  = [EmitMouseDown 0; EmitKeyDown 99; EmitScroll true; EmitKeyUp 99;
     EmitMouseUp 0].
Proof.
  split_and!; [by_compute|done|].
  by rewrite (discrete_in_order _ ctrl_held);
    [|by_compute|done|repeat constructor].
Defined.

Lemma paste_success_witness :
  has_onkeydown ctrl_held = true ∧ clipboard ctrl_held = true ∧
  paste_shortcut (keysDown (this ctrl_held)) 118 = true ∧
  socket (dispatch (KeyPressed 118) ctrl_held) = socket ctrl_held ∧
  socket (play (KeyPressed 118 :: [MouseDown 0; ReadRejects 0]
                  ++ [ReadResolves (length (reads ctrl_held)) "hello"])
               ctrl_held)
  = socket (play (KeyPressed 118 :: [MouseDown 0; ReadRejects 0]) ctrl_held)
    ++ [EmitKeyUp 65507; EmitType "hello"].
Proof.
  split_and!; [done..| |];
    apply (paste_success 118 "hello" [MouseDown 0; ReadRejects 0] ctrl_held);
    done || by_compute.
Defined.

Lemma paste_failure_witness :
  has_onkeydown ctrl_held = true ∧ clipboard ctrl_held = true ∧
  paste_shortcut (keysDown (this ctrl_held)) 86 = true ∧
  socket (play (KeyPressed 86 :: [] ++
                  [ReadRejects (length (reads ctrl_held));
                   ReadResolves (length (reads ctrl_held)) "late"]) ctrl_held)
  = socket (play (KeyPressed 86 :: []) ctrl_held).
Proof.
  split_and!; [done..|].
  apply (paste_failure 86 "late" [] ctrl_held); done || by_compute.
Defined.

Lemma paste_unavailable_witness :
  let w := play [Start; KeyPressed 65507] (new_controller false) in
  has_onkeydown w = true ∧ clipboard w = false ∧
  paste_shortcut (keysDown (this w)) 118 = true ∧
  dispatch (KeyPressed 118) w
  = w |> on_this (set_keysDown (<[118:=true]> (keysDown (this w)))).
Proof. split_and!; [done..|]. by apply paste_unavailable. Defined.

Lemma stop_silences_witness :
  wired ctrl_held ∧
  play (Stop :: [MouseDown 0; KeyPressed 118; TimerFires 0; MouseMove 1 1 2 2])
       ctrl_held
  = stop ctrl_held ∧
  keysDown (this (stop ctrl_held)) = ∅.
Proof.
  split; [by_compute|].
  apply stop_silences; [by_compute|by repeat constructor].
Defined.

Lemma late_paste_after_stop_witness :
  let w := dispatch (KeyPressed 118) ctrl_held in
  reads w !! 1%nat = Some (Read ReadPaste false) ∧
  socket (play [Stop; ReadResolves 1 "secret"] w)
  = socket w ++ [EmitKeyUp 65507; EmitType "secret"] ∧
  active (this (play [Stop; ReadResolves 1 "secret"] w)) = false.
Proof. split; [done|]. by apply late_paste_after_stop. Defined.

Lemma stale_position_after_restart_witness :
  let w := dispatch (MouseMove 1 3 4 4) running in
  wired w ∧ active (this w) = true ∧
  mouseMovePacket (this w) = Some (js_div 1 4, js_div 3 4) ∧
  socket (play [Stop; Start; TimerFires (next_timer w)] w)
  = socket w ++ [EmitMouseMove (js_div 1 4) (js_div 3 4)].
Proof.
  split_and!; [by_compute|done..|].
  by apply stale_position_after_restart; [by_compute|..].
Defined.

Lemma mousemove_normalized_witness :
  0 < 100 ∧ 0 < 50 ∧
  ∃ x y, mouseMovePacket (this (mousemove 150 25 100 50 running)) = Some (x, y) ∧
         (in_unit x ∧ in_unit y ↔ 0 ≤ 150 ≤ 100 ∧ 0 ≤ 25 ≤ 50).
Proof. split_and!; [lia..|]. apply mousemove_normalized; lia. Defined.
