(* ===== verification/RelaySpec.v ===== *)
(** * RelaySpec: what the input relay promises, and that the controller
      keeps the promise

    [relay] is the state the specification of the controller speaks of:
    whether it is on, the one pending pointer position, the set of held
    keys, the periodic timer, and the clipboard reads in flight.  The DOM
    listener registry, the two handler slots of the keyboard decoder, the
    set of live timers, the list [this.intervals] and the socket log are
    gone: in a [wired] world they are functions of [on].

    [rstep] and [remit] say, event by event, how that state changes and
    what is sent.  [abs] maps a world of [InputController] to the relay it
    implements, and the refinement theorems state that, from a wired
    world, [dispatch] and [output] are [rstep] and [remit] seen through
    [abs].  Properties proved of the relay alone then hold of the
    controller. *)

From stdpp Require Import gmap strings.
From Stdlib Require Import QArith.
From S2P Require Import Prelude JsCore Channel InputController.

Close Scope Q_scope.
#[local] Open Scope Z_scope.
#[local] Set Warnings "-clear-no-such-hyp".

(** ** The abstract relay *)

Record relay : Type := Relay {
  on : bool;
  pending : option (jsnum * jsnum);
  held : gset Z;
  ticker : option nat;
  fresh : nat;
  clip : bool;
  promises : list read;
}.

(** Control is held and the key is v or V. *)
Definition chord (held : gset Z) (k : Z) : bool :=
  bool_decide (65507 ∈ held) && (bool_decide (k = 118) || bool_decide (k = 86)).

Definition settled (i : nat) (l : list read) : list read :=
  alter (λ r, Read (read_for r) true) i l.

(** The state after one event. *)
Definition rstep (e : event) (r : relay) : relay :=
  match e with
  | MouseMove lx ly cw ch =>
      if on r
      then Relay true (Some (js_div lx cw, js_div ly ch)) (held r) (ticker r)
                 (fresh r) (clip r) (promises r)
      else r
  | MouseDown _ | MouseUp _ | Wheel _ => r
  | TimerFires tid =>
      if decide (ticker r = Some tid)
      then Relay (on r) None (held r) (ticker r) (fresh r) (clip r) (promises r)
      else r
  | KeyPressed k =>
      if on r
      then Relay true (pending r) ({[k]} ∪ held r) (ticker r) (fresh r) (clip r)
                 (if chord ({[k]} ∪ held r) k && clip r
                  then promises r ++ [Read ReadPaste false] else promises r)
      else r
  | KeyReleased k =>
      if on r
      then Relay true (pending r) (held r ∖ {[k]}) (ticker r) (fresh r) (clip r)
                 (promises r)
      else r
  | ReadResolves i _ | ReadRejects i =>
      match promises r !! i with
      | Some (Read _ false) =>
          Relay (on r) (pending r) (held r) (ticker r) (fresh r) (clip r)
                (settled i (promises r))
      | _ => r
      end
  | Start =>
      if on r then r
      else Relay true (pending r) (held r) (Some (fresh r)) (S (fresh r)) (clip r)
                 (if clip r then promises r ++ [Read ReadProbe false]
                  else promises r)
  | Stop =>
      if on r
      then Relay false (pending r) ∅ None (fresh r) (clip r) (promises r)
      else r
  end.

(** What one event sends. *)
Definition remit (e : event) (r : relay) : list emit :=
  match e with
  | MouseDown b => if on r then [EmitMouseDown b] else []
  | MouseUp b => if on r then [EmitMouseUp b] else []
  | Wheel dy => if on r then [EmitScroll (js_negative dy)] else []
  | TimerFires tid =>
      match pending r with
      | Some (x, y) => if decide (ticker r = Some tid) then [EmitMouseMove x y] else []
      | None => []
      end
  | KeyPressed k =>
      if on r && negb (chord ({[k]} ∪ held r) k) then [EmitKeyDown k] else []
  | KeyReleased k => if on r then [EmitKeyUp k] else []
  | ReadResolves i text =>
      match promises r !! i with
      | Some (Read ReadPaste false) => [EmitKeyUp 65507; EmitType text]
      | _ => []
      end
  | MouseMove _ _ _ _ | ReadRejects _ | Start | Stop => []
  end.

(** What a sequence of events sends. *)
Fixpoint rtrace (es : list event) (r : relay) : list emit :=
  match es with
  | [] => []
  | e :: es => remit e r ++ rtrace es (rstep e r)
  end.

(** The relay after a sequence of events. *)
Abbreviation rrun := (run rstep).

(** The relay is consistent: it has a timer exactly while it is on, the
    timer was handed out, and it holds no key while off. *)
Record relay_ok (r : relay) : Prop := RelayOk {
  ok_ticker : is_Some (ticker r) ↔ on r = true;
  ok_fresh : ∀ t, ticker r = Some t → (t < fresh r)%nat;
  ok_held : on r = false → held r = ∅;
}.

(** ** The relay a world implements *)

(** The keys recorded in [keysDown]. *)
Definition held_keys (m : gmap Z bool) : gset Z :=
  dom (filter (λ kv, kv.2 = true) m).

Definition abs (w : world) : relay :=
  Relay (active (this w)) (mouseMovePacket (this w))
        (held_keys (keysDown (this w)))
        (if active (this w) then last (intervals (this w)) else None)
        (next_timer w) (clipboard w) (reads w).

(** ** Held keys *)

Section held.
Implicit Types (m : gmap Z bool) (k : Z).

Lemma elem_of_held_keys m k : k ∈ held_keys m ↔ m !! k = Some true.
Proof.
  unfold held_keys. rewrite elem_of_dom. split.
  - intros [b [Hk Hb]%map_lookup_filter_Some]. by simplify_eq/=.
  - intros Hk. exists true. by apply map_lookup_filter_Some.
Qed.

Lemma held_keys_empty : held_keys ∅ = ∅.
Proof. unfold held_keys. by rewrite map_filter_empty, dom_empty_L. Qed.

Lemma held_keys_insert m k : held_keys (<[k:=true]> m) = {[k]} ∪ held_keys m.
Proof.
  unfold held_keys. by rewrite map_filter_insert_True, dom_insert_L.
Qed.

Lemma held_keys_delete m k : held_keys (delete k m) = held_keys m ∖ {[k]}.
Proof. unfold held_keys. by rewrite map_filter_delete, dom_delete_L. Qed.

(** The test of [onkeydown] reads the held keys only. *)
Lemma paste_shortcut_chord m k : paste_shortcut m k = chord (held_keys m) k.
Proof.
  unfold paste_shortcut, chord. f_equal.
  apply bool_decide_ext. by rewrite elem_of_held_keys.
Qed.

Lemma chord_insert (s : gset Z) k : chord ({[k]} ∪ s) k = chord s k.
Proof.
  unfold chord. destruct (decide (k = 65507)) as [->|Hk].
  - by rewrite !andb_false_r.
  - f_equal. apply bool_decide_ext. set_solver.
Qed.

End held.

#[export] Hint Rewrite held_keys_empty held_keys_insert held_keys_delete : relay_rw.

(** ** Refinement, one event at a time *)

Section refinement.
Implicit Types (w : world) (r : relay) (e : event) (es : list event).

Lemma abs_ok w : wired w → relay_ok (abs w).
Proof.
  intros [_ _ _ _ Hst Hfr Hk]. split; cbn [abs on ticker fresh held].
  - destruct (active (this w)); [by split; auto|].
    split; [by intros []|done].
  - intros t Ht. destruct (active (this w)); [|done].
    apply last_Some in Ht as [l Ht]. rewrite Ht in Hfr.
    by apply Forall_app in Hfr as [_ [? _]%Forall_cons].
  - intros Hac. by rewrite Hk, held_keys_empty.
Qed.

(** In a wired world the live timers are the relay's ticker. *)
Lemma wired_ticker tid w :
  wired w → tid ∈ timers w ↔ ticker (abs w) = Some tid.
Proof.
  intros [_ _ _ -> Hst _ _]. unfold own_timers. cbn [abs ticker].
  destruct (active (this w)); [|set_solver].
  destruct Hst as [t ->]; [done|]. simpl. set_solver.
Qed.

Lemma wired_listener l w : wired w → l ∈ streamEl w ↔ on (abs w) = true.
Proof.
  intros Hw. cbn [abs on]. split; [|by apply wired_listening].
  destruct Hw as [-> _ _ _ _ _ _]. destruct (active (this w)); set_solver.
Qed.

End refinement.

Section simulation.
Implicit Types (w : world) (r : relay) (e : event) (es : list event).

(** Decide the guards of [dispatch] and [output] from [on]. *)
Ltac wired_guards Hw :=
  repeat match goal with
  | |- context [decide (?l ∈ streamEl ?w)] =>
      destruct (decide (l ∈ streamEl w)) as [?Hin%(wired_listener _ _ Hw)
                                            |?Hin%(not_iff_compat (wired_listener _ _ Hw))]
  | |- context [decide (?t ∈ timers ?w)] =>
      destruct (decide (t ∈ timers w)) as [?Hin%(wired_ticker _ _ Hw)
                                          |?Hin%(not_iff_compat (wired_ticker _ _ Hw))]
  end.

Ltac abs_simpl :=
  unfold abs, mousemove, mousedown, mouseup, wheel, interval_callback,
    onkeydown, onkeyup, paste_then in *;
  world_simpl; cbn [on pending held ticker fresh clip promises] in *.

Lemma abs_socket_emit x w : abs (socket_emit x w) = abs w.
Proof. done. Qed.

Lemma abs_settle i w :
  abs (settle i w)
  = Relay (on (abs w)) (pending (abs w)) (held (abs w)) (ticker (abs w))
          (fresh (abs w)) (clip (abs w)) (settled i (promises (abs w))).
Proof. done. Qed.

Lemma abs_mousemove lx ly cw ch w :
  abs (mousemove lx ly cw ch w)
  = Relay (on (abs w)) (Some (js_div lx cw, js_div ly ch)) (held (abs w))
          (ticker (abs w)) (fresh (abs w)) (clip (abs w)) (promises (abs w)).
Proof. done. Qed.

Lemma abs_interval_callback w :
  abs (interval_callback w)
  = Relay (on (abs w)) None (held (abs w)) (ticker (abs w)) (fresh (abs w))
          (clip (abs w)) (promises (abs w)).
Proof.
  unfold interval_callback.
  destruct (mouseMovePacket (this w)) as [[x y]|] eqn:Hp; [done|].
  unfold abs. by rewrite Hp.
Qed.

Lemma abs_onkeydown k w :
  abs (onkeydown k w)
  = Relay (on (abs w)) (pending (abs w)) ({[k]} ∪ held (abs w)) (ticker (abs w))
          (fresh (abs w)) (clip (abs w))
          (if chord ({[k]} ∪ held (abs w)) k && clip (abs w)
           then promises (abs w) ++ [Read ReadPaste false]
           else promises (abs w)).
Proof.
  unfold onkeydown. world_simpl.
  rewrite paste_shortcut_chord, held_keys_insert. unfold abs.
  destruct (chord _ k), (clipboard w);
    world_simpl; by rewrite held_keys_insert.
Qed.

Lemma abs_onkeyup k w :
  abs (onkeyup k w)
  = Relay (on (abs w)) (pending (abs w)) (held (abs w) ∖ {[k]}) (ticker (abs w))
          (fresh (abs w)) (clip (abs w)) (promises (abs w)).
Proof. unfold onkeyup, abs. world_simpl. by rewrite held_keys_delete. Qed.

Lemma abs_start w :
  active (this w) = false →
  abs (start w)
  = Relay true (pending (abs w)) (held (abs w)) (Some (fresh (abs w)))
          (S (fresh (abs w))) (clip (abs w))
          (if clip (abs w) then promises (abs w) ++ [Read ReadProbe false]
           else promises (abs w)).
Proof.
  intros Hac. rewrite start_effect by done. unfold abs.
  cbn [this active intervals]. by rewrite last_snoc.
Qed.

Lemma abs_stop w :
  active (this w) = true →
  abs (stop w)
  = Relay false (pending (abs w)) ∅ None (fresh (abs w)) (clip (abs w))
          (promises (abs w)).
Proof.
  intros Hac. rewrite stop_effect by done. unfold abs.
  cbn [this active keysDown]. by rewrite held_keys_empty.
Qed.

Lemma abs_paste_then text w : abs (paste_then text w) = abs w.
Proof. done. Qed.

Lemma abs_switch w :
  abs (start w) = rstep Start (abs w) ∧ abs (stop w) = rstep Stop (abs w).
Proof.
  cbn [rstep]. destruct (on (abs w)) eqn:Hon; cbn [abs on] in Hon.
  - by rewrite start_noop, abs_stop.
  - by rewrite stop_noop, abs_start.
Qed.

(** The state of the relay follows the world. *)
Lemma abs_dispatch e w : wired w → abs (dispatch e w) = rstep e (abs w).
Proof.
  intros Hw. pose proof Hw as [_ Hd Hu _ _ _ _].
  destruct e; try apply abs_switch;
    cbn [dispatch rstep]; wired_guards Hw; rewrite ?Hd, ?Hu;
    rewrite ?decide_True, ?decide_False by done;
    change (active (this w)) with (on (abs w));
    change (reads w) with (promises (abs w));
    destruct (on (abs w)) eqn:Hon;
    rewrite ?abs_mousemove, ?abs_interval_callback, ?abs_onkeydown,
      ?abs_onkeyup, ?Hon;
    try done; repeat case_match;
    rewrite ?abs_paste_then, ?abs_settle, ?Hon; congruence.
Qed.

(** What is sent is what the relay sends. *)
Lemma abs_output e w : wired w → output e w = remit e (abs w).
Proof.
  intros Hw. pose proof Hw as [_ Hd Hu _ _ _ _].
  destruct e; cbn [output remit]; try done; wired_guards Hw; rewrite ?Hd, ?Hu;
    rewrite ?paste_shortcut_chord, ?chord_insert;
    change (active (this w)) with (on (abs w));
    change (reads w) with (promises (abs w));
    change (mouseMovePacket (this w)) with (pending (abs w));
    change (held_keys (keysDown (this w))) with (held (abs w));
    repeat case_match; congruence.
Qed.

End simulation.

(** ** Refinement of runs *)

Section runs.
Implicit Types (w : world) (r : relay) (e : event) (es : list event).

Lemma rtrace_app es1 es2 r :
  rtrace (es1 ++ es2) r = rtrace es1 r ++ rtrace es2 (rrun es1 r).
Proof.
  revert r. induction es1 as [|e es1 IH]; intros r; [done|].
  cbn [rtrace app]. by rewrite run_cons, IH, app_assoc.
Qed.

Lemma abs_play es w : wired w → abs (play es w) = rrun es (abs w).
Proof.
  revert w. induction es as [|e es IH]; intros w Hw; [done|].
  by rewrite !run_cons, IH, abs_dispatch by auto with relay.
Qed.

Lemma abs_outputs es w : wired w → outputs es w = rtrace es (abs w).
Proof.
  revert w. induction es as [|e es IH]; intros w Hw; [done|].
  cbn [outputs rtrace].
  by rewrite IH, abs_output, abs_dispatch by auto with relay.
Qed.

Lemma play_socket_relay es w :
  wired w → socket (play es w) = socket w ++ rtrace es (abs w).
Proof. intros Hw. by rewrite play_socket, abs_outputs. Qed.

(** C7: refinement.  From a wired world, a run of the controller
    is a run of the relay: the world it ends in implements the relay the
    abstract run ends in, and the socket received what the relay sent. *)
Theorem controller_refines_relay (es : list event) (w : world) :
  wired w →
  abs (play es w) = rrun es (abs w) ∧
  socket (play es w) = socket w ++ rtrace es (abs w).
Proof.
  intros Hw. split; [by apply abs_play|by apply play_socket_relay].
Qed.

End runs.

(** ** Properties of the relay *)

Section relay.
Implicit Types (r : relay) (e : event) (es : list event) (k : Z).

(** The relay stays consistent. *)
Lemma rstep_ok e r : relay_ok r → relay_ok (rstep e r).
Proof.
  intros [Ht Hf Hh].
  destruct e; cbn [rstep]; repeat case_match; try done;
    split; cbn [on ticker fresh held]; try done;
    try (by split; [intros _|eauto]);
    try (by split; [intros []|]);
    naive_solver eauto with lia.
Qed.

(** While it is off the relay ignores its inputs and sends nothing. *)
Lemma relay_off_deaf e r :
  relay_ok r → on r = false → is_input e = true →
  rstep e r = r ∧ remit e r = [].
Proof.
  intros [Ht _ _] Hon He.
  assert (ticker r = None) as Htk.
  { destruct (ticker r) eqn:Htk; [|done].
    by rewrite (proj1 Ht) in Hon by done. }
  destruct e; try done; cbn [rstep remit]; rewrite ?Hon, ?Htk; try done.
  by destruct (pending r) as [[]|].
Qed.

(** The presence of the clipboard API does not change. *)
Lemma rstep_clip e r : clip (rstep e r) = clip r.
Proof. destruct e; cbn [rstep]; by repeat case_match. Qed.

Lemma rrun_clip es r : clip (rrun es r) = clip r.
Proof.
  revert r. induction es as [|e es IH]; intros r; [done|].
  by rewrite run_cons, IH, rstep_clip.
Qed.

(** A key-down is sent for a press only, while on, and never for the
    paste chord. *)
Lemma remit_keydown e r k :
  EmitKeyDown k ∈ remit e r →
  e = KeyPressed k ∧ on r = true ∧ chord (held r) k = false.
Proof.
  destruct e; cbn [remit]; repeat case_match; intros Hin;
    repeat (apply elem_of_cons in Hin as [Hin|Hin]);
    try (by apply elem_of_nil in Hin); simplify_eq.
  match goal with H : _ && _ = true |- _ => apply andb_prop in H as [? Hc] end.
  rewrite chord_insert in Hc. by destruct (chord _ _).
Qed.

(** In a run, every key-down that is sent answers a press made while
    the relay was on and the chord was not held. *)
Lemma rtrace_keydown es r k :
  EmitKeyDown k ∈ rtrace es r →
  ∃ es1 es2, es = es1 ++ KeyPressed k :: es2 ∧
             on (rrun es1 r) = true ∧ chord (held (rrun es1 r)) k = false.
Proof.
  revert r. induction es as [|e es IH]; intros r; cbn [rtrace]; [set_solver|].
  intros [He|Hes]%elem_of_app.
  - apply remit_keydown in He as (-> & ? & ?). by exists [], es.
  - destruct (IH _ Hes) as (es1 & es2 & -> & ? & ?).
    by exists (e :: es1), es2.
Qed.

(** Text is typed only for a paste read in flight. *)
Lemma remit_type e r text :
  EmitType text ∈ remit e r →
  ∃ i, e = ReadResolves i text ∧ promises r !! i = Some (Read ReadPaste false).
Proof.
  destruct e; cbn [remit]; repeat case_match; intros Hin;
    repeat (apply elem_of_cons in Hin as [Hin|Hin]);
    try (by apply elem_of_nil in Hin); simplify_eq. eauto.
Qed.

End relay.

(** ** Where typed text comes from *)

Section provenance.
Implicit Types (r : relay) (e : event) (es : list event) (k : Z) (i : nat).

(** A press that starts a paste read. *)
Definition starts_paste (e : event) (r : relay) : Prop :=
  ∃ k, e = KeyPressed k ∧ on r = true ∧ clip r = true ∧
       chord (held r) k = true.

(** A paste read in flight after an event was in flight before it, or
    the event is the press that started it. *)
Lemma rstep_paste_pending e r i :
  promises (rstep e r) !! i = Some (Read ReadPaste false) →
  promises r !! i = Some (Read ReadPaste false) ∨ starts_paste e r.
Proof.
  destruct e; cbn [rstep]; repeat case_match; cbn [promises]; auto;
    unfold settled;
    try (intros [?|[_ Hin]]%lookup_app_Some; [by left|]);
    try (destruct (decide (i = i0)) as [->|];
         [rewrite list_lookup_alter_eq|rewrite list_lookup_alter_ne by done];
         destruct (promises r !! i0); naive_solver).
  - right. exists keysym. rewrite chord_insert in *.
    split_and!; [done..| |]; by destruct (clip r), (chord (held r) keysym).
  - apply list_lookup_singleton_Some in Hin as [_ ?]. done.
Qed.

(** In a run, text is typed only for a read that was in flight at the
    start, or follows a press of the paste chord. *)
Lemma rtrace_type es r text :
  EmitType text ∈ rtrace es r →
  (∃ i, promises r !! i = Some (Read ReadPaste false)) ∨
  (∃ es1 e es2, es = es1 ++ e :: es2 ∧ starts_paste e (rrun es1 r)).
Proof.
  revert r. induction es as [|e es IH]; intros r; cbn [rtrace]; [set_solver|].
  intros [(i & _ & Hi)%remit_type|Hes]%elem_of_app; [by eauto|].
  destruct (IH _ Hes) as [[i [?|?]%rstep_paste_pending]
                         |(es1 & e' & es2 & -> & ?)]; [by eauto| |].
  - right. by exists [], e, es.
  - right. by exists (e :: es1), e', es2.
Qed.

End provenance.

(** ** The promises of the relay, kept by the controller *)

Section transfer.
Implicit Types (w : world) (e : event) (es : list event) (k : Z).

(** C23: the paste chord is never forwarded.  In any run from a
    wired world, every key-down on the socket answers a key press that
    reached the controller while it was on and that was not v or V with
    Control held. *)
Theorem paste_press_never_forwarded (es : list event) (w : world) k :
  wired w → EmitKeyDown k ∈ emitted es w →
  ∃ es1 es2, es = es1 ++ KeyPressed k :: es2 ∧
             on (abs (play es1 w)) = true ∧
             chord (held (abs (play es1 w))) k = false.
Proof.
  intros Hw. rewrite emitted_outputs, abs_outputs by done.
  intros (es1 & es2 & -> & Hon & Hc)%rtrace_keydown.
  exists es1, es2. by rewrite abs_play.
Qed.

(** Typed text is pasted text.  From a fresh controller, text
    is typed only after an event that starts a paste: a press of v or V
    with Control held, made while the controller was on and the clipboard
    API present. *)
Theorem typed_text_was_pasted (es : list event) (b : bool) text :
  EmitType text ∈ socket (play es (new_controller b)) →
  ∃ es1 e es2, es = es1 ++ e :: es2 ∧
               starts_paste e (abs (play es1 (new_controller b))).
Proof.
  pose proof (new_controller_wired b) as Hw.
  rewrite play_socket_relay, app_nil_l by done.
  intros [[i Hi]|(es1 & e & es2 & -> & Hs)]%rtrace_type; [done|].
  exists es1, e, es2. by rewrite abs_play.
Qed.

(** C33: The release of an intercepted key.  The press of v or V
    with Control held is not forwarded, but the release of the same key
    is: the socket receives a key-up for a key whose key-down it never
    saw. *)
Theorem intercepted_release_forwarded (w : world) k :
  wired w → on (abs w) = true → chord (held (abs w)) k = true →
  emitted [KeyPressed k; KeyReleased k] w = [EmitKeyUp k].
Proof.
  intros Hw Hon Hc. rewrite emitted_outputs, abs_outputs by done.
  cbn [rtrace rstep remit]. rewrite Hon. cbn [on].
  by rewrite chord_insert, Hc.
Qed.

End transfer.

(** ** The theorems at concrete worlds *)

Lemma controller_refines_relay_witness :
  let es := [MouseMove 3 4 10 10; KeyPressed 118; TimerFires 0; Stop;
             ReadResolves 1 "text"; Start; TimerFires 1] in
  wired ctrl_held ∧
  abs (play es ctrl_held) = rrun es (abs ctrl_held) ∧
  socket (play es ctrl_held) = socket ctrl_held ++ rtrace es (abs ctrl_held).
Proof.
  intros es. split; [by_compute|].
  apply controller_refines_relay. by_compute.
Defined.

Lemma paste_press_never_forwarded_witness :
  EmitKeyDown 97 ∈ emitted [MouseDown 0; KeyPressed 97] ctrl_held ∧
  ∃ es1 es2, [MouseDown 0; KeyPressed 97] = es1 ++ KeyPressed 97 :: es2 ∧
             on (abs (play es1 ctrl_held)) = true ∧
             chord (held (abs (play es1 ctrl_held))) 97 = false.
Proof.
  split; [by_compute|]. apply paste_press_never_forwarded; by_compute.
Defined.

Lemma typed_text_was_pasted_witness :
  let es := [Start; KeyPressed 65507; KeyPressed 118; ReadResolves 1 "hi"] in
  EmitType "hi" ∈ socket (play es (new_controller true)) ∧
  ∃ es1 e es2, es = es1 ++ e :: es2 ∧
               starts_paste e (abs (play es1 (new_controller true))).
Proof.
  intros es. split; [by_compute|].
  apply (typed_text_was_pasted es true "hi"). by_compute.
Defined.

Lemma intercepted_release_forwarded_witness :
  chord (held (abs ctrl_held)) 118 = true ∧
  emitted [KeyPressed 118; KeyReleased 118] ctrl_held = [EmitKeyUp 118].
Proof.
  split; [by_compute|].
  apply intercepted_release_forwarded; [by_compute|done|by_compute].
Defined.
