(* ===== verification/Page.v ===== *)
(** * Page: the page script around the controller

    The first part of the page script (index.js 254-377): the query
    parameters (split with the functions of [Text]) and what they select,
    [displayPlural], the initial volume (read with [StringToNumber]), the
    button that asks for the controls, and the handler of the "info"
    message, which starts or stops the controller and labels the button.

    The handler is written against the interface [ControlSwitch] of
    [Channel]: its theorems hold for every controller that implements the
    interface, and are then stated for [StreamInputController] through the
    instance [controller_switch]. *)

From stdpp Require Import gmap strings pretty.
From Stdlib Require Import QArith.
From S2P Require Import Prelude Text JsCore ToNumber Channel InputController.

Close Scope Q_scope.
#[local] Open Scope Z_scope.
#[local] Set Warnings "-clear-no-such-hyp".

(** ** Query parameters (index.js 255-278) *)

(** The value of a parameter: [true] for a bare name, else the text
    after the first "=". *)
Inductive qvalue : Type :=
  | QTrue
  | QString (s : string).

#[export] Instance qvalue_eq_dec : EqDecision qvalue.
Proof. solve_decision. Defined.

(** JavaScript's truthiness of a parameter, [undefined] included. *)
Definition truthy (v : option qvalue) : bool :=
  match v with
  | None => false
  | Some QTrue => true
  | Some (QString s) => bool_decide (s ≠ EmptyString)
  end.

(** The callback of [reduce], index.js 258-266. *)
Definition add_param (params : gmap string qvalue) (paramStr : string)
    : gmap string qvalue :=
  match split equals paramStr with
  | [] => params
  | [k] => <[k := QTrue]> params
  | k :: v :: _ => <[k := QString v]> params
  end.

(** [queryParams] for [window.location.search = search]. *)
Definition queryParams (search : string) : gmap string qvalue :=
  foldl add_param ∅ (split amp (string_drop 1 search)).

(** What the query selects on [document.body], index.js 275-278. *)
Record body : Type := Body {
  className : string;
  filter_style : string;
}.

Definition apply_query (q : gmap string qvalue) (b : body) : body :=
  let b := if truthy (q !! "hideControls")
           then Body "hide-controls" (filter_style b) else b in
  let b := if truthy (q !! "grayscale")
           then Body (className b) "grayscale(1)" else b in
  let b := if truthy (q !! "sepia")
           then Body (className b) "sepia(1)" else b in
  if truthy (q !! "invert") then Body (className b) "invert(1)" else b.

(** [displayPlural(n, singular, plural)], index.js 268-271. *)
Definition displayPlural (n : Z) (singular : string) (plural : option string)
    : string :=
  pretty n +:+ " " +:+
  (if decide (n = 1) then singular
   else match plural with
        | Some p => p
        | None => singular +:+ "s"
        end).

(** [Number(value)] for the value of a query parameter: [Number(true)]
    is 1, a string is read as a numeric literal. *)
Definition Number (v : qvalue) : jsnum :=
  match v with
  | QTrue => JsFin 1
  | QString s => StringToNumber s
  end.

(** The volume after index.js 304-311, for the parameter [volume] of the
    query, if present, and the volume the element had. *)
Definition initial_volume (volume : option qvalue) (current : jsnum) : jsnum :=
  match volume with
  | Some v => if in_unitb (Number v) then Number v else current
  | None => JsFin (7 # 10)
  end.

(** ** The controls (index.js 332-377) *)

(** The "info" message of the server. *)
Record info : Type := Info {
  users : Z;
  hasPassword : bool;
  validPassword : bool;
  controlsOwner : option string;
  allowSteal : bool;
}.

(** The button [toggleControlsEl]: the icon and text of its [innerHTML]
    and its [disabled] property. *)
Record toggle : Type := Toggle {
  icon : string;
  caption : string;
  disabled : bool;
}.

#[export] Instance toggle_eq_dec : EqDecision toggle.
Proof. solve_decision. Defined.

(** The click handler of the button, index.js 338-340. *)
Definition toggle_click (w : world) : world := socket_emit EmitToggleControls w.

Section controls.
Context `{ControlSwitch C}.

(** What the handler works on: the controller, the viewer count shown,
    and the button. *)
Record ui : Type := UI {
  controller_of : C;
  usersText : string;
  toggleControls : toggle;
}.

Definition set_usersText (s : string) (u : ui) : ui :=
  UI (controller_of u) s (toggleControls u).

(** [controller.start()] or [controller.stop()] followed by the three
    assignments to the button. *)
Definition control (on : bool) (t : toggle) (u : ui) : ui :=
  UI (switch_to on (controller_of u)) (usersText u) t.

(** The test of index.js 348. *)
Definition may_control (i : info) : bool :=
  negb (hasPassword i) || (hasPassword i && validPassword i).

(** The handler of "info", index.js 344-377, for a socket whose id is
    [id]. *)
Definition on_info (id : string) (i : info) (u : ui) : ui :=
  let u := set_usersText
             (displayPlural (users i) "person" (Some "people") +:+ " watching") u in
  if may_control i then
    if decide (controlsOwner i = Some id) then
      control true (Toggle "stop" "Stop controlling" false) u
    else if decide (controlsOwner i ≠ None) then
      if allowSteal i
      then control false (Toggle "skip_next" "Steal controls" false) u
      else control false (Toggle "close" "Someone is controlling" true) u
    else control false (Toggle "play_arrow" "Start controlling" false) u
  else if negb (validPassword i) then
    control false (Toggle "close" "Can't control" true) u
  else u.

(** Whether the viewer holds the controls, according to the message. *)
Definition owns (id : string) (i : info) : bool :=
  may_control i && bool_decide (controlsOwner i = Some id).

(** Whether the viewer may ask for them. *)
Definition may_ask (id : string) (i : info) : bool :=
  may_control i &&
  (bool_decide (controlsOwner i = Some id) || bool_decide (controlsOwner i = None)
   || allowSteal i).

End controls.

Arguments ui C : clear implicits.

(** ** Query parameters *)

Section query.
Implicit Types (s p k : string) (sep : Ascii.ascii) (l : list string).
Implicit Types (params : gmap string qvalue).

(** The name and value a piece of the query stands for. *)
Definition param_of (paramStr : string) : option (string * qvalue) :=
  match split equals paramStr with
  | [] => None
  | [k] => Some (k, QTrue)
  | k :: v :: _ => Some (k, QString v)
  end.

Lemma add_param_lookup params paramStr k :
  add_param params paramStr !! k =
    match param_of paramStr with
    | Some (k', v) => if decide (k' = k) then Some v else params !! k
    | None => params !! k
    end.
Proof.
  unfold add_param, param_of.
  destruct (split equals paramStr) as [|k' [|v ?]]; [done|..];
    case_decide as Hk; subst;
    by rewrite ?lookup_insert_eq, ?lookup_insert_ne by done.
Qed.

(** Pieces that do not name [k] leave it as it was. *)
Lemma foldl_add_param_other params l k :
  Forall (λ p, fst <$> param_of p ≠ Some k) l →
  foldl add_param params l !! k = params !! k.
Proof.
  revert params. induction l as [|p l IH]; intros params Hl; [done|].
  apply Forall_cons in Hl as [Hp Hl]. cbn [foldl].
  rewrite IH, add_param_lookup by done.
  destruct (param_of p) as [[k' v]|]; [|done].
  case_decide; [by subst|done].
Qed.

(** The last occurrence of a parameter wins.  When the query
    string splits into pieces of which [p] names [k] with value [v] and no
    later piece names [k], then [queryParams[k]] is [v]. *)
Theorem queryParams_last_wins search l1 p l2 k (v : qvalue) :
  split amp (string_drop 1 search) = l1 ++ p :: l2 →
  param_of p = Some (k, v) →
  Forall (λ p, fst <$> param_of p ≠ Some k) l2 →
  queryParams search !! k = Some v.
Proof.
  intros Hs Hp Hl2. unfold queryParams. rewrite Hs, foldl_app. cbn [foldl].
  rewrite foldl_add_param_other, add_param_lookup, Hp by done.
  by rewrite decide_True.
Qed.

(** The filters are assigned in turn, so the last one requested wins. *)
Lemma apply_query_filter q b :
  filter_style (apply_query q b) =
    if truthy (q !! "invert") then "invert(1)"
    else if truthy (q !! "sepia") then "sepia(1)"
    else if truthy (q !! "grayscale") then "grayscale(1)"
    else filter_style b.
Proof. unfold apply_query. by repeat case_match. Qed.

(** The volume stays a volume: a parameter outside [0,1] or not a
    number is ignored. *)
Lemma initial_volume_in_unit volume current :
  in_unit current → in_unit (initial_volume volume current).
Proof.
  intros Hc. destruct volume as [v|]; simpl; [|by split].
  destruct (in_unitb (Number v)) eqn:Hv; [by apply in_unitb_spec|done].
Qed.

End query.

Example queryParams_example :
  queryParams "?password=a=b&hideControls&volume=0.5&volume=1"
  = {[ "password" := QString "a"; "hideControls" := QTrue;
       "volume" := QString "1" ]}.
Proof. reflexivity. Qed.

(** An empty query string gives one parameter, named by the empty
    string. *)
Example queryParams_empty : queryParams "" = {[ "" := QTrue ]}.
Proof. reflexivity. Qed.

(** The parameter [volume]: a bare name is [true] and gives 1, an empty
    value gives 0, and a value that is no number of [0,1] leaves the
    volume of the element as it was. *)
Example initial_volume_examples :
  initial_volume (Some (QString "0.5")) (JsFin 1) = JsFin (1 # 2) ∧
  initial_volume (Some QTrue) (JsFin (1 # 2)) = JsFin 1 ∧
  initial_volume (Some (QString "")) (JsFin 1) = JsFin 0 ∧
  initial_volume (Some (QString "2")) (JsFin 1) = JsFin 1 ∧
  initial_volume (Some (QString "loud")) (JsFin 1) = JsFin 1 ∧
  initial_volume None (JsFin 1) = JsFin (7 # 10).
Proof. split_and!; reflexivity. Qed.

Example displayPlural_examples :
  displayPlural 1 "person" (Some "people") = "1 person" ∧
  displayPlural 3 "person" (Some "people") = "3 people" ∧
  displayPlural 0 "viewer" None = "0 viewers".
Proof. split_and!; reflexivity. Qed.

(** ** The controls *)

Section controls_laws.
Context `{ControlSwitch C}.
Implicit Types (u : ui C) (i : info) (id : string).

(** [hasPassword] and an invalid password is the one case the first test
    rejects, and the second test accepts it. *)
Lemma may_control_false i :
  may_control i = false → validPassword i = false.
Proof. unfold may_control. by destruct (hasPassword i), (validPassword i). Qed.

(** The handler always calls [start] or [stop]: [start] exactly when
    the message names this viewer as the owner of the controls. *)
Lemma on_info_controller id i u :
  controller_of (on_info id i u) = switch_to (owns id i) (controller_of u).
Proof.
  unfold on_info, owns. destruct (may_control i) eqn:Hm; cbn [andb].
  - rewrite bool_decide_decide. by repeat case_match.
  - by rewrite (may_control_false i).
Qed.

(** The button after the handler depends on the message only. *)
Lemma on_info_toggle id i u u' :
  toggleControls (on_info id i u) = toggleControls (on_info id i u').
Proof.
  unfold on_info. destruct (may_control i) eqn:Hm.
  - by repeat case_match.
  - by rewrite (may_control_false i).
Qed.

Lemma on_info_usersText id i u :
  usersText (on_info id i u)
  = displayPlural (users i) "person" (Some "people") +:+ " watching".
Proof.
  unfold on_info. destruct (may_control i) eqn:Hm.
  - by repeat case_match.
  - by rewrite (may_control_false i).
Qed.

Lemma ui_eq u u' :
  controller_of u = controller_of u' → usersText u = usersText u' →
  toggleControls u = toggleControls u' → u = u'.
Proof. destruct u, u'; simpl; congruence. Qed.

(** The controller follows the message.  After an "info"
    message the controller is active exactly when the message says that
    control is allowed (no password is set, or the viewer's is valid) and
    that this viewer owns the controls; the button is disabled exactly
    when the viewer may not ask for them. *)
Theorem on_info_decides id i (u : ui C) :
  is_on (controller_of (on_info id i u)) = owns id i ∧
  disabled (toggleControls (on_info id i u)) = negb (may_ask id i).
Proof.
  split; [by rewrite on_info_controller, switch_to_is_on|].
  unfold on_info, may_ask. destruct (may_control i) eqn:Hm; cbn [andb].
  - rewrite !bool_decide_decide.
    repeat case_match; try done; by destruct (controlsOwner i).
  - by rewrite (may_control_false i).
Qed.

(** A repeated message changes nothing.  Handling the same
    "info" message a second time leaves the controller, the viewer count
    and the button as the first time left them. *)
Theorem on_info_idempotent id i (u : ui C) :
  on_info id i (on_info id i u) = on_info id i u.
Proof.
  apply ui_eq; [|by rewrite !on_info_usersText|apply on_info_toggle].
  by rewrite !on_info_controller, switch_to_idemp.
Qed.

End controls_laws.

(** ** The controls of [StreamInputController] *)

Section controller.
Implicit Types (u : ui world) (i : info) (id : string) (es : list event).

Lemma switch_to_wired b w : wired w → wired (switch_to b w).
Proof. destruct b; simpl; auto with relay. Qed.

Lemma switch_to_socket b w : socket (switch_to b w) = socket w.
Proof. destruct b; [apply socket_start|apply socket_stop]. Qed.

Lemma switch_to_active b w : active (this (switch_to b w)) = b.
Proof. exact (switch_to_is_on b w). Qed.

(** C14: only the owner of the controls relays input.  Whatever the
    page's controller was doing, after an "info" message it is wired, it
    has emitted nothing, it is active exactly when the message gives this
    viewer the controls, and otherwise no pointer, wheel, key or timer
    event makes it emit or change anything. *)
Theorem controls_follow_info id i (u : ui world) es :
  wired (controller_of u) →
  let w' := controller_of (on_info id i u) in
  wired w' ∧ socket w' = socket (controller_of u) ∧
  active (this w') = owns id i ∧
  (owns id i = false → Forall (λ e, is_input e = true) es → play es w' = w').
Proof.
  intros Hw w'. unfold w'. rewrite on_info_controller.
  assert (wired (switch_to (owns id i) (controller_of u))) as Hw'
    by by apply switch_to_wired.
  split_and!; [done|apply switch_to_socket|apply switch_to_active|].
  intros Ho Hes. apply run_fixed. eapply Forall_impl; [done|].
  intros e He. apply inactive_ignores; [done| |done].
  by rewrite switch_to_active.
Qed.

End controller.

(** ** The theorems at concrete inputs *)

Lemma queryParams_last_wins_witness :
  queryParams "?volume=0.5&sepia&volume=1" !! "volume" = Some (QString "1").
Proof.
  by apply (queryParams_last_wins _ ["volume=0.5"; "sepia"] "volume=1" []).
Defined.

(** The page of a viewer while another one holds the controls that may
    not be stolen. *)
Lemma controls_follow_info_witness :
  let i := Info 2 true true (Some "other") false in
  let u := UI ctrl_held "" (Toggle "close" "" false) in
  let w' := controller_of (on_info "me" i u) in
  wired ctrl_held ∧
  wired w' ∧ socket w' = socket ctrl_held ∧
  active (this w') = false ∧
  play [MouseDown 0; KeyPressed 97; TimerFires 0] w' = w'.
Proof.
  intros i u w'. split; [by_compute|].
  destruct (controls_follow_info "me" i u [MouseDown 0; KeyPressed 97; TimerFires 0])
    as (? & ? & ? & Hdeaf); [by_compute|].
  split_and!; [done..|]. apply Hdeaf; [done|by repeat constructor].
Defined.
