(* ===== verification/StreamSelect.v ===== *)
(** * StreamSelect: choosing the stream and rewriting the SDP

    The two pure computations inside [startJanus]: which of the streams the
    signaling peer lists is watched (index.js 163-171), and how the SDP of
    the answer is rewritten before it is sent back (index.js 216, 223-230).
    Also the address of the signaling server (index.js 130-133).

    Theorems: [find_stream] returns the first item whose description
    contains the wanted name, compared without regard to case, and nothing
    when the list is null, empty or has no such item; [customizeSdp]
    leaves the SDP alone unless the offer was stereo and the answer is not,
    in which case it rewrites the leftmost "useinbandfec=1", so that the
    result announces stereo; it is idempotent. *)

From stdpp Require Import strings list.
From S2P Require Import Prelude JsCore.

#[local] Open Scope Z_scope.

(** ** Definitions *)

(** An entry of the [list] response: [{id, description}]. *)
Record stream_item : Type := StreamItem {
  item_id : Z;
  description : string;
}.

#[export] Instance stream_item_eq_dec : EqDecision stream_item.
Proof. solve_decision. Defined.

(** The predicate given to [list.find], index.js 166-170. *)
Definition matches (streamName : string) (item : stream_item) : bool :=
  includes (toLowerCase (description item)) (toLowerCase streamName).

(** The stream to watch, index.js 163-171: none for a null list, an empty
    list, or a list without a match. *)
Definition find_stream (list : option (list stream_item)) (streamName : string)
    : option stream_item :=
  match list with
  | None => None
  | Some l =>
      if bool_decide (length l ≤ 0)%nat then None
      else snd <$> list_find (λ item, matches streamName item = true) l
  end.

(** Whether the offer announces stereo, index.js 216. *)
Definition offers_stereo (sdp : string) : bool :=
  bool_decide (indexOf sdp "stereo=1" ≠ -1).

(** The [customizeSdp] callback, index.js 223-230. *)
Definition customizeSdp (stereo : bool) (sdp : string) : string :=
  if stereo && bool_decide (indexOf sdp "stereo=1" = -1)
  then replace sdp "useinbandfec=1" "useinbandfec=1;stereo=1"
  else sdp.

(** The address of the signaling server, index.js 130-133. *)
Definition janusServer (protocol host : string) : string :=
  (if startsWith protocol "https" then "wss://" else "ws://")
  +:+ host +:+ "/janus".

(** ** The matcher *)

Section matcher.
Implicit Types (name : string) (item : stream_item) (l : list stream_item).

Lemma matches_spec name item :
  matches name item = true
  ↔ occurs (toLowerCase name) (toLowerCase (description item)).
Proof. apply includes_spec. Qed.

Lemma matches_lower_name name item :
  matches (toLowerCase name) item = matches name item.
Proof. unfold matches. by rewrite toLowerCase_idemp. Qed.

Lemma matches_lower_description name i d :
  matches name (StreamItem i (toLowerCase d)) = matches name (StreamItem i d).
Proof. unfold matches. simpl. by autorewrite with relay_rw. Qed.

(** A description that contains the name as written matches it. *)
Lemma matches_occurs name item :
  occurs name (description item) → matches name item = true.
Proof. intros Ho. apply matches_spec. auto with relay. Qed.

Lemma find_stream_unfold l name :
  find_stream (Some l) name
  = snd <$> list_find (λ item, matches name item = true) l.
Proof.
  unfold find_stream. case_bool_decide; [|done]. by destruct l; [|simpl in *; lia].
Qed.

(** C4: the stream that is watched is the first item of the list whose
    description contains the wanted name, case ignored: it matches, and
    nothing before it does. *)
Theorem find_stream_first (l : list stream_item) name s :
  find_stream (Some l) name = Some s ↔
  ∃ l1 l2, l = l1 ++ s :: l2 ∧ matches name s = true ∧
           Forall (λ item, matches name item = false) l1.
Proof.
  rewrite find_stream_unfold, fmap_Some. split.
  - intros ([i x] & (Hi & Hx & Hlt)%list_find_Some & ->).
    exists (take i l), (drop (S i) l).
    split_and!; [by rewrite take_drop_middle|done|].
    apply Forall_lookup. intros j y [Hj ?]%lookup_take_Some.
    apply not_true_is_false. by eapply Hlt.
  - intros (l1 & l2 & -> & Hs & Hl1). exists (length l1, s). split; [|done].
    apply list_find_Some. split_and!; [by apply list_lookup_middle|done|].
    intros j y Hj Hlt. rewrite lookup_app_l in Hj by done.
    by rewrite (Forall_lookup_1 _ _ _ _ Hl1 Hj).
Qed.

(** C28: no stream is chosen exactly when the list is null, or empty,
    or holds no item whose description contains the wanted name. *)
Theorem find_stream_none (list : option (list stream_item)) name :
  find_stream list name = None ↔
  ∀ l, list = Some l → Forall (λ item, matches name item = false) l.
Proof.
  destruct list as [l|]; [|by split].
  rewrite find_stream_unfold, fmap_None, list_find_None. split.
  - intros Hl ? [= <-]. eapply Forall_impl; [done|].
    intros item. apply not_true_is_false.
  - intros Hl. eapply Forall_impl; [by apply Hl|]. intros item. congruence.
Qed.

(** The comparison ignores case: folding the wanted name or a
    description to lower case beforehand does not change the answer, and a
    description that contains the name as written always matches. *)
Theorem matches_ignores_case name i d :
  matches (toLowerCase name) (StreamItem i d) = matches name (StreamItem i d) ∧
  matches name (StreamItem i (toLowerCase d)) = matches name (StreamItem i d) ∧
  (occurs name d → matches name (StreamItem i d) = true).
Proof.
  split_and!; [apply matches_lower_name|apply matches_lower_description|].
  apply (matches_occurs name (StreamItem i d)).
Qed.

End matcher.

(** The two lists of the specification's example. *)
Example find_stream_audio :
  find_stream (Some [StreamItem 1 "Office Cam"; StreamItem 2 "Lobby Audio"])
              "audio"
  = Some (StreamItem 2 "Lobby Audio").
Proof. by vm_compute. Qed.

Example find_stream_camera :
  find_stream (Some [StreamItem 1 "Office Cam"; StreamItem 2 "Lobby Audio"])
              "camera"
  = None.
Proof. by vm_compute. Qed.

(** ** The SDP rewrite *)

Section sdp.
Implicit Types (sdp pre post : string) (stereo : bool).

Lemma offers_stereo_spec sdp : offers_stereo sdp = true ↔ occurs "stereo=1" sdp.
Proof.
  unfold offers_stereo. by rewrite <-indexOf_includes, includes_spec.
Qed.

Lemma lacks_stereo_spec sdp :
  bool_decide (indexOf sdp "stereo=1" = -1) = true ↔ ¬ occurs "stereo=1" sdp.
Proof. by rewrite bool_decide_eq_true, indexOf_absent. Qed.

Lemma customizeSdp_rewrites sdp :
  ¬ occurs "stereo=1" sdp →
  customizeSdp true sdp = replace sdp "useinbandfec=1" "useinbandfec=1;stereo=1".
Proof.
  intros Hs%lacks_stereo_spec. unfold customizeSdp. by rewrite Hs.
Qed.

Lemma customizeSdp_mono sdp : customizeSdp false sdp = sdp.
Proof. done. Qed.

Lemma customizeSdp_present stereo sdp :
  occurs "stereo=1" sdp → customizeSdp stereo sdp = sdp.
Proof.
  intros Hs. unfold customizeSdp.
  destruct (bool_decide _) eqn:Hl; [|by rewrite andb_false_r].
  by apply lacks_stereo_spec in Hl.
Qed.

Lemma customizeSdp_no_fec stereo sdp :
  ¬ occurs "useinbandfec=1" sdp → customizeSdp stereo sdp = sdp.
Proof.
  intros Hu. unfold customizeSdp. case_match; [|done]. by apply replace_absent.
Qed.

(** C29: the SDP of the answer is sent back as it is when the offer was
    not stereo, when the answer already announces stereo, or when it has no
    "useinbandfec=1" to extend. *)
Theorem customizeSdp_unchanged stereo (sdp : string) :
  stereo = false ∨ occurs "stereo=1" sdp ∨ ¬ occurs "useinbandfec=1" sdp →
  customizeSdp stereo sdp = sdp.
Proof.
  intros [->|[?|?]];
    [apply customizeSdp_mono|by apply customizeSdp_present
    |by apply customizeSdp_no_fec].
Qed.

(** C8: for a stereo offer and an answer that does not announce stereo
    yet, the leftmost "useinbandfec=1" of the answer, and only that one,
    is extended to "useinbandfec=1;stereo=1". *)
Theorem customizeSdp_adds_stereo (sdp : string) :
  ¬ occurs "stereo=1" sdp → occurs "useinbandfec=1" sdp →
  ∃ pre post,
    sdp = pre +:+ "useinbandfec=1" +:+ post ∧
    find_first "useinbandfec=1" sdp = Some (String.length pre) ∧
    customizeSdp true sdp = pre +:+ "useinbandfec=1;stereo=1" +:+ post.
Proof.
  intros Hs [i Hi]%find_first_is_Some. rewrite customizeSdp_rewrites by done.
  destruct (replace_first sdp _ "useinbandfec=1;stereo=1" i Hi)
    as (pre & post & Hsdp & <- & Hr).
  by exists pre, post.
Qed.

Lemma customizeSdp_announces sdp :
  ¬ occurs "stereo=1" sdp → occurs "useinbandfec=1" sdp →
  occurs "stereo=1" (customizeSdp true sdp).
Proof.
  intros Hs Hu. rewrite customizeSdp_rewrites by done.
  eapply occurs_trans; [|by apply replace_occurs].
  by exists "useinbandfec=1;", "".
Qed.

(** Rewriting an SDP that was already rewritten changes nothing. *)
Theorem customizeSdp_idempotent stereo (sdp : string) :
  customizeSdp stereo (customizeSdp stereo sdp) = customizeSdp stereo sdp.
Proof.
  destruct stereo; [|done].
  destruct (decide (occurs "stereo=1" sdp)) as [Hs|Hs].
  { by rewrite !(customizeSdp_present true sdp). }
  destruct (decide (occurs "useinbandfec=1" sdp)) as [Hu|Hu].
  - by apply customizeSdp_present, customizeSdp_announces.
  - by rewrite !(customizeSdp_no_fec true sdp).
Qed.

End sdp.

(** An answer with two Opus format lines: only the first is extended. *)
Example customizeSdp_two_lines :
  customizeSdp true "a=fmtp:111 useinbandfec=1|a=fmtp:63 useinbandfec=1"
  = "a=fmtp:111 useinbandfec=1;stereo=1|a=fmtp:63 useinbandfec=1".
Proof. by vm_compute. Qed.

(** A stereo offer does not make the answer stereo when the answer has no
    "useinbandfec=1": what is rewritten is the answer, not the offer. *)
Example customizeSdp_answer_without_fec :
  offers_stereo "a=fmtp:111 useinbandfec=1;stereo=1" = true ∧
  customizeSdp (offers_stereo "a=fmtp:111 useinbandfec=1;stereo=1")
               "a=fmtp:111 minptime=10"
  = "a=fmtp:111 minptime=10".
Proof. by vm_compute. Qed.

(** ** Witnesses *)

Lemma customizeSdp_unchanged_witness :
  (true = false ∨ occurs "stereo=1" "m=audio stereo=1 useinbandfec=1"
   ∨ ¬ occurs "useinbandfec=1" "m=audio stereo=1 useinbandfec=1") ∧
  customizeSdp true "m=audio stereo=1 useinbandfec=1"
  = "m=audio stereo=1 useinbandfec=1".
Proof.
  assert (occurs "stereo=1" "m=audio stereo=1 useinbandfec=1") by by_compute.
  split; [auto|]. apply customizeSdp_unchanged. auto.
Defined.

Lemma customizeSdp_adds_stereo_witness :
  ¬ occurs "stereo=1" "a=fmtp:111 minptime=10;useinbandfec=1" ∧
  occurs "useinbandfec=1" "a=fmtp:111 minptime=10;useinbandfec=1" ∧
  ∃ pre post,
    "a=fmtp:111 minptime=10;useinbandfec=1"
    = pre +:+ "useinbandfec=1" +:+ post ∧
    find_first "useinbandfec=1" "a=fmtp:111 minptime=10;useinbandfec=1"
    = Some (String.length pre) ∧
    customizeSdp true "a=fmtp:111 minptime=10;useinbandfec=1"
    = pre +:+ "useinbandfec=1;stereo=1" +:+ post.
Proof.
  split_and!; [by_compute..|]. apply customizeSdp_adds_stereo; by_compute.
Defined.
