(* ===== verification/Session.v ===== *)
(** * Session: the attach sequence of [startJanus] and the retry loop

    One call of [startJanus] (index.js 114-252) is an [attempt]: an
    asynchronous function that suspends at the initialisation of the
    library and at the creation of the session, then registers the plugin
    callbacks and returns.  [progress] records where the body of the
    function, and later the [success] callback of [janus.attach], stands;
    the other fields are the variable [streaming], the requests sent
    through it, the [createAnswer] calls in flight and whether the attempt
    was torn down.

    [page] is the state all attempts share: the flag [janusInitialized]
    (index.js 112), the [playing] object of the page script (index.js
    381-384), the list of attempts, counters for the calls whose only
    effect is outside the program ([Janus.init], [alert],
    [console.error]), and the calls made on the media elements
    ([attachMediaStream], [play]) in the order they were made.  The
    elements belong to the page: [Script] holds their state and lets these
    calls take effect on it.

    [check] (index.js 387-399) starts an attempt for a sub-stream whose
    [playing] flag is not set; [preStartJanus] and the 5 s timer call it
    for "video" and "audio".  [sstep] delivers one callback.  Callbacks
    are addressed to an attempt by its position in [attempts]; a callback
    that does not fit the attempt's progress is ignored, the signaling
    library being assumed to call back in protocol order and not after the
    handle was detached.  [preStartJanus] runs once: index.js 410-419 call
    it directly under Qt, and otherwise from a click handler that removes
    its own element; [Script] models that code and proves it.

    The theorems, in the order of the file: the retry loop and the
    independence of the sub-streams; disconnection; the protocol invariant
    [attempt_ok]; which failures clear the way for a retry and which do
    not ([flags_follow]); the answer to an offer; initialisation; the
    projection of a run on one attempt ([attempt_react], [attempt_step])
    and the attach sequence that goes well.

    The lifecycle of the specification (Idle, Attaching, Listing,
    Watching, Connected, Disconnected and back to Idle) is not a
    definition of this file.  The code has no state for it: the phases of
    an attempt are the places where its body stands ([progress]), an
    attempt that fails stays where it failed, and the way back to Idle is
    a new attempt.  What the lifecycle promises of the order of the
    attach sequence is in the invariant [attempt_ok]. *)

From stdpp Require Import gmap strings.
From S2P Require Import Prelude JsCore StreamSelect.

#[local] Open Scope Z_scope.
#[local] Set Warnings "-clear-no-such-hyp".

(** ** Data *)

(** The two media elements of the page. *)
Inductive sink : Type := VideoEl | AudioEl.

#[export] Instance sink_eq_dec : EqDecision sink.
Proof. solve_decision. Defined.

(** A message sent with [streaming.send]. *)
Inductive request : Type :=
  | ReqList
  | ReqWatch (id : Z)
  | ReqStart (sdp : string).

#[export] Instance request_eq_dec : EqDecision request.
Proof. solve_decision. Defined.

(** Where an attempt stands. *)
Inductive progress : Type :=
  | AwaitingInit          (* index.js 116-121 *)
  | Returned              (* index.js 125-128 *)
  | AwaitingSession       (* index.js 135-146 *)
  | Rejected              (* index.js 141-143 *)
  | Attaching             (* index.js 150: no callback yet *)
  | AttachFailed          (* index.js 181-183 *)
  | Listing               (* index.js 156-161 *)
  | NoStream              (* index.js 163, 164, 171 *)
  | Watching (id : Z)     (* index.js 174-179 *)
  | Watched (id : Z).     (* the success callback has finished *)

#[export] Instance progress_eq_dec : EqDecision progress.
Proof. solve_decision. Defined.

(** One call of [startJanus(streamEl, streamName, destroyedCallback)]. *)
Record attempt : Type := Attempt {
  streamEl : sink;
  streamName : string;
  progress_of : progress;
  streaming : bool;
  sent : list request;
  answering : list (bool * bool);
  torn_down : bool;
}.

#[export] Instance attempt_eq_dec : EqDecision attempt.
Proof. solve_decision. Defined.

(** A call on a media element: [Janus.attachMediaStream(el, stream)],
    and [el.play()] with whether the browser lets the element play. *)
Inductive element_call : Type :=
  | Attached (el : sink) (stream : Z)
  | Played (el : sink) (allowed : bool).

(** The state shared by the attempts. *)
Record page : Type := Page {
  janusInitialized : bool;
  playing : gmap string bool;
  attempts : list attempt;
  retry_timer : bool;
  webrtc : bool;
  init_calls : nat;
  alerts : nat;
  errors : nat;
  element_calls : list element_call;
}.

(** The page when the script has run up to index.js 384, in a browser
    that supports WebRTC or not. *)
Definition new_page (webrtc_supported : bool) : page :=
  Page false {["video" := false; "audio" := false]} [] false
       webrtc_supported 0 0 0 [].

(** ** Updates *)

Definition set_progress (p : progress) (a : attempt) : attempt :=
  Attempt (streamEl a) (streamName a) p (streaming a) (sent a) (answering a)
          (torn_down a).
Definition set_streaming (a : attempt) : attempt :=
  Attempt (streamEl a) (streamName a) (progress_of a) true (sent a)
          (answering a) (torn_down a).
Definition send (r : request) (a : attempt) : attempt :=
  Attempt (streamEl a) (streamName a) (progress_of a) (streaming a)
          (sent a ++ [r]) (answering a) (torn_down a).
Definition set_answering (l : list (bool * bool)) (a : attempt) : attempt :=
  Attempt (streamEl a) (streamName a) (progress_of a) (streaming a) (sent a)
          l (torn_down a).
Definition tear_down (a : attempt) : attempt :=
  Attempt (streamEl a) (streamName a) (progress_of a) (streaming a) (sent a)
          (answering a) true.

Definition set_initialized (w : page) : page :=
  Page true (playing w) (attempts w) (retry_timer w) (webrtc w)
       (init_calls w) (alerts w) (errors w) (element_calls w).
Definition set_playing (name : string) (b : bool) (w : page) : page :=
  Page (janusInitialized w) (<[name := b]> (playing w)) (attempts w)
       (retry_timer w) (webrtc w) (init_calls w) (alerts w) (errors w)
       (element_calls w).
Definition set_attempts (l : list attempt) (w : page) : page :=
  Page (janusInitialized w) (playing w) l (retry_timer w) (webrtc w)
       (init_calls w) (alerts w) (errors w) (element_calls w).
Definition set_retry_timer (w : page) : page :=
  Page (janusInitialized w) (playing w) (attempts w) true (webrtc w)
       (init_calls w) (alerts w) (errors w) (element_calls w).
Definition Janus_init (w : page) : page :=
  Page (janusInitialized w) (playing w) (attempts w) (retry_timer w)
       (webrtc w) (S (init_calls w)) (alerts w) (errors w) (element_calls w).
Definition alert (w : page) : page :=
  Page (janusInitialized w) (playing w) (attempts w) (retry_timer w)
       (webrtc w) (init_calls w) (S (alerts w)) (errors w) (element_calls w).
Definition console_error (w : page) : page :=
  Page (janusInitialized w) (playing w) (attempts w) (retry_timer w)
       (webrtc w) (init_calls w) (alerts w) (S (errors w)) (element_calls w).
Definition attachMediaStream (el : sink) (stream : Z) (w : page) : page :=
  Page (janusInitialized w) (playing w) (attempts w) (retry_timer w)
       (webrtc w) (init_calls w) (alerts w) (errors w)
       (element_calls w ++ [Attached el stream]).
Definition element_play (el : sink) (allowed : bool) (w : page) : page :=
  Page (janusInitialized w) (playing w) (attempts w) (retry_timer w)
       (webrtc w) (init_calls w) (alerts w) (errors w)
       (element_calls w ++ [Played el allowed]).

(** Apply [f] to attempt [n]. *)
Definition on_attempt (n : nat) (f : attempt → attempt) (w : page) : page :=
  set_attempts (alter f n (attempts w)) w.

(** ** The page script's callbacks (index.js 387-399) *)

(** The [then] callback of [check], index.js 392-394: the promise of
    [startJanus] resolved. *)
Definition check_then (name : string) (w : page) : page :=
  set_playing name true w.

(** The [destroyedCallback] that [check] passes to [startJanus], index.js
    389-391. *)
Definition destroyedCallback (name : string) (w : page) : page :=
  set_playing name false w.

(** ** [startJanus] *)

(** The body from the WebRTC test to the second [await], index.js
    125-146, for attempt [n]. *)
Definition after_init (n : nat) (name : string) (w : page) : page :=
  if negb (webrtc w)
  then w |> alert |> on_attempt n (set_progress Returned) |> check_then name
  else w |> on_attempt n (set_progress AwaitingSession).

(** The call itself, up to its first suspension, index.js 114-123. *)
Definition startJanus (el : sink) (name : string) (w : page) : page :=
  let n := length (attempts w) in
  let w := set_attempts
             (attempts w ++ [Attempt el name AwaitingInit false [] [] false]) w in
  if janusInitialized w then after_init n name w
  else w |> Janus_init.

(** [Janus.init] called back: the flag is set and the body goes on. *)
Definition init_done (n : nat) (a : attempt) (w : page) : page :=
  w |> set_initialized |> after_init n (streamName a).

(** The session was created, index.js 138-140 and 148-251: the plugin is
    attached, the function returns, and its promise resolves. *)
Definition session_success (n : nat) (a : attempt) (w : page) : page :=
  w |> on_attempt n (set_progress Attaching) |> check_then (streamName a).

(** The session could not be created, index.js 141-143: the promise is
    rejected and the [catch] of [check] logs the error. *)
Definition session_error (n : nat) (w : page) : page :=
  w |> on_attempt n (set_progress Rejected) |> console_error.

(** [success(pluginHandle)] up to its first suspension, index.js
    153-161. *)
Definition attach_success (n : nat) (w : page) : page :=
  w |> on_attempt n (λ a, a |> set_streaming |> send ReqList
                            |> set_progress Listing).

(** [error(error)] of [janus.attach], index.js 181-183. *)
Definition attach_error (n : nat) (w : page) : page :=
  w |> on_attempt n (set_progress AttachFailed) |> console_error.

(** The answer to the list request arrived, index.js 163-179. *)
Definition list_result (n : nat) (a : attempt)
    (list : option (list stream_item)) (w : page) : page :=
  match find_stream list (streamName a) with
  | None => w |> on_attempt n (set_progress NoStream)
  | Some stream =>
      w |> on_attempt n (λ a, a |> send (ReqWatch (item_id stream))
                                |> set_progress (Watching (item_id stream)))
  end.

(** The answer to the watch request arrived: the callback ends. *)
Definition watch_ack (n : nat) (id : Z) (w : page) : page :=
  w |> on_attempt n (set_progress (Watched id)).

(** [onmessage(msg, jsep)], index.js 195-245.  [has_status] is
    [msg.result && msg.result.status], [has_error] is [msg.error]. *)
Definition onmessage (n : nat) (a : attempt) (has_status has_error : bool)
    (jsep : option string) (w : page) : page :=
  if negb has_status && has_error then w |> console_error
  else match jsep with
       | None => w
       | Some offer =>
           let stereo := offers_stereo offer in
           w |> on_attempt n
                  (λ a, set_answering (answering a ++ [(stereo, false)]) a)
       end.

(** [createAnswer] produced the local answer [sdp] for call [j]:
    [customizeSdp] rewrites it and [success] sends it, index.js
    223-239. *)
Definition answer_created (n j : nat) (stereo : bool) (sdp : string)
    (w : page) : page :=
  w |> on_attempt n
         (λ a, a |> set_answering (<[j := (stereo, true)]> (answering a))
                 |> send (ReqStart (customizeSdp stereo sdp))).

(** [createAnswer] failed, index.js 240-242. *)
Definition answer_error (n j : nat) (stereo : bool) (w : page) : page :=
  w |> on_attempt n (λ a, set_answering (<[j := (stereo, true)]> (answering a)) a)
    |> console_error.

(** [onremotestream(stream)], index.js 246-250, when the browser lets
    the element play or not. *)
Definition onremotestream (a : attempt) (stream : Z) (allowed : bool)
    (w : page) : page :=
  w |> attachMediaStream (streamEl a) stream
    |> element_play (streamEl a) allowed.

(** [iceState(state)], index.js 184-191. *)
Definition iceState (n : nat) (a : attempt) (state : string) (w : page) : page :=
  if bool_decide (state = "disconnected")
  then w |> on_attempt n tear_down |> destroyedCallback (streamName a)
  else w.

(** ** The retry loop (index.js 386-408) *)

(** [check(el, streamName)] *)
Definition check (el : sink) (name : string) (w : page) : page :=
  if negb (default false (playing w !! name))
  then startJanus el name w
  else w.

Definition check_both (w : page) : page :=
  w |> check VideoEl "video" |> check AudioEl "audio".

(** [preStartJanus()] *)
Definition preStartJanus (w : page) : page :=
  w |> check_both |> set_retry_timer.

(** ** Callbacks as events *)

(** A callback with the arguments the library passes; [RemoteStream]
    carries in addition whether the browser lets the element play at that
    moment, which the call of [play] in [onremotestream] finds out. *)
Inductive callback : Type :=
  | PreStart
  | Tick
  | InitDone (n : nat)
  | SessionSuccess (n : nat)
  | SessionError (n : nat)
  | AttachSuccess (n : nat)
  | AttachError (n : nat)
  | ListResult (n : nat) (list : option (list stream_item))
  | WatchAck (n : nat)
  | Message (n : nat) (has_status has_error : bool) (jsep : option string)
  | AnswerCreated (n j : nat) (sdp : string)
  | AnswerError (n j : nat)
  | RemoteStream (n : nat) (stream : Z) (allowed : bool)
  | IceState (n : nat) (state : string).

(** The attempt a callback belongs to. *)
Definition target (c : callback) : option nat :=
  match c with
  | PreStart | Tick => None
  | InitDone n | SessionSuccess n | SessionError n | AttachSuccess n
  | AttachError n | ListResult n _ | WatchAck n | Message n _ _ _
  | AnswerCreated n _ _ | AnswerError n _ | RemoteStream n _ _
  | IceState n _ => Some n
  end.

(** A callback of the plugin handle reaches an attempt that holds the
    handle and was not torn down. *)
Definition live (a : attempt) : bool := streaming a && negb (torn_down a).

(** One callback.  Each is delivered only in the state in which the
    library can issue it. *)
Definition sstep (c : callback) (w : page) : page :=
  match c with
  | PreStart => if retry_timer w then w else preStartJanus w
  | Tick => if retry_timer w then check_both w else w
  | _ =>
    match target c ≫= λ n, (n,.) <$> attempts w !! n with
    | None => w
    | Some (n, a) =>
      match c, progress_of a with
      | InitDone _, AwaitingInit => init_done n a w
      | SessionSuccess _, AwaitingSession => session_success n a w
      | SessionError _, AwaitingSession => session_error n w
      | AttachSuccess _, Attaching => attach_success n w
      | AttachError _, Attaching => attach_error n w
      | ListResult _ list, Listing =>
          if torn_down a then w else list_result n a list w
      | WatchAck _, Watching id =>
          if torn_down a then w else watch_ack n id w
      | Message _ s e jsep, _ => if live a then onmessage n a s e jsep w else w
      | AnswerCreated _ j sdp, _ =>
          match answering a !! j with
          | Some (stereo, false) =>
              if live a then answer_created n j stereo sdp w else w
          | _ => w
          end
      | AnswerError _ j, _ =>
          match answering a !! j with
          | Some (stereo, false) =>
              if live a then answer_error n j stereo w else w
          | _ => w
          end
      | RemoteStream _ stream allowed, _ =>
          if live a then onremotestream a stream allowed w else w
      | IceState _ state, _ => if live a then iceState n a state w else w
      | _, _ => w
      end
    end
  end.

(** The page after a sequence of callbacks. *)
Abbreviation splay := (run sstep).

(** Unfold the updates down to record literals. *)
Ltac page_simpl :=
  unfold check_then, destroyedCallback, on_attempt, set_initialized,
    set_playing, set_attempts, set_retry_timer, Janus_init, alert,
    console_error, attachMediaStream, element_play in *;
  cbn [janusInitialized playing attempts retry_timer webrtc init_calls alerts
       errors element_calls] in *.

Ltac attempt_simpl :=
  unfold set_progress, set_streaming, send, set_answering, tear_down in *;
  cbn [streamEl streamName progress_of streaming sent answering torn_down] in *.

(** ** The retry loop *)

Section retry.
Implicit Types (w : page) (a : attempt) (c : callback) (n k : nat).

(** What [startJanus] does in a browser with WebRTC: one more attempt at
    the end of the list; [Janus.init] is called if the flag is not set. *)
Lemma startJanus_effect el name w :
  webrtc w = true →
  startJanus el name w =
    if janusInitialized w
    then set_attempts
           (attempts w ++ [Attempt el name AwaitingSession false [] [] false]) w
    else Janus_init
           (set_attempts
              (attempts w ++ [Attempt el name AwaitingInit false [] [] false]) w).
Proof.
  intros Hrtc. unfold startJanus, after_init. page_simpl. rewrite Hrtc.
  destruct (janusInitialized w); [|done]. cbn [negb]. page_simpl.
  by rewrite alter_app_r_alt, Nat.sub_diag by done.
Qed.

Lemma check_playing el name w :
  playing w !! name = Some true → check el name w = w.
Proof. intros Hp. unfold check. by rewrite Hp. Qed.

Lemma check_not_playing el name w :
  playing w !! name = Some false → check el name w = startJanus el name w.
Proof. intros Hp. unfold check. by rewrite Hp. Qed.

(** [check] is a no-op for a sub-stream whose flag is set, so a
    tick of the 5 s timer changes nothing while both flags are set. *)
Theorem tick_when_playing (w : page) :
  playing w !! "video" = Some true → playing w !! "audio" = Some true →
  sstep Tick w = w.
Proof.
  intros Hv Ha. cbn [sstep]. case_match; [|done].
  unfold check_both. rewrite (check_playing VideoEl "video") by done.
  by rewrite (check_playing AudioEl "audio").
Qed.

End retry.

(** ** Callbacks addressed to an attempt *)

(** Unfold one callback down to record updates. *)
Ltac sstep_unfold :=
  unfold init_done, after_init, session_success, session_error,
    attach_success, attach_error, list_result, watch_ack, onmessage,
    answer_created, answer_error, onremotestream, iceState in *.

Section targeted.
Implicit Types (w : page) (a : attempt) (c : callback) (n m k : nat).

Lemma sstep_targeted c n w :
  target c = Some n →
  sstep c w =
    match attempts w !! n with
    | None => w
    | Some a =>
      match c, progress_of a with
      | InitDone _, AwaitingInit => init_done n a w
      | SessionSuccess _, AwaitingSession => session_success n a w
      | SessionError _, AwaitingSession => session_error n w
      | AttachSuccess _, Attaching => attach_success n w
      | AttachError _, Attaching => attach_error n w
      | ListResult _ list, Listing =>
          if torn_down a then w else list_result n a list w
      | WatchAck _, Watching id =>
          if torn_down a then w else watch_ack n id w
      | Message _ s e jsep, _ => if live a then onmessage n a s e jsep w else w
      | AnswerCreated _ j sdp, _ =>
          match answering a !! j with
          | Some (stereo, false) =>
              if live a then answer_created n j stereo sdp w else w
          | _ => w
          end
      | AnswerError _ j, _ =>
          match answering a !! j with
          | Some (stereo, false) =>
              if live a then answer_error n j stereo w else w
          | _ => w
          end
      | RemoteStream _ stream allowed, _ =>
          if live a then onremotestream a stream allowed w else w
      | IceState _ state, _ => if live a then iceState n a state w else w
      | _, _ => w
      end
    end.
Proof.
  intros Hc. destruct c; simplify_eq/=; by destruct (attempts w !! n).
Qed.

(** A callback changes no attempt but the one it is addressed to. *)
Lemma sstep_other_attempt c n m w :
  target c = Some n → m ≠ n → attempts (sstep c w) !! m = attempts w !! m.
Proof.
  intros Hc Hm. rewrite (sstep_targeted c n) by done.
  destruct (attempts w !! n) as [a|] eqn:Ha; [|done].
  destruct c; simplify_eq/=; sstep_unfold;
    repeat case_match; page_simpl; try done;
    by rewrite list_lookup_alter_ne.
Qed.

(** It changes the flag of no sub-stream but the attempt's own. *)
Lemma sstep_other_playing c n a name w :
  target c = Some n → attempts w !! n = Some a → name ≠ streamName a →
  playing (sstep c w) !! name = playing w !! name.
Proof.
  intros Hc Ha Hname. rewrite (sstep_targeted c n), Ha by done.
  destruct c; simplify_eq/=; sstep_unfold;
    repeat case_match; page_simpl; try done;
    by rewrite lookup_insert_ne.
Qed.

(** The sub-streams are independent: a callback of an attempt,
    whether it reports success, failure or disconnection, changes neither
    the flag of the other sub-stream nor any other attempt. *)
Theorem substreams_independent c n a name m (w : page) :
  target c = Some n → attempts w !! n = Some a →
  name ≠ streamName a → m ≠ n →
  playing (sstep c w) !! name = playing w !! name ∧
  attempts (sstep c w) !! m = attempts w !! m.
Proof.
  intros Hc Ha Hname Hm. split;
    [by eapply sstep_other_playing|by eapply sstep_other_attempt].
Qed.

End targeted.

(** ** Disconnection and retry *)

Section disconnect.
Implicit Types (w : page) (a : attempt) (c : callback) (n m k : nat).

Lemma sstep_tick w : retry_timer w = true → sstep Tick w = check_both w.
Proof. intros Hr. cbn [sstep]. by rewrite Hr. Qed.

Lemma sstep_disconnected n a w :
  attempts w !! n = Some a → live a = true →
  sstep (IceState n "disconnected") w
  = w |> on_attempt n tear_down |> destroyedCallback (streamName a).
Proof.
  intros Ha Hl. rewrite (sstep_targeted _ n), Ha by done.
  unfold iceState. destruct (progress_of a); by rewrite Hl.
Qed.

(** C9: disconnection.  When the ICE state of a connected attempt
    becomes "disconnected", the attempt is torn down and the flag of its
    sub-stream is cleared, so that [check] calls [startJanus] for it again
    and the next tick of the timer runs both checks on that state. *)
Theorem ice_disconnect_restarts n a (w : page) :
  attempts w !! n = Some a → live a = true → retry_timer w = true →
  let w' := sstep (IceState n "disconnected") w in
  playing w' !! streamName a = Some false ∧
  torn_down <$> attempts w' !! n = Some true ∧
  (∀ el, check el (streamName a) w' = startJanus el (streamName a) w') ∧
  splay [IceState n "disconnected"; Tick] w = check_both w'.
Proof.
  intros Ha Hl Hr w'.
  assert (playing w' !! streamName a = Some false) as Hp.
  { unfold w'. rewrite (sstep_disconnected n a) by done. page_simpl.
    apply lookup_insert_eq. }
  split_and!; [done| |by intros; apply check_not_playing|].
  - unfold w'. rewrite (sstep_disconnected n a) by done. page_simpl.
    by rewrite list_lookup_alter_eq, Ha.
  - autorewrite with relay_rw. apply sstep_tick.
    unfold w'. by rewrite (sstep_disconnected n a).
Qed.

(** A tick in a browser with WebRTC, while neither flag is set: two more
    attempts, and nothing else changes but the count of [Janus.init]. *)
Lemma tick_spawns w :
  retry_timer w = true → webrtc w = true →
  playing w !! "video" = Some false → playing w !! "audio" = Some false →
  ∃ a1 a2 i,
    sstep Tick w =
      Page (janusInitialized w) (playing w) (attempts w ++ [a1; a2])
           (retry_timer w) (webrtc w) i (alerts w) (errors w) (element_calls w).
Proof.
  intros Hr Hrtc Hv Ha. rewrite sstep_tick by done. unfold check_both.
  rewrite (check_not_playing VideoEl "video"), startJanus_effect by done.
  destruct (janusInitialized w) eqn:Hi.
  - rewrite (check_not_playing AudioEl "audio"), startJanus_effect by done.
    page_simpl. rewrite Hi, <-app_assoc. by eexists _, _, _.
  - rewrite (check_not_playing AudioEl "audio"), startJanus_effect by done.
    page_simpl. rewrite Hi, <-app_assoc. by eexists _, _, _.
Qed.

(** C26: Re-entrancy.  The timer does not know an attempt is in
    flight: while the flags are not set, every tick starts two more
    attempts, so their number grows without bound. *)
Theorem ticks_pile_up_attempts k (w : page) :
  retry_timer w = true → webrtc w = true →
  playing w !! "video" = Some false → playing w !! "audio" = Some false →
  length (attempts (splay (replicate k Tick) w))
  = (length (attempts w) + 2 * k)%nat.
Proof.
  revert w. induction k as [|k IH]; intros w Hr Hrtc Hv Ha.
  { cbn [replicate]. rewrite run_nil. lia. }
  cbn [replicate]. rewrite run_cons.
  destruct (tick_spawns w) as (a1 & a2 & i & ->); [done..|].
  rewrite IH by done. cbn [attempts]. rewrite length_app. simpl. lia.
Qed.

End disconnect.

(** ** The protocol invariant *)

Definition is_start (r : request) : bool :=
  match r with ReqStart _ => true | _ => false end.

(** The requests of an attempt that belong to the handshake. *)
Definition handshake (a : attempt) : list request :=
  filter (λ r, is_start r = false) (sent a).

(** Whether the attach [success] callback has run. *)
Definition has_handle (p : progress) : bool :=
  match p with
  | Listing | NoStream | Watching _ | Watched _ => true
  | _ => false
  end.

(** The handshake an attempt has sent when it stands at [p]. *)
Definition expected_handshake (p : progress) : list request :=
  match p with
  | Listing | NoStream => [ReqList]
  | Watching id | Watched id => [ReqList; ReqWatch id]
  | _ => []
  end.

(** An attempt is well formed: the variable [streaming] is assigned
    exactly from the attach [success] callback on; the handshake sent is
    the one its progress calls for; nothing was sent, answered or torn
    down without the handle. *)
Definition attempt_ok (a : attempt) : Prop :=
  streaming a = has_handle (progress_of a) ∧
  handshake a = expected_handshake (progress_of a) ∧
  (torn_down a = true → streaming a = true) ∧
  (streaming a = false → sent a = [] ∧ answering a = []).

#[export] Instance attempt_ok_dec a : Decision (attempt_ok a).
Proof. unfold attempt_ok. apply _. Defined.

Section protocol.
Implicit Types (w : page) (a : attempt) (c : callback) (n m k : nat).

Lemma handshake_send r a :
  handshake (send r a) = handshake a ++ (if is_start r then [] else [r]).
Proof.
  unfold handshake. attempt_simpl. rewrite filter_app, filter_cons, filter_nil.
  by destruct (is_start r).
Qed.

Lemma set_progress_ok p a :
  attempt_ok a → has_handle p = has_handle (progress_of a) →
  expected_handshake p = expected_handshake (progress_of a) →
  attempt_ok (set_progress p a).
Proof.
  intros (Hs & Hh & Ht & Hn) Hp Hp'. unfold attempt_ok, handshake in *.
  attempt_simpl. by rewrite Hp, Hp'.
Qed.

Lemma attach_ok a :
  attempt_ok a → progress_of a = Attaching →
  attempt_ok (a |> set_streaming |> send ReqList |> set_progress Listing).
Proof.
  intros (Hs & Hh & Ht & Hn) Hp. rewrite Hp in Hs. destruct (Hn Hs) as [Hsent _].
  unfold attempt_ok, handshake. attempt_simpl. by rewrite Hsent.
Qed.

Lemma watch_ok id a :
  attempt_ok a → progress_of a = Listing →
  attempt_ok (a |> send (ReqWatch id) |> set_progress (Watching id)).
Proof.
  intros (Hs & Hh & Ht & Hn) Hp. rewrite Hp in Hs, Hh.
  unfold attempt_ok, handshake in *. attempt_simpl.
  rewrite filter_app, Hh, Hs. by split_and!.
Qed.

Lemma live_streaming a : live a = true → streaming a = true.
Proof. unfold live. by intros [??]%andb_prop. Qed.

Lemma set_answering_ok l a :
  attempt_ok a → live a = true → attempt_ok (set_answering l a).
Proof.
  intros (Hs & Hh & Ht & Hn) Hl%live_streaming.
  unfold attempt_ok. attempt_simpl. split_and!; [done..|by rewrite Hl].
Qed.

Lemma send_start_ok sdp a :
  attempt_ok a → live a = true → attempt_ok (send (ReqStart sdp) a).
Proof.
  intros (Hs & Hh & Ht & Hn) Hl%live_streaming.
  unfold attempt_ok. rewrite handshake_send, app_nil_r. attempt_simpl.
  split_and!; [done..|by rewrite Hl].
Qed.

Lemma tear_down_ok a : attempt_ok a → live a = true → attempt_ok (tear_down a).
Proof.
  intros (Hs & Hh & Ht & Hn) Hl%live_streaming. unfold attempt_ok. by attempt_simpl.
Qed.

Lemma on_attempt_ok n f a w :
  Forall attempt_ok (attempts w) → attempts w !! n = Some a →
  (attempt_ok a → attempt_ok (f a)) →
  Forall attempt_ok (attempts (on_attempt n f w)).
Proof.
  intros Hw Ha Hf. page_simpl. apply Forall_alter; [done|].
  intros a' ?; by simplify_eq.
Qed.

Lemma startJanus_ok el name w :
  Forall attempt_ok (attempts w) →
  Forall attempt_ok (attempts (startJanus el name w)).
Proof.
  intros Hw. unfold startJanus, after_init. page_simpl.
  repeat case_match; page_simpl; rewrite ?alter_app_r_alt, ?Nat.sub_diag by done;
    apply Forall_app; split; try done; by apply Forall_singleton.
Qed.

Lemma check_both_ok w :
  Forall attempt_ok (attempts w) → Forall attempt_ok (attempts (check_both w)).
Proof.
  intros Hw. unfold check_both, check.
  repeat case_match; eauto using startJanus_ok.
Qed.

(** The updates of one attempt that the callbacks make, each under the
    guard of its callback. *)
Lemma attempt_updates_ok a :
  attempt_ok a →
  (∀ p, has_handle p = has_handle (progress_of a) →
        expected_handshake p = expected_handshake (progress_of a) →
        attempt_ok (set_progress p a)) ∧
  (progress_of a = Attaching →
   attempt_ok (a |> set_streaming |> send ReqList |> set_progress Listing)) ∧
  (∀ id, progress_of a = Listing →
         attempt_ok (a |> send (ReqWatch id) |> set_progress (Watching id))) ∧
  (live a = true →
   (∀ l, attempt_ok (set_answering l a)) ∧
   (∀ l sdp, attempt_ok (a |> set_answering l |> send (ReqStart sdp))) ∧
   attempt_ok (tear_down a)).
Proof.
  intros Hok. split_and!; intros;
    eauto using set_progress_ok, attach_ok, watch_ok.
  split_and!; intros;
    eauto using set_answering_ok, send_start_ok, tear_down_ok.
Qed.

(** Every callback keeps every attempt well formed. *)
Lemma sstep_ok c w :
  Forall attempt_ok (attempts w) → Forall attempt_ok (attempts (sstep c w)).
Proof.
  intros Hw. destruct (target c) as [n|] eqn:Hc.
  2:{ destruct c; simplify_eq/=; case_match; try done;
      unfold preStartJanus; page_simpl; by apply check_both_ok. }
  rewrite (sstep_targeted c n) by done.
  destruct (attempts w !! n) as [a|] eqn:Ha; [|done].
  pose proof (Forall_lookup_1 _ _ _ _ Hw Ha) as Hok.
  destruct (attempt_updates_ok a Hok) as (Hp & Hatt & Hwatch & Hlive).
  destruct c; simplify_eq/=; sstep_unfold; repeat case_match; try done;
    try (destruct Hlive as (?&?&?); [done|]);
    repeat match goal with
    | |- Forall _ (attempts (?f ?w)) =>
        lazymatch f with
        | on_attempt _ _ => fail
        | _ => change (attempts (f w)) with (attempts w)
        end
    end;
    try done; eapply on_attempt_ok; try done; intros _;
    eauto; apply Hp; by destruct (progress_of a).
Qed.

(** C5: the attempts follow the protocol.  In every state the page
    can reach, each attempt has sent exactly the handshake its progress
    calls for (nothing, then the list request, then the watch request for
    the selected stream), holds the plugin handle exactly from the attach
    callback on, and has sent or torn down nothing without it. *)
Theorem attempts_follow_protocol (cs : list callback) (b : bool) :
  Forall attempt_ok (attempts (splay cs (new_page b))).
Proof.
  apply (run_invariant sstep (λ w, Forall attempt_ok (attempts w)));
    [apply sstep_ok|by constructor].
Qed.

End protocol.

(** ** The flags and the promise of [startJanus] *)

(** Whether the promise that [startJanus] returned is resolved: the
    function ran to its end (index.js 252) or returned early (index.js
    127). *)
Definition resolved (p : progress) : bool :=
  match p with
  | AwaitingInit | AwaitingSession | Rejected => false
  | _ => true
  end.

(** The callback reports an ICE disconnection. *)
Definition is_disconnect (c : callback) : bool :=
  match c with
  | IceState _ state => bool_decide (state = "disconnected")
  | _ => false
  end.

(** Every attempt whose promise is resolved has the flag of its
    sub-stream set. *)
Definition flags_follow (w : page) : Prop :=
  Forall (λ a, resolved (progress_of a) = true →
               playing w !! streamName a = Some true) (attempts w).

Section flags.
Implicit Types (w : page) (a : attempt) (c : callback) (n m k : nat).
Implicit Types (pl : gmap string bool) (name : string).

Lemma insert_true_mono pl name name' :
  pl !! name = Some true → <[name' := true]> pl !! name = Some true.
Proof.
  intros Hp. destruct (decide (name' = name)) as [->|];
    [apply lookup_insert_eq|by rewrite lookup_insert_ne].
Qed.

(** Updating one attempt and possibly setting flags keeps the property,
    if the updated attempt satisfies it. *)
Lemma flags_alter pl pl' f n a (l : list attempt) :
  Forall (λ a, resolved (progress_of a) = true →
               pl !! streamName a = Some true) l →
  l !! n = Some a →
  (∀ name, pl !! name = Some true → pl' !! name = Some true) →
  (resolved (progress_of (f a)) = true → pl' !! streamName (f a) = Some true) →
  Forall (λ a, resolved (progress_of a) = true →
               pl' !! streamName a = Some true) (alter f n l).
Proof.
  intros Hl Ha Hmono Hf. apply Forall_lookup. intros i x Hx.
  destruct (decide (i = n)) as [->|Hi].
  - rewrite list_lookup_alter_eq, Ha in Hx. by simplify_eq/=.
  - rewrite list_lookup_alter_ne in Hx by done.
    intros ?. by eapply Hmono, (Forall_lookup_1 _ _ _ _ Hl Hx).
Qed.

Lemma startJanus_flags el name w :
  flags_follow w → flags_follow (startJanus el name w).
Proof.
  unfold flags_follow, startJanus, after_init. intros Hw. page_simpl.
  repeat case_match; page_simpl; rewrite ?alter_app_r_alt, ?Nat.sub_diag by done;
    (apply Forall_app; split; [|apply Forall_singleton]); attempt_simpl;
    try done; [|intros _; apply lookup_insert_eq].
  eapply Forall_impl; [done|]. intros a Ha ?. by apply insert_true_mono, Ha.
Qed.

Lemma check_both_flags w : flags_follow w → flags_follow (check_both w).
Proof.
  intros Hw. unfold check_both, check.
  repeat case_match; eauto using startJanus_flags.
Qed.

(** Every callback but a disconnection keeps the flags in step. *)
Lemma sstep_flags c w :
  is_disconnect c = false → flags_follow w → flags_follow (sstep c w).
Proof.
  intros Hd Hw. destruct (target c) as [n|] eqn:Hc.
  2:{ destruct c; simplify_eq/=; case_match; try done;
      by apply check_both_flags. }
  rewrite (sstep_targeted c n) by done.
  destruct (attempts w !! n) as [a|] eqn:Ha; [|done].
  pose proof (Forall_lookup_1 _ _ _ _ Hw Ha) as Hflag.
  destruct c; simplify_eq/=; sstep_unfold; repeat case_match; try done;
    unfold flags_follow in *; page_simpl; try done;
    (eapply flags_alter; [done..| |]); eauto using insert_true_mono;
    attempt_simpl; try done;
    try (intros _; apply lookup_insert_eq);
    intros _; apply Hflag; by destruct (progress_of a).
Qed.

(** C13: a silent failure is not retried.  [check] sets the flag of
    a sub-stream when the promise of [startJanus] resolves, which is when
    the session is created, before the plugin is attached and the list of
    streams requested.  So, as long as no ICE disconnection is reported,
    an attempt that failed to attach the plugin or found no stream with
    the wanted name leaves its flag set, and [check] does nothing for its
    sub-stream. *)
Theorem failed_attempt_not_retried (cs : list callback) b a el :
  Forall (λ c, is_disconnect c = false) cs →
  a ∈ attempts (splay cs (new_page b)) →
  progress_of a = NoStream ∨ progress_of a = AttachFailed →
  check el (streamName a) (splay cs (new_page b)) = splay cs (new_page b).
Proof.
  intros Hcs Ha Hp. apply check_playing.
  assert (flags_follow (splay cs (new_page b))) as Hw.
  { apply (run_invariant_where sstep (λ c, is_disconnect c = false));
      [apply sstep_flags|done|by constructor]. }
  apply (proj1 (Forall_forall _ _) Hw a Ha). by destruct Hp as [-> | ->].
Qed.

(** C27: a rejected attempt is retried.  When the session cannot be
    created the promise of [startJanus] is rejected: the error is logged,
    the flag of the sub-stream is left as it was, and if it was not set
    [check] starts a new attempt. *)
Theorem rejected_attempt_retried n a (w : page) :
  attempts w !! n = Some a → progress_of a = AwaitingSession →
  playing w !! streamName a = Some false →
  let w' := sstep (SessionError n) w in
  errors w' = S (errors w) ∧
  progress_of <$> attempts w' !! n = Some Rejected ∧
  ∀ el, check el (streamName a) w' = startJanus el (streamName a) w'.
Proof.
  intros Ha Hp Hflag w'. unfold w'.
  rewrite (sstep_targeted _ n), Ha, Hp by done. unfold session_error.
  split_and!; [done|page_simpl; by rewrite list_lookup_alter_eq, Ha|].
  intros el. by apply check_not_playing.
Qed.

End flags.

(** ** Answering an offer *)

Section answer.
Implicit Types (w : page) (a : attempt) (c : callback) (n m j : nat).

Lemma sstep_offer n a s e offer w :
  attempts w !! n = Some a → live a = true → negb s && e = false →
  sstep (Message n s e (Some offer)) w
  = on_attempt n (λ a, set_answering
                         (answering a ++ [(offers_stereo offer, false)]) a) w.
Proof.
  intros Ha Hl Hse. rewrite (sstep_targeted _ n), Ha by done.
  unfold onmessage. destruct (progress_of a); by rewrite Hl, Hse.
Qed.

Lemma sstep_answer n j a stereo sdp w :
  attempts w !! n = Some a → live a = true →
  answering a !! j = Some (stereo, false) →
  sstep (AnswerCreated n j sdp) w = answer_created n j stereo sdp w.
Proof.
  intros Ha Hl Hj. rewrite (sstep_targeted _ n), Ha by done.
  destruct (progress_of a); by rewrite Hj, Hl.
Qed.

(** C25: the answer to an offer.  A message that carries an offer
    and is not an error makes the attempt create an answer; when the
    answer is ready it is sent in a start request after [customizeSdp],
    whose stereo argument is whether the OFFER announces "stereo=1". *)
Theorem offer_answered n a s e offer sdp (w : page) :
  attempts w !! n = Some a → live a = true → negb s && e = false →
  sent <$> attempts (splay [Message n s e (Some offer);
                            AnswerCreated n (length (answering a)) sdp] w) !! n
  = Some (sent a ++ [ReqStart (customizeSdp (offers_stereo offer) sdp)]).
Proof.
  intros Ha Hl Hse. rewrite !run_cons, run_nil, (sstep_offer n a) by done.
  erewrite sstep_answer.
  - unfold answer_created. page_simpl.
    by rewrite !list_lookup_alter_eq, Ha.
  - page_simpl. by rewrite list_lookup_alter_eq, Ha.
  - done.
  - attempt_simpl. by rewrite lookup_app_r, Nat.sub_diag.
Qed.

Lemma sstep_answer_settled n j a stereo sdp w :
  attempts w !! n = Some a → answering a !! j = Some (stereo, true) →
  sstep (AnswerCreated n j sdp) w = w.
Proof.
  intros Ha Hj. rewrite (sstep_targeted _ n), Ha by done.
  destruct (progress_of a); by rewrite Hj.
Qed.

(** An answer is sent once.  After the answer of a
    [createAnswer] call was delivered, a second delivery for the same call
    changes nothing. *)
Theorem answer_sent_once n j a stereo sdp sdp' (w : page) :
  attempts w !! n = Some a → live a = true →
  answering a !! j = Some (stereo, false) →
  splay [AnswerCreated n j sdp; AnswerCreated n j sdp'] w
  = sstep (AnswerCreated n j sdp) w.
Proof.
  intros Ha Hl Hj. rewrite !run_cons, run_nil.
  rewrite (sstep_answer n j a stereo sdp) by done.
  eapply sstep_answer_settled; unfold answer_created; page_simpl.
  - by rewrite list_lookup_alter_eq, Ha.
  - simpl. apply list_lookup_insert_eq. by eapply lookup_lt_Some.
Qed.

End answer.

(** ** Initialisation and unsupported browsers *)

Section init.
Implicit Types (w : page) (a : attempt) (c : callback) (n m j : nat).

Lemma sstep_init_done n a w :
  attempts w !! n = Some a → progress_of a = AwaitingInit →
  sstep (InitDone n) w = init_done n a w.
Proof. intros Ha Hp. by rewrite (sstep_targeted _ n), Ha, Hp. Qed.

(** C37: [Janus.init] is not guarded against a second call.  The
    flag [janusInitialized] is set by the callback of [Janus.init], not by
    the call, so every attempt started before the first callback calls
    [Janus.init] again. *)
Theorem init_called_per_attempt el name (w : page) :
  janusInitialized w = false →
  init_calls (startJanus el name w) = S (init_calls w) ∧
  janusInitialized (startJanus el name w) = false.
Proof. intros Hi. unfold startJanus. page_simpl. by rewrite Hi. Qed.

Lemma init_done_unsupported n a w :
  webrtc w = false →
  init_done n a w
  = w |> set_initialized |> alert |> on_attempt n (set_progress Returned)
      |> check_then (streamName a).
Proof. intros Hrtc. unfold init_done, after_init. page_simpl. by rewrite Hrtc. Qed.

(** C36: a browser without WebRTC.  When the library is initialised
    and the browser lacks WebRTC, the attempt alerts, returns, and its
    promise resolves: the flag of its sub-stream is set, and [check]
    called in that state starts nothing for it. *)
Theorem unsupported_browser_gives_up n a (w : page) :
  webrtc w = false → attempts w !! n = Some a →
  progress_of a = AwaitingInit →
  let w' := sstep (InitDone n) w in
  alerts w' = S (alerts w) ∧
  progress_of <$> attempts w' !! n = Some Returned ∧
  playing w' !! streamName a = Some true ∧
  ∀ el, check el (streamName a) w' = w'.
Proof.
  intros Hrtc Ha Hp w'.
  assert (playing w' !! streamName a = Some true) as Hflag.
  { unfold w'. rewrite (sstep_init_done n a), init_done_unsupported by done.
    apply lookup_insert_eq. }
  split_and!; [| |done|by intros; apply check_playing];
    unfold w'; rewrite (sstep_init_done n a), init_done_unsupported by done;
    page_simpl; [done|by rewrite list_lookup_alter_eq, Ha].
Qed.

End init.

(** ** One attempt at a time *)

(** What a callback does to the attempt it is addressed to, for a
    browser that supports WebRTC or not: the part of [sstep] that concerns
    one attempt.  [attempt_step n] is the reaction of attempt [n], which
    ignores the callbacks of others. *)
Definition attempt_react (rtc : bool) (c : callback) (a : attempt) : attempt :=
  match c, progress_of a with
  | InitDone _, AwaitingInit =>
      set_progress (if rtc then AwaitingSession else Returned) a
  | SessionSuccess _, AwaitingSession => set_progress Attaching a
  | SessionError _, AwaitingSession => set_progress Rejected a
  | AttachSuccess _, Attaching =>
      a |> set_streaming |> send ReqList |> set_progress Listing
  | AttachError _, Attaching => set_progress AttachFailed a
  | ListResult _ list, Listing =>
      if torn_down a then a else
      match find_stream list (streamName a) with
      | None => set_progress NoStream a
      | Some stream =>
          a |> send (ReqWatch (item_id stream))
            |> set_progress (Watching (item_id stream))
      end
  | WatchAck _, Watching id =>
      if torn_down a then a else set_progress (Watched id) a
  | Message _ s e (Some offer), _ =>
      if live a && negb (negb s && e)
      then set_answering (answering a ++ [(offers_stereo offer, false)]) a
      else a
  | AnswerCreated _ j sdp, _ =>
      match answering a !! j with
      | Some (stereo, false) =>
          if live a
          then a |> set_answering (<[j := (stereo, true)]> (answering a))
                 |> send (ReqStart (customizeSdp stereo sdp))
          else a
      | _ => a
      end
  | AnswerError _ j, _ =>
      match answering a !! j with
      | Some (stereo, false) =>
          if live a
          then set_answering (<[j := (stereo, true)]> (answering a)) a
          else a
      | _ => a
      end
  | IceState _ state, _ =>
      if live a && bool_decide (state = "disconnected") then tear_down a else a
  | _, _ => a
  end.

Definition attempt_step (rtc : bool) (n : nat) (c : callback) (a : attempt)
    : attempt :=
  if bool_decide (target c = Some n) then attempt_react rtc c a else a.

Section projection.
Implicit Types (w : page) (a : attempt) (c : callback) (n m k : nat).
Implicit Types (cs : list callback).

Lemma startJanus_webrtc el name w : webrtc (startJanus el name w) = webrtc w.
Proof. unfold startJanus, after_init. page_simpl. by repeat case_match. Qed.

Lemma check_both_webrtc w : webrtc (check_both w) = webrtc w.
Proof.
  unfold check_both, check. repeat case_match; by rewrite ?startJanus_webrtc.
Qed.

Lemma sstep_webrtc c w : webrtc (sstep c w) = webrtc w.
Proof.
  destruct (target c) as [n|] eqn:Hc.
  - rewrite (sstep_targeted c n) by done.
    destruct (attempts w !! n) as [a|]; [|done].
    destruct c; simplify_eq/=; sstep_unfold; by repeat case_match.
  - destruct c; simplify_eq/=; case_match; try done;
      unfold preStartJanus; page_simpl; apply check_both_webrtc.
Qed.

Lemma splay_webrtc cs w : webrtc (splay cs w) = webrtc w.
Proof.
  revert w. induction cs as [|c cs IH]; intros w; [done|].
  by rewrite run_cons, IH, sstep_webrtc.
Qed.

(** A call of [startJanus] leaves the attempts made before it alone. *)
Lemma startJanus_lookup el name n a w :
  attempts w !! n = Some a → attempts (startJanus el name w) !! n = Some a.
Proof.
  intros Ha. pose proof (lookup_lt_Some _ _ _ Ha) as Hn.
  unfold startJanus, after_init. page_simpl.
  repeat case_match; page_simpl;
    rewrite ?list_lookup_alter_ne by lia; by rewrite lookup_app_l.
Qed.

Lemma check_both_lookup n a w :
  attempts w !! n = Some a → attempts (check_both w) !! n = Some a.
Proof.
  intros Ha. unfold check_both, check.
  repeat case_match; eauto using startJanus_lookup.
Qed.

(** One callback, seen from attempt [n]. *)
Lemma sstep_attempt c n a w :
  attempts w !! n = Some a →
  attempts (sstep c w) !! n = Some (attempt_step (webrtc w) n c a).
Proof.
  intros Ha. unfold attempt_step, attempt_react. case_bool_decide as Hc.
  - rewrite (sstep_targeted c n), Ha by done.
    destruct c; simplify_eq/=; sstep_unfold;
      repeat (case_match; simplify_eq/=); page_simpl;
      by rewrite ?list_lookup_alter_eq, ?Ha.
  - destruct (target c) as [m|] eqn:Hm.
    + rewrite (sstep_other_attempt c m) by congruence. done.
    + destruct c; simplify_eq/=; case_match;
        unfold preStartJanus; page_simpl; eauto using check_both_lookup.
Qed.

Lemma splay_attempt cs n a w :
  attempts w !! n = Some a →
  attempts (splay cs w) !! n = Some (run (attempt_step (webrtc w) n) cs a).
Proof.
  revert w a. induction cs as [|c cs IH]; intros w a Ha; [done|].
  rewrite !run_cons. erewrite IH by by apply sstep_attempt.
  by rewrite sstep_webrtc.
Qed.

Lemma attempt_step_here rtc n c a :
  target c = Some n → attempt_step rtc n c a = attempt_react rtc c a.
Proof. intros Hc. unfold attempt_step. by rewrite bool_decide_eq_true_2. Qed.

(** Only the callbacks addressed to an attempt move it. *)
Lemma attempt_run_filter rtc n cs a :
  run (attempt_step rtc n) cs a
  = run (attempt_step rtc n) (filter (λ c, target c = Some n) cs) a.
Proof.
  revert a. induction cs as [|c cs IH]; intros a; [done|].
  rewrite filter_cons. case_decide as Hc.
  - by rewrite !run_cons, IH.
  - rewrite run_cons, IH. unfold attempt_step at 2.
    by rewrite bool_decide_eq_false_2.
Qed.

(** C24: attempts evolve independently.  In every run of the page,
    whatever timer ticks, further attempts and callbacks of other attempts
    are interleaved, the state of attempt [n] is the result of applying
    to it, in order, the callbacks that are addressed to it. *)
Theorem attempt_projection (cs : list callback) n a (w : page) :
  attempts w !! n = Some a →
  attempts (splay cs w) !! n
  = Some (run (attempt_step (webrtc w) n)
              (filter (λ c, target c = Some n) cs) a).
Proof. intros Ha. by rewrite <-attempt_run_filter, (splay_attempt cs n a). Qed.

(** The callbacks of an attempt that goes well, in protocol order. *)
Definition protocol_order (n : nat) (l : option (list stream_item))
    (s e : bool) (offer sdp : string) : list callback :=
  [InitDone n; SessionSuccess n; AttachSuccess n; ListResult n l; WatchAck n;
   Message n s e (Some offer); AnswerCreated n 0 sdp].

Lemma protocol_order_run n l s e offer sdp el name item :
  find_stream l name = Some item → negb s && e = false →
  run (attempt_step true n) (protocol_order n l s e offer sdp)
      (Attempt el name AwaitingInit false [] [] false)
  = Attempt el name (Watched (item_id item)) true
            [ReqList; ReqWatch (item_id item);
             ReqStart (customizeSdp (offers_stereo offer) sdp)]
            [(offers_stereo offer, true)] false.
Proof.
  intros Hfind Hse. unfold protocol_order.
  repeat (rewrite run_cons, attempt_step_here by done;
          cbn [attempt_react]; attempt_simpl; rewrite ?Hfind, ?Hse;
          cbn [live andb negb lookup list_lookup]; attempt_simpl).
  by rewrite run_nil.
Qed.

(** C6: the attach sequence.  In a browser with WebRTC, an attempt
    whose callbacks arrive in protocol order (initialised, session
    created, plugin attached, list received, watch acknowledged, offer
    received, answer created), whatever else happens in between, and whose
    list has a stream matching the wanted name, ends up watching the
    first such stream, having sent the list request, the watch request
    for that stream and the start request with the rewritten answer. *)
Theorem attach_sequence_completes (cs : list callback) n el name l item
    s e offer sdp (w : page) :
  webrtc w = true →
  attempts w !! n = Some (Attempt el name AwaitingInit false [] [] false) →
  filter (λ c, target c = Some n) cs = protocol_order n l s e offer sdp →
  find_stream l name = Some item → negb s && e = false →
  attempts (splay cs w) !! n
  = Some (Attempt el name (Watched (item_id item)) true
                  [ReqList; ReqWatch (item_id item);
                   ReqStart (customizeSdp (offers_stereo offer) sdp)]
                  [(offers_stereo offer, true)] false).
Proof.
  intros Hrtc Ha Hcs Hfind Hse.
  rewrite (splay_attempt cs n _ w Ha), attempt_run_filter, Hcs, Hrtc.
  f_equal. by apply protocol_order_run.
Qed.

End projection.

(** ** The theorems at concrete pages *)

(** Both sessions created, the video attempt watching stream 1. *)
Definition connected : page :=
  splay [PreStart; InitDone 0; InitDone 1; SessionSuccess 0; SessionSuccess 1;
         AttachSuccess 0;
         ListResult 0 (Some [StreamItem 1 "Desktop Video";
                             StreamItem 2 "Desktop Audio"]);
         WatchAck 0] (new_page true).

(** The video attempt of [connected]. *)
Definition video_attempt : attempt :=
  Attempt VideoEl "video" (Watched 1) true [ReqList; ReqWatch 1] [] false.

Lemma tick_when_playing_witness :
  playing connected !! "video" = Some true ∧
  playing connected !! "audio" = Some true ∧
  sstep Tick connected = connected.
Proof. split_and!; [by_compute..|]. apply tick_when_playing; by_compute. Defined.

Lemma substreams_independent_witness :
  attempts connected !! 0%nat = Some video_attempt ∧
  playing (sstep (IceState 0 "disconnected") connected) !! "audio"
  = playing connected !! "audio" ∧
  attempts (sstep (IceState 0 "disconnected") connected) !! 1%nat
  = attempts connected !! 1%nat.
Proof.
  split; [by_compute|].
  apply (substreams_independent _ 0 video_attempt); by_compute.
Defined.

Lemma ice_disconnect_restarts_witness :
  let w' := sstep (IceState 0 "disconnected") connected in
  live video_attempt = true ∧ retry_timer connected = true ∧
  playing w' !! "video" = Some false ∧
  torn_down <$> attempts w' !! 0%nat = Some true ∧
  (∀ el, check el "video" w' = startJanus el "video" w') ∧
  splay [IceState 0 "disconnected"; Tick] connected = check_both w'.
Proof.
  intros w'. split_and!; [done..| | | |];
    apply (ice_disconnect_restarts 0 video_attempt connected); by_compute.
Defined.

Lemma ticks_pile_up_attempts_witness :
  let w := sstep PreStart (new_page true) in
  retry_timer w = true ∧ playing w !! "video" = Some false ∧
  length (attempts (splay (replicate 3 Tick) w))
  = (length (attempts w) + 2 * 3)%nat.
Proof.
  intros w. split_and!; [done|by_compute|].
  apply ticks_pile_up_attempts; by_compute.
Defined.

Lemma failed_attempt_not_retried_witness :
  let cs := [PreStart; InitDone 0; InitDone 1; SessionSuccess 0;
             AttachSuccess 0; ListResult 0 (Some [StreamItem 7 "Lobby Audio"])] in
  let a := Attempt VideoEl "video" NoStream true [ReqList] [] false in
  a ∈ attempts (splay cs (new_page true)) ∧
  check VideoEl "video" (splay cs (new_page true)) = splay cs (new_page true).
Proof.
  intros cs a. split; [by_compute|].
  apply (failed_attempt_not_retried cs true a); [by_compute..|by left].
Defined.

Lemma rejected_attempt_retried_witness :
  let w := splay [PreStart; InitDone 0] (new_page true) in
  let w' := sstep (SessionError 0) w in
  playing w !! "video" = Some false ∧
  errors w' = 1%nat ∧
  progress_of <$> attempts w' !! 0%nat = Some Rejected ∧
  ∀ el, check el "video" w' = startJanus el "video" w'.
Proof.
  intros w w'. split; [by_compute|].
  apply (rejected_attempt_retried 0
           (Attempt VideoEl "video" AwaitingSession false [] [] false) w);
    by_compute.
Defined.

Lemma offer_answered_witness :
  live video_attempt = true ∧
  sent <$> attempts (splay [Message 0 true false (Some "a=fmtp:111 stereo=1");
                            AnswerCreated 0 0 "a=fmtp:111 useinbandfec=1"]
                           connected) !! 0%nat
  = Some [ReqList; ReqWatch 1;
          ReqStart "a=fmtp:111 useinbandfec=1;stereo=1"].
Proof.
  split; [done|].
  apply (offer_answered 0 video_attempt true false); by_compute.
Defined.

Lemma answer_sent_once_witness :
  let w := sstep (Message 0 true false (Some "v=0")) connected in
  (answering <$> attempts w !! 0%nat) = Some [(false, false)] ∧
  splay [AnswerCreated 0 0 "v=0"; AnswerCreated 0 0 "v=1"] w
  = sstep (AnswerCreated 0 0 "v=0") w.
Proof.
  intros w. split; [by_compute|].
  apply (answer_sent_once 0 0 (set_answering [(false, false)] video_attempt)
           false); by_compute.
Defined.

Lemma init_called_per_attempt_witness :
  init_calls (check_both (new_page true)) = 2%nat ∧
  init_calls (startJanus AudioEl "audio"
                (startJanus VideoEl "video" (new_page true)))
  = S (init_calls (startJanus VideoEl "video" (new_page true))) ∧
  janusInitialized (startJanus AudioEl "audio"
                      (startJanus VideoEl "video" (new_page true))) = false.
Proof. split; [done|]. by apply init_called_per_attempt. Defined.

Lemma unsupported_browser_gives_up_witness :
  let w := sstep PreStart (new_page false) in
  let w' := sstep (InitDone 0) w in
  webrtc w = false ∧
  alerts w' = 1%nat ∧
  progress_of <$> attempts w' !! 0%nat = Some Returned ∧
  playing w' !! "video" = Some true ∧
  ∀ el, check el "video" w' = w'.
Proof.
  intros w w'. split; [done|].
  apply (unsupported_browser_gives_up 0
           (Attempt VideoEl "video" AwaitingInit false [] [] false) w);
    by_compute.
Defined.

(** The page after [preStartJanus]: two attempts wait for [Janus.init]. *)
Definition starting : page := sstep PreStart (new_page true).

Lemma attempt_projection_witness :
  attempts (splay [Tick; InitDone 1; InitDone 0; SessionError 1;
                   SessionSuccess 0; Tick] starting) !! 0%nat
  = Some (Attempt VideoEl "video" Attaching false [] [] false).
Proof.
  by rewrite (attempt_projection _ 0
                (Attempt VideoEl "video" AwaitingInit false [] [] false)).
Defined.

Lemma attach_sequence_completes_witness :
  let list := Some [StreamItem 1 "Desktop Audio"; StreamItem 2 "Desktop VIDEO"] in
  let cs := [InitDone 0; Tick; InitDone 1; SessionSuccess 0; SessionSuccess 1;
             AttachSuccess 0; ListResult 0 list; IceState 1 "connected";
             WatchAck 0; Message 0 true false (Some "a=fmtp:111 stereo=1");
             Tick; AnswerCreated 0 0 "a=fmtp:111 useinbandfec=1"] in
  find_stream list "video" = Some (StreamItem 2 "Desktop VIDEO") ∧
  attempts (splay cs starting) !! 0%nat
  = Some (Attempt VideoEl "video" (Watched 2) true
                  [ReqList; ReqWatch 2;
                   ReqStart "a=fmtp:111 useinbandfec=1;stereo=1"]
                  [(true, true)] false).
Proof.
  intros list cs. split; [by vm_compute|].
  by apply (attach_sequence_completes cs 0 VideoEl "video" list
              (StreamItem 2 "Desktop VIDEO") true false
              "a=fmtp:111 stereo=1" "a=fmtp:111 useinbandfec=1" starting).
Defined.
