(* ===== verification/Recovery.v ===== *)
(** * Recovery: the retry loop brings a sub-stream back

    The 5 s timer of [preStartJanus] (index.js 404-407) never stops, so
    what the retry loop achieves is a property of runs without an end: a
    schedule [σ : nat → option callback] of the callbacks delivered to
    the sessions, with [None] at the instants at which the event loop
    delivers something else ([Script] projects the schedules of the page
    on such schedules).  This file proves that [check] (index.js 387-399)
    and [startJanus] (index.js 114-252) bring a sub-stream back whenever
    the signaling library cooperates.

    The environment is described by three hypotheses on the schedule:
    the timer keeps ticking ([infinitely_often]); the library answers
    what an attempt waits for ([answered]); and it reports no failure
    ([helpful]): no session or attach error, a list that holds the wanted
    stream, no ICE disconnection.  The page starts [recoverable]: a
    sub-stream whose flag is set has an attempt on its way.  That is the
    case of the new page, and of the page after a disconnection, which
    clears the flag; it is not the case after a silent failure, which
    leaves the flag set and is never retried.

    The proof is by a variant: [todo] counts the answers an attempt still
    waits for; a helpful callback never raises it, and the answer to the
    attempt lowers it.  The second part shows that the retry loop
    settles: once both sub-streams are established, the ticks of the
    timer start nothing. *)

From stdpp Require Import gmap strings.
From S2P Require Import Prelude JsCore StreamSelect Session.

#[local] Set Warnings "-clear-no-such-hyp".

(** ** The cooperating library *)

(** [c] is the callback that attempt [k] waits for when it stands at
    [p]. *)
Definition answers (k : nat) (p : progress) (c : callback) : bool :=
  match p, c with
  | AwaitingInit, InitDone n
  | AwaitingSession, SessionSuccess n
  | Attaching, AttachSuccess n
  | Listing, ListResult n _
  | Watching _, WatchAck n => bool_decide (n = k)
  | _, _ => false
  end.

(** [c] reports no failure to the attempt [a]: it is not an error of the
    session or the plugin, the list it brings holds the stream [a] looks
    for, and it is not an ICE disconnection. *)
Definition helps (a : attempt) (c : callback) : bool :=
  match c with
  | SessionError _ | AttachError _ => false
  | ListResult _ list => bool_decide (is_Some (find_stream list (streamName a)))
  | IceState _ state => negb (bool_decide (state = "disconnected"))
  | _ => true
  end.

(** [c] reports no failure to the attempt it is addressed to, if any. *)
Definition helpful (w : page) (c : callback) : bool :=
  match target c ≫= λ n, attempts w !! n with
  | Some a => helps a c
  | None => true
  end.

(** An instant of a schedule delivers a callback to the sessions or
    nothing, when the event loop is busy with something else. *)
Definition ostep (o : option callback) (w : page) : page :=
  from_option (λ c, sstep c w) w o.

Definition ohelpful (w : page) (o : option callback) : bool :=
  from_option (helpful w) true o.

Definition oanswers (k : nat) (p : progress) (o : option callback) : bool :=
  from_option (answers k p) false o.

(** The number of answers an attempt at [p] still waits for. *)
Definition todo (p : progress) : nat :=
  match p with
  | AwaitingInit => 5
  | AwaitingSession => 4
  | Attaching => 3
  | Listing => 2
  | Watching _ => 1
  | _ => 0
  end.

(** The attempt ended without a stream: the browser has no WebRTC, the
    session or the plugin could not be had, or no stream matched. *)
Definition failed (p : progress) : bool :=
  match p with
  | Returned | Rejected | AttachFailed | NoStream => true
  | _ => false
  end.

(** The attempt has neither failed nor been torn down. *)
Definition sound (a : attempt) : bool :=
  negb (torn_down a) && negb (failed (progress_of a)).

(** The attempt went through the whole attach sequence, the answer to its
    watch request included, and was not torn down. *)
Definition watched (a : attempt) : bool :=
  negb (torn_down a) &&
  match progress_of a with
  | Watched _ => true
  | _ => false
  end.

(** The sub-stream [name] is established: an attempt for it went through
    the whole attach sequence and still holds its handle. *)
Definition established (name : string) (w : page) : Prop :=
  ∃ k a, attempts w !! k = Some a ∧ streamName a = name ∧ watched a = true.

(** The page can still connect [name]: if the flag of the sub-stream is
    set, which keeps [check] from starting an attempt, then an attempt
    for it has its session and has not failed. *)
Definition recoverable (name : string) (w : page) : Prop :=
  playing w !! name = Some true →
  ∃ k a, attempts w !! k = Some a ∧ streamName a = name ∧
         sound a = true ∧ todo (progress_of a) ≤ 3.

(** The library answers: whatever an attempt waits for at some instant,
    a callback that answers what it then waits for is delivered at that
    instant or later. *)
Definition answered (σ : nat → option callback) (w : page) : Prop :=
  ∀ n k a,
    attempts (state_at ostep σ w n) !! k = Some a →
    todo (progress_of a) ≠ 0 →
    ∃ m a', n ≤ m ∧ attempts (state_at ostep σ w m) !! k = Some a' ∧
            oanswers k (progress_of a') (σ m) = true.

(** What the proof keeps of the page: WebRTC is supported, the timer
    runs, the attempts are well formed, and [name] is recoverable. *)
Definition recovering (name : string) (w : page) : Prop :=
  webrtc w = true ∧ retry_timer w = true ∧
  Forall attempt_ok (attempts w) ∧ recoverable name w.

(** ** One attempt *)

Section attempt.
Implicit Types (a : attempt) (c : callback) (k n : nat) (p : progress).

(** A sound attempt that waits for nothing is established. *)
Lemma sound_done a :
  sound a = true → todo (progress_of a) = 0 → watched a = true.
Proof.
  unfold sound, watched, failed. intros Hs Hp.
  by destruct (torn_down a), (progress_of a).
Qed.

(** An attempt that waits for its session was not torn down. *)
Lemma attempt_ok_sound a :
  attempt_ok a → has_handle (progress_of a) = false →
  progress_of a ∉ [Returned; Rejected; AttachFailed] → sound a = true.
Proof.
  intros (Hs & _ & Htd & _) Hh Hp. rewrite Hh in Hs.
  unfold sound, failed.
  destruct (torn_down a); [by rewrite Htd in Hs|].
  destruct (progress_of a); simplify_eq/=; set_solver.
Qed.

(** A callback that reports no failure keeps an attempt sound, keeps its
    name and does not add to what it waits for. *)
Lemma helped_step k c a :
  sound a = true → (target c = Some k → helps a c = true) →
  let a' := attempt_step true k c a in
  sound a' = true ∧ streamName a' = streamName a ∧
  todo (progress_of a') ≤ todo (progress_of a).
Proof.
  intros Ha Hc. unfold attempt_step. case_bool_decide as Hk; [|by simpl].
  specialize (Hc Hk). revert Ha Hc.
  destruct a as [el name p st se an td].
  unfold sound, failed, helps, attempt_react, live.
  destruct c, p, td; simpl; intros ? Hc;
    repeat (case_match; simpl); simplify_eq/=;
    split_and?; try done; try lia.
  all: by destruct (bool_decide _), st.
Qed.

(** The answer to a sound attempt takes it one step further. *)
Lemma answered_step k c a :
  sound a = true → helps a c = true → answers k (progress_of a) c = true →
  todo (progress_of (attempt_step true k c a)) < todo (progress_of a).
Proof.
  destruct a as [el name p st se an td].
  unfold sound, failed, helps, answers, attempt_step, attempt_react.
  destruct c, p, td; simpl; intros ? Hc Hk;
    try done; apply bool_decide_eq_true in Hk as ->;
    rewrite bool_decide_eq_true_2 by done; simpl;
    repeat (case_match; simpl); simplify_eq/=; try lia.
  all: by apply bool_decide_eq_true, is_Some_None in Hc.
Qed.

End attempt.

(** ** The page under a helpful callback *)

Section page.
Implicit Types (w : page) (a : attempt) (c : callback) (k n : nat).
Implicit Types (name : string).

Lemma helpful_helps c k a w :
  helpful w c = true → attempts w !! k = Some a →
  target c = Some k → helps a c = true.
Proof. unfold helpful. intros Hc Ha Hk. by rewrite Hk in Hc; simpl in Hc; rewrite Ha in Hc. Qed.

Lemma sstep_retry_timer c w :
  retry_timer w = true → retry_timer (sstep c w) = true.
Proof.
  intros Hr. destruct (target c) as [n|] eqn:Hc.
  - rewrite (sstep_targeted c n) by done.
    destruct (attempts w !! n) as [a|]; [|done].
    destruct c; simplify_eq/=; sstep_unfold; by repeat case_match.
  - destruct c; simplify_eq/=; rewrite Hr; [done|].
    unfold check_both, check, startJanus, after_init.
    by repeat case_match.
Qed.

(** With WebRTC, starting an attempt sets no flag. *)
Lemma startJanus_playing el name w :
  webrtc w = true → playing (startJanus el name w) = playing w.
Proof. intros Hw. rewrite startJanus_effect by done. by case_match. Qed.

Lemma check_both_playing w :
  webrtc w = true → playing (check_both w) = playing w.
Proof.
  intros Hw. unfold check_both, check.
  repeat case_match; rewrite ?startJanus_playing;
    by rewrite ?startJanus_webrtc.
Qed.

(** A flag is set by the session of an attempt for its sub-stream, and
    by nothing else. *)
Lemma sstep_sets_playing c n a name w :
  webrtc w = true → target c = Some n → attempts w !! n = Some a →
  playing (sstep c w) !! name = Some true →
  playing w !! name = Some true ∨
  c = SessionSuccess n ∧ progress_of a = AwaitingSession ∧
  name = streamName a.
Proof.
  intros Hw Hc Ha. rewrite (sstep_targeted c n), Ha by done.
  destruct c; simplify_eq/=; sstep_unfold;
    repeat case_match; page_simpl; auto;
    try (by rewrite Hw in *);
    (destruct (decide (name = streamName a)) as [->|];
       [rewrite lookup_insert_eq|rewrite lookup_insert_ne by done]); auto;
    by intros ?; simplify_eq.
Qed.

(** A sound attempt stays sound under a helpful callback. *)
Lemma helpful_attempt c k a w :
  webrtc w = true → helpful w c = true → attempts w !! k = Some a →
  sound a = true →
  ∃ a', attempts (sstep c w) !! k = Some a' ∧ sound a' = true ∧
        streamName a' = streamName a ∧
        todo (progress_of a') ≤ todo (progress_of a).
Proof.
  intros Hw Hc Ha Hs. eexists. split; [by apply sstep_attempt|].
  rewrite Hw. apply helped_step; eauto using helpful_helps.
Qed.

Lemma sstep_recoverable name c w :
  helpful w c = true → recovering name w → recoverable name (sstep c w).
Proof.
  intros Hc (Hw & Hr & Hok & Hrec) Hp.
  assert (playing w !! name = Some true → ∃ k a,
            attempts (sstep c w) !! k = Some a ∧ streamName a = name ∧
            sound a = true ∧ todo (progress_of a) ≤ 3) as Hkeep.
  { intros (k & a & Ha & Hname & Hs & Ht)%Hrec.
    destruct (helpful_attempt c k a w) as (a' & ? & ? & ? & ?); [done..|].
    exists k, a'. split_and!; [done|congruence|done|lia]. }
  destruct (target c) as [n|] eqn:Htc.
  - destruct (attempts w !! n) as [a|] eqn:Ha.
    2:{ apply Hkeep. by rewrite (sstep_targeted c n), Ha in Hp. }
    destruct (sstep_sets_playing c n a name w) as [?|(-> & Hpa & ->)];
      [done..|by apply Hkeep|].
    exists n, (set_progress Attaching a).
    rewrite (sstep_attempt _ n a), Hw by done.
    unfold attempt_step, attempt_react. rewrite bool_decide_eq_true_2, Hpa by done.
    split_and!; [done..| |simpl; lia].
    pose proof (Forall_lookup_1 _ _ _ _ Hok Ha) as Ha_ok.
    assert (sound a = true) as Hs
      by (apply attempt_ok_sound; rewrite ?Hpa; [done..|set_solver]).
    revert Hs. unfold sound, failed. rewrite Hpa. by attempt_simpl.
  - apply Hkeep. destruct c; simplify_eq/=; rewrite Hr in Hp; [done|].
    by rewrite check_both_playing in Hp.
Qed.

(** A helpful callback keeps the page recovering. *)
Lemma sstep_recovering name c w :
  helpful w c = true → recovering name w → recovering name (sstep c w).
Proof.
  intros Hc Hw. pose proof Hw as (Hrtc & Hr & Hok & _).
  split_and!; [by rewrite sstep_webrtc|by apply sstep_retry_timer|
               by apply sstep_ok|by apply sstep_recoverable].
Qed.

(** [check] starts an attempt for a sub-stream whose flag is not set. *)
Lemma check_starts el name w :
  webrtc w = true → playing w !! name ≠ Some true →
  ∃ a, attempts (check el name w) !! length (attempts w) = Some a ∧
       streamName a = name ∧ sound a = true.
Proof.
  intros Hw Hp. unfold check.
  destruct (playing w !! name) as [[]|]; [done|simpl..];
    rewrite startJanus_effect by done; case_match; page_simpl;
    rewrite lookup_app_r, Nat.sub_diag by done; by eexists.
Qed.

(** A tick starts an attempt for each of the two sub-streams whose flag
    is not set. *)
Lemma tick_starts name w :
  name ∈ ["video"; "audio"] → recovering name w →
  playing w !! name ≠ Some true →
  ∃ k a, attempts (sstep Tick w) !! k = Some a ∧ streamName a = name ∧
         sound a = true.
Proof.
  intros Hname (Hw & Hr & _) Hp. rewrite sstep_tick by done.
  unfold check_both.
  apply elem_of_cons in Hname as [->|Hname%list_elem_of_singleton].
  - destruct (check_starts VideoEl "video" w) as (a & Ha & ? & ?); [done..|].
    exists (length (attempts w)), a. split; [|done].
    unfold check at 1. case_match; eauto using startJanus_lookup.
  - subst name. set (w' := check VideoEl "video" w).
    assert (webrtc w' = true) as Hw'
      by (unfold w', check; case_match; by rewrite ?startJanus_webrtc).
    assert (playing w' = playing w) as Hp'
      by (unfold w', check; case_match; by rewrite ?startJanus_playing).
    destruct (check_starts AudioEl "audio" w') as (a & Ha & ? & ?);
      [done|by rewrite Hp'|by eauto].
Qed.

(** The same for an instant that may deliver nothing. *)
Lemma ohelpful_attempt o k a w :
  webrtc w = true → ohelpful w o = true → attempts w !! k = Some a →
  sound a = true →
  ∃ a', attempts (ostep o w) !! k = Some a' ∧ sound a' = true ∧
        streamName a' = streamName a ∧
        todo (progress_of a') ≤ todo (progress_of a).
Proof.
  destruct o as [c|]; [apply helpful_attempt|]. intros _ _ Ha Hs.
  by exists a.
Qed.

Lemma ostep_recovering name o w :
  ohelpful w o = true → recovering name w → recovering name (ostep o w).
Proof. destruct o as [c|]; [apply sstep_recovering|done]. Qed.

End page.

(** ** Schedules *)

Section schedule.
Context (σ : nat → option callback) (w : page) (name : string).
Hypothesis Hhelp : ∀ n, ohelpful (state_at ostep σ w n) (σ n) = true.
Hypothesis Hrec : recovering name w.
Implicit Types (a : attempt) (k n m : nat).

Abbreviation at_instant n := (state_at ostep σ w n).

Lemma recovering_always n : recovering name (at_instant n).
Proof.
  apply (schedule_invariant ostep (λ w o, ohelpful w o = true));
    auto using ostep_recovering.
Qed.

(** A sound attempt stays sound, and waits for no more than it did. *)
Lemma sound_later k a n m :
  attempts (at_instant n) !! k = Some a → sound a = true → n ≤ m →
  ∃ a', attempts (at_instant m) !! k = Some a' ∧ sound a' = true ∧
        streamName a' = streamName a ∧
        todo (progress_of a') ≤ todo (progress_of a).
Proof.
  intros Ha Hs Hnm. induction Hnm as [|m Hnm (a' & Ha' & ? & ? & ?)];
    [by exists a|]. simpl.
  destruct (ohelpful_attempt (σ m) k a' (at_instant m))
    as (a'' & ? & ? & ? & ?); [apply recovering_always|done..|].
  exists a''. split_and!; [done..|congruence|lia].
Qed.

Hypothesis Hans : answered σ w.

(** When the library answers, a sound attempt that waits is, at some
    later instant, waiting for less. *)
Lemma sound_advances k a n :
  attempts (at_instant n) !! k = Some a → sound a = true →
  todo (progress_of a) ≠ 0 →
  ∃ m a', n ≤ m ∧ attempts (at_instant m) !! k = Some a' ∧
          sound a' = true ∧ streamName a' = streamName a ∧
          todo (progress_of a') < todo (progress_of a).
Proof.
  intros Ha Hs Ht. destruct (Hans n k a Ha Ht) as (m & a1 & Hnm & Ha1 & Hc).
  destruct (sound_later k a n m) as (a1' & Ha1' & Hs1 & Hname1 & Ht1);
    [done..|]. simplify_eq.
  pose proof (recovering_always m) as (Hw & _).
  pose proof (Hhelp m) as Hhm.
  destruct (σ m) as [c|] eqn:Hσ; [|done]. cbn [oanswers ohelpful from_option] in *.
  assert (target c = Some k) as Hk.
  { revert Hc. unfold answers.
    destruct (progress_of a1), c; try done;
      by intros ->%bool_decide_eq_true. }
  pose proof (helpful_helps _ _ _ _ Hhm Ha1 Hk) as Hh.
  exists (S m), (attempt_step true k c a1). cbn [state_at].
  rewrite Hσ. cbn [ostep from_option].
  rewrite (sstep_attempt _ k a1), Hw by done.
  destruct (helped_step k c a1) as (? & ? & ?); [done..|].
  split_and!; [lia|done|done|congruence|].
  pose proof (answered_step k c a1 Hs1 Hh Hc). lia.
Qed.

(** So it is established in the end. *)
Lemma sound_connects k a n :
  attempts (at_instant n) !! k = Some a → sound a = true →
  streamName a = name → ∃ m, n ≤ m ∧ established name (at_instant m).
Proof.
  remember (todo (progress_of a)) as d eqn:Hd. revert n a Hd.
  induction d as [d IH] using lt_wf_ind. intros n a -> Ha Hs Hname.
  destruct (decide (todo (progress_of a) = 0)) as [Ht|Ht].
  { exists n. split; [done|]. exists k, a. eauto using sound_done. }
  destruct (sound_advances k a n) as (m & a' & Hnm & Ha' & Hs' & Hn' & Ht');
    [done..|].
  destruct (IH _ Ht' m a' eq_refl Ha' Hs') as (m' & ? & ?); [congruence|].
  exists m'. split; [lia|done].
Qed.

End schedule.

(** ** Liveness *)

Section liveness.
Implicit Types (σ : nat → option callback) (w : page) (a : attempt) (k n m : nat).
Implicit Types (name : string).

(** From a page that is recovering, the sub-stream is established at some
    instant of every schedule in which the timer keeps ticking and the
    library answers without reporting a failure. *)
Lemma cooperation_connects σ w name :
  name ∈ ["video"; "audio"] → recovering name w →
  (∀ n, ohelpful (state_at ostep σ w n) (σ n) = true) →
  infinitely_often (λ o, o = Some Tick) σ → answered σ w →
  ∃ m, established name (state_at ostep σ w m).
Proof.
  intros Hname Hrec Hhelp Htick Hans.
  destruct (Htick 0) as (m & _ & Hm).
  pose proof (recovering_always σ w name Hhelp Hrec m) as Hrm.
  destruct (decide (playing (state_at ostep σ w m) !! name = Some true))
    as [Hp|Hp].
  - destruct Hrm as (_ & _ & _ & (k & a & Ha & ? & ? & _)); [done|].
    destruct (sound_connects σ w name Hhelp Hrec Hans k a m)
      as (m' & _ & ?); eauto.
  - destruct (tick_starts name _ Hname Hrm Hp) as (k & a & Ha & ? & ?).
    destruct (sound_connects σ w name Hhelp Hrec Hans k a (S m))
      as (m' & _ & ?); eauto. cbn [state_at]. by rewrite Hm.
Qed.

(** The page is recovering when the timer was started in a browser with
    WebRTC, and again after every disconnection. *)
Lemma started_recovering name :
  recovering name (sstep PreStart (new_page true)).
Proof.
  split_and!; [done..|by_compute|].
  change (sstep PreStart (new_page true)) with (preStartJanus (new_page true)).
  unfold preStartJanus, recoverable. page_simpl.
  rewrite check_both_playing by done. cbn [playing new_page].
  intros [[_ ?]|[_ [_ ?]%lookup_singleton_Some]]%lookup_insert_Some; done.
Qed.

Lemma disconnect_recovering n a w :
  webrtc w = true → retry_timer w = true → Forall attempt_ok (attempts w) →
  attempts w !! n = Some a → live a = true →
  recovering (streamName a) (sstep (IceState n "disconnected") w).
Proof.
  intros Hw Hr Hok Ha Hl.
  split_and!; [by rewrite sstep_webrtc|by apply sstep_retry_timer|
               by apply sstep_ok|].
  rewrite (sstep_targeted _ n), Ha, Hl by done. unfold iceState.
  rewrite bool_decide_eq_true_2 by done. intros Hp. page_simpl.
  by rewrite lookup_insert_eq in Hp.
Qed.

End liveness.

(** C11: after a disconnection the sub-stream comes back.  When the ICE
    state of a live attempt becomes "disconnected", and from then on the
    timer keeps ticking and the library answers without reporting a
    failure, an attempt for the same sub-stream reaches the end of the
    attach sequence at some later instant. *)
Theorem disconnect_reconnects (σ : nat → option callback) (w : page) n a :
  webrtc w = true → retry_timer w = true → Forall attempt_ok (attempts w) →
  attempts w !! n = Some a → live a = true →
  streamName a ∈ ["video"; "audio"] →
  let w' := sstep (IceState n "disconnected") w in
  (∀ i, ohelpful (state_at ostep σ w' i) (σ i) = true) →
  infinitely_often (λ o, o = Some Tick) σ → answered σ w' →
  ∃ m, established (streamName a) (state_at ostep σ w' m).
Proof.
  intros Hw Hr Hok Ha Hl Hname w'.
  apply cooperation_connects; [done|by apply disconnect_recovering].
Qed.

(** The first connection.  Once [preStartJanus] has run in a browser
    with WebRTC, each of the two sub-streams is established at some instant
    of every schedule in which the timer keeps ticking and the library
    answers without reporting a failure. *)
Theorem first_connection (σ : nat → option callback) name :
  name ∈ ["video"; "audio"] →
  let w := sstep PreStart (new_page true) in
  (∀ i, ohelpful (state_at ostep σ w i) (σ i) = true) →
  infinitely_often (λ o, o = Some Tick) σ → answered σ w →
  ∃ m, established name (state_at ostep σ w m).
Proof.
  intros Hname w. apply cooperation_connects; [done|].
  apply started_recovering.
Qed.

(** ** The retry loop settles *)

Section settles.
Implicit Types (σ : nat → option callback) (w : page) (a : attempt) (k n m : nat).
Implicit Types (c : callback) (name : string).

(** A callback that reports no failure keeps the flags in step with the
    attempts, and clears no flag. *)
Lemma helpful_not_disconnect c w :
  helpful w c = true → is_disconnect c = false ∨ sstep c w = w.
Proof.
  unfold helpful, helps. destruct c; simpl; auto.
  destruct (attempts w !! n) as [a|] eqn:Ha; simpl; rewrite ?Ha; auto.
  intros Hs. left. by destruct (bool_decide _).
Qed.

Lemma helpful_flags c w :
  helpful w c = true → flags_follow w → flags_follow (sstep c w).
Proof.
  intros [?| ->]%helpful_not_disconnect ?; [by apply sstep_flags|done].
Qed.

Lemma helpful_playing c name w :
  webrtc w = true → helpful w c = true →
  playing w !! name = Some true → playing (sstep c w) !! name = Some true.
Proof.
  intros Hw Hc Hp. destruct (target c) as [n|] eqn:Htc.
  - revert Hc. unfold helpful. rewrite Htc, (sstep_targeted c n) by done.
    simpl. destruct (attempts w !! n) as [a|]; [|done]. unfold helps.
    destruct c; simplify_eq/=; sstep_unfold; intros Hc;
      repeat case_match; page_simpl; try done;
      try (by apply insert_true_mono); by destruct (bool_decide _).
  - destruct c; simplify_eq/=; case_match; try done;
      unfold preStartJanus; page_simpl; by rewrite check_both_playing.
Qed.

(** While both flags are set no attempt is started. *)
Lemma sstep_settled c w :
  playing w !! "video" = Some true → playing w !! "audio" = Some true →
  length (attempts (sstep c w)) = length (attempts w).
Proof.
  intros Hv Ha. destruct (target c) as [n|] eqn:Htc.
  - rewrite (sstep_targeted c n) by done.
    destruct (attempts w !! n) as [a|]; [|done].
    destruct c; simplify_eq/=; sstep_unfold;
      repeat case_match; page_simpl; by rewrite ?length_alter.
  - destruct c; simplify_eq/=; case_match; try done;
      unfold preStartJanus, check_both; page_simpl;
      by rewrite (check_playing VideoEl "video"),
                 (check_playing AudioEl "audio").
Qed.

(** An established sub-stream has its flag set. *)
Lemma established_playing name w :
  flags_follow w → established name w → playing w !! name = Some true.
Proof.
  intros Hw (k & a & Ha & <- & Hp).
  apply (Forall_lookup_1 _ _ _ _ Hw Ha).
  revert Hp. unfold watched. by destruct (torn_down a), (progress_of a).
Qed.

Lemma ostep_flags o w :
  ohelpful w o = true → flags_follow w → flags_follow (ostep o w).
Proof. destruct o as [c|]; [apply helpful_flags|done]. Qed.

Lemma ostep_playing o name w :
  webrtc w = true → ohelpful w o = true →
  playing w !! name = Some true → playing (ostep o w) !! name = Some true.
Proof. destruct o as [c|]; [apply helpful_playing|done]. Qed.

Lemma ostep_settled o w :
  playing w !! "video" = Some true → playing w !! "audio" = Some true →
  ostep o w = w ∨ length (attempts (ostep o w)) = length (attempts w).
Proof. destruct o as [c|]; [right; by apply sstep_settled|by left]. Qed.

Lemma ostep_webrtc o w : webrtc (ostep o w) = webrtc w.
Proof. destruct o as [c|]; [apply sstep_webrtc|done]. Qed.

End settles.

(** What holds at every instant of a helpful schedule from the started
    page. *)
Definition steady (w : page) : Prop :=
  webrtc w = true ∧ flags_follow w.

Section steady.
Context (σ : nat → option callback).
Abbreviation w0 := (sstep PreStart (new_page true)).
Hypothesis Hhelp : ∀ n, ohelpful (state_at ostep σ w0 n) (σ n) = true.
Implicit Types (n m : nat) (name : string).

Lemma steady_always n : steady (state_at ostep σ w0 n).
Proof.
  apply (schedule_invariant ostep (λ w o, ohelpful w o = true));
    [|done|split; [done|by_compute]].
  intros o w Ho [Hw Hf]. split; [by rewrite ostep_webrtc|].
  by apply ostep_flags.
Qed.

Lemma playing_later name n m :
  playing (state_at ostep σ w0 n) !! name = Some true → n ≤ m →
  playing (state_at ostep σ w0 m) !! name = Some true.
Proof.
  intros Hp Hnm.
  refine (proj2 (schedule_invariant_from ostep (λ w o, ohelpful w o = true)
    (λ w, webrtc w = true ∧ playing w !! name = Some true) σ w0 n m
    _ Hhelp Hnm _)); [|split; [apply steady_always|done]].
  intros o w Ho [Hw Hpl].
  split; [by rewrite ostep_webrtc|by apply ostep_playing].
Qed.

Lemma settled_later n m :
  playing (state_at ostep σ w0 n) !! "video" = Some true →
  playing (state_at ostep σ w0 n) !! "audio" = Some true → n ≤ m →
  length (attempts (state_at ostep σ w0 m))
  = length (attempts (state_at ostep σ w0 n)).
Proof.
  intros Hv Ha Hnm. induction Hnm as [|m Hnm IH]; [done|]. cbn [state_at].
  destruct (ostep_settled (σ m) (state_at ostep σ w0 m)) as [->| ->];
    eauto using playing_later.
Qed.

End steady.

(** C18: the retry loop settles.  From the start of the page in a
    browser with WebRTC, in every schedule in which the timer keeps
    ticking and the library answers without reporting a failure, there
    is an instant after which [check] starts no attempt any more: both
    flags are set and every later tick finds nothing to do. *)
Theorem retry_loop_settles (σ : nat → option callback) :
  let w := sstep PreStart (new_page true) in
  (∀ i, ohelpful (state_at ostep σ w i) (σ i) = true) →
  infinitely_often (λ o, o = Some Tick) σ → answered σ w →
  ∃ m, ∀ m', m ≤ m' →
    sstep Tick (state_at ostep σ w m') = state_at ostep σ w m' ∧
    length (attempts (state_at ostep σ w m'))
    = length (attempts (state_at ostep σ w m)).
Proof.
  intros w Hhelp Htick Hans.
  destruct (cooperation_connects σ w "video") as (mv & Hv);
    [set_solver|apply started_recovering|done..|].
  destruct (cooperation_connects σ w "audio") as (ma & Ha);
    [set_solver|apply started_recovering|done..|].
  apply established_playing in Hv, Ha; try apply (steady_always σ Hhelp).
  exists (mv `max` ma). intros m' Hm'.
  assert (playing (state_at ostep σ w (mv `max` ma)) !! "video" = Some true)
    by (eapply playing_later; [done..|lia]).
  assert (playing (state_at ostep σ w (mv `max` ma)) !! "audio" = Some true)
    by (eapply playing_later; [done..|lia]).
  split; [|by apply settled_later].
  apply tick_when_playing; by eapply playing_later.
Qed.

(** ** Schedules that end in ticks

    A schedule whose events are ticks from the instant [N] on, and which
    has both flags set by then, is checked by evaluation of its first [N]
    instants. *)

(** Attempt [k] of [w] waits for an answer. *)
Definition waits (w : page) (k : nat) : bool :=
  match attempts w !! k with
  | Some a => bool_decide (todo (progress_of a) ≠ 0)
  | None => false
  end.

(** The event at instant [m] answers attempt [k]. *)
Definition answered_at (σ : nat → option callback) (w : page) (k m : nat) : bool :=
  match attempts (state_at ostep σ w m) !! k with
  | Some a => oanswers k (progress_of a) (σ m)
  | None => false
  end.

Definition helpful_before (N : nat) (σ : nat → option callback) (w : page) : bool :=
  forallb (λ n, ohelpful (state_at ostep σ w n) (σ n)) (seq 0 N).

Definition answered_before (N : nat) (σ : nat → option callback) (w : page) : bool :=
  forallb
    (λ n, forallb
            (λ k, implb (waits (state_at ostep σ w n) k)
                        (existsb (answered_at σ w k) (seq n (N - n))))
            (seq 0 (length (attempts (state_at ostep σ w n)))))
    (seq 0 (S N)).

Section ends_in_ticks.
Context (σ : nat → option callback) (w : page) (N : nat).
Hypothesis Htail : ∀ n, N ≤ n → σ n = Some Tick.
Implicit Types (n m k : nat).

Lemma tail_ticks : infinitely_often (λ o, o = Some Tick) σ.
Proof. intros n. exists (n `max` N). split; [lia|apply Htail; lia]. Qed.

Lemma helpful_check :
  helpful_before N σ w = true →
  ∀ n, ohelpful (state_at ostep σ w n) (σ n) = true.
Proof.
  intros Hchk n. destruct (decide (n < N)) as [Hn|Hn].
  - apply (proj1 (forallb_forall _ _) Hchk), in_seq. lia.
  - by rewrite Htail by lia.
Qed.

Hypothesis Hvideo : playing (state_at ostep σ w N) !! "video" = Some true.
Hypothesis Haudio : playing (state_at ostep σ w N) !! "audio" = Some true.

Lemma tail_state n : N ≤ n → state_at ostep σ w n = state_at ostep σ w N.
Proof.
  induction 1 as [|n Hn IH]; [done|]. simpl.
  rewrite Htail, IH by done. by apply tick_when_playing.
Qed.

Lemma answered_check : answered_before N σ w = true → answered σ w.
Proof.
  intros Hchk n k a Ha Ht.
  assert (state_at ostep σ w n = state_at ostep σ w (n `min` N)) as Hn.
  { destruct (decide (n ≤ N)); [by rewrite Nat.min_l|].
    rewrite Nat.min_r by lia. apply tail_state. lia. }
  rewrite Hn in Ha.
  pose proof (proj1 (forallb_forall _ _) Hchk (n `min` N)) as Hk.
  rewrite in_seq in Hk. specialize (Hk ltac:(lia)).
  pose proof (proj1 (forallb_forall _ _) Hk k) as Hm.
  rewrite in_seq in Hm. apply lookup_lt_Some in Ha as Hlt.
  specialize (Hm ltac:(lia)). unfold waits in Hm.
  rewrite Ha, bool_decide_eq_true_2 in Hm by done.
  apply existsb_exists in Hm as (m & [??]%in_seq & Hm).
  unfold answered_at in Hm.
  destruct (attempts (state_at ostep σ w m) !! k) as [a'|] eqn:Ha'; [|done].
  exists m, a'. split_and!; [lia|done..].
Qed.

End ends_in_ticks.

(** ** The theorems at concrete schedules *)

(** The streams the server offers. *)
Definition streams : option (list stream_item) :=
  Some [StreamItem 1 "Desktop Video"; StreamItem 2 "Desktop Audio"].

(** The schedule that delivers [cs] and then ticks for ever. *)
Definition then_ticks (cs : list callback) : nat → option callback :=
  λ n, Some (default Tick (cs !! n)).

(** The library answers the two attempts of the start in turn. *)
Definition startup : list callback :=
  [InitDone 0; InitDone 1; SessionSuccess 0; SessionSuccess 1;
   AttachSuccess 0; AttachSuccess 1; ListResult 0 streams;
   ListResult 1 streams; WatchAck 0; WatchAck 1].

(** After the video attempt of [connected] was disconnected: the audio
    attempt is completed, a tick starts attempt 2 for the video, and the
    library answers it. *)
Definition comeback : list callback :=
  [AttachSuccess 1; ListResult 1 streams; WatchAck 1; Tick;
   SessionSuccess 2; AttachSuccess 2; ListResult 2 streams; WatchAck 2].

Lemma then_ticks_tail cs n : length cs ≤ n → then_ticks cs n = Some Tick.
Proof. intros Hn. unfold then_ticks. by rewrite lookup_ge_None_2. Qed.

Lemma disconnect_reconnects_witness :
  ∃ m, established "video"
         (state_at ostep (then_ticks comeback)
            (sstep (IceState 0 "disconnected") connected) m).
Proof.
  apply (disconnect_reconnects (then_ticks comeback) connected 0 video_attempt);
    [by_compute..| | |].
  - apply (helpful_check _ _ 8); [by intros ??; apply then_ticks_tail|by_compute].
  - apply (tail_ticks _ 8). by intros ??; apply then_ticks_tail.
  - apply (answered_check _ _ 8); [by intros ??; apply then_ticks_tail|by_compute..].
Defined.

Lemma first_connection_witness :
  ∃ m, established "audio"
         (state_at ostep (then_ticks startup) (sstep PreStart (new_page true)) m).
Proof.
  apply (first_connection (then_ticks startup) "audio"); [set_solver| | |].
  - apply (helpful_check _ _ 10); [by intros ??; apply then_ticks_tail|by_compute].
  - apply (tail_ticks _ 10). by intros ??; apply then_ticks_tail.
  - apply (answered_check _ _ 10); [by intros ??; apply then_ticks_tail|by_compute..].
Defined.

Lemma retry_loop_settles_witness :
  let w := sstep PreStart (new_page true) in
  ∃ m, ∀ m', m ≤ m' →
    sstep Tick (state_at ostep (then_ticks startup) w m')
    = state_at ostep (then_ticks startup) w m' ∧
    length (attempts (state_at ostep (then_ticks startup) w m'))
    = length (attempts (state_at ostep (then_ticks startup) w m)).
Proof.
  apply (retry_loop_settles (then_ticks startup)).
  - apply (helpful_check _ _ 10); [by intros ??; apply then_ticks_tail|by_compute].
  - apply (tail_ticks _ 10). by intros ??; apply then_ticks_tail.
  - apply (answered_check _ _ 10); [by intros ??; apply then_ticks_tail|by_compute..].
Defined.
