(* ===== verification/Script.v ===== *)
(** * Script: the page script as a whole

    The anonymous function of index.js 254-483 sets the page up and
    registers the handlers through which the components meet.  [load] is
    the function run to its end; [deliver] is one turn of the event loop
    afterwards.  The state [script] holds what the handlers read and
    write: the query parameters, the body's class and filter, the two
    media elements (their [paused] flags, the volume, the slider), the
    loading indicator, the controls ([ui] of [Page], with the controller
    and the socket in it), the stream sessions ([page] of [Session]), the
    element [get-user-input] that asks for a click, and what was sent to
    the Qt bridge.  [prestarts] counts the calls of [preStartJanus]; it is
    not a variable of the program.

    The browser is the environment: [MediaState] is the browser pausing
    or resuming an element on its own (an element is resumed by its
    [autoplay] attribute when a stream has loaded, and paused when the
    stream ends);
    [Poll] and the callback [RemoteStream] carry whether the browser
    lets an element play, which it decides from the user's gestures;
    [LightsTick] carries what [getColors] of [Lights] returned.

    A click reaches the listener of [get-user-input] while the element is
    in the document; were it delivered afterwards, the first statement of
    the listener would throw on the missing parent before [preStartJanus]
    is reached.  Assigning a number outside [0,1] or NaN to the volume of
    an element throws, which ends the listener of the slider with the
    volume as it was.

    The media elements are shared between the page, which polls them,
    and the sessions, which attach a stream to them and play them:
    [library] delivers a callback to the sessions and lets the calls they
    made on an element take effect on the element of the page.

    The theorems are proved by projection: the controls, the sessions and
    the prompt follow the events by a step of their own ([control_step],
    [session_step], [prompt_step]), so a run or a schedule of the page is
    a run or a schedule of each of them, and what [InputController],
    [Session] and [Recovery] prove holds of the page. *)

From stdpp Require Import gmap strings.
From Stdlib Require Import QArith.
From S2P Require Import Prelude Text JsCore ToNumber Channel InputController.
From S2P Require Import Page StreamSelect Session Recovery.

Close Scope Q_scope.
#[local] Set Warnings "-clear-no-such-hyp".

(** ** State *)

(** What the script finds in the browser when it starts. *)
Record browser : Type := Browser {
  search : string;
  qt : bool;
  has_webrtc : bool;
  has_clipboard : bool;
  slider_default : jsnum;
}.

(** The media elements, the slider and the loading indicator. *)
Record media : Type := Media {
  video_paused : bool;
  audio_paused : bool;
  audio_volume : jsnum;
  slider_value : jsnum;
  loading_display : string;
}.

(** The element [get-user-input]: its [style.display], whether it has a
    parent, and whether the click listener is registered on it. *)
Record prompt : Type := Prompt {
  prompt_display : string;
  in_document : bool;
  listening : bool;
}.

Record script : Type := Script {
  window_qt : bool;
  params : gmap string qvalue;
  document_body : body;
  auth : option qvalue;
  media_of : media;
  controls : ui world;
  session : page;
  getUserInputEl : prompt;
  lights : bool;
  bridge : list string;
  prestarts : nat;
}.

(** ** Updates *)

Definition on_media (f : media → media) (s : script) : script :=
  Script (window_qt s) (params s) (document_body s) (auth s) (f (media_of s))
         (controls s) (session s) (getUserInputEl s) (lights s) (bridge s)
         (prestarts s).
Definition on_controls (f : ui world → ui world) (s : script) : script :=
  Script (window_qt s) (params s) (document_body s) (auth s) (media_of s)
         (f (controls s)) (session s) (getUserInputEl s) (lights s) (bridge s)
         (prestarts s).
Definition on_session (f : page → page) (s : script) : script :=
  Script (window_qt s) (params s) (document_body s) (auth s) (media_of s)
         (controls s) (f (session s)) (getUserInputEl s) (lights s) (bridge s)
         (prestarts s).
Definition set_prompt (p : prompt) (s : script) : script :=
  Script (window_qt s) (params s) (document_body s) (auth s) (media_of s)
         (controls s) (session s) p (lights s) (bridge s) (prestarts s).
Definition emitWebEvent (color : string) (s : script) : script :=
  Script (window_qt s) (params s) (document_body s) (auth s) (media_of s)
         (controls s) (session s) (getUserInputEl s) (lights s)
         (bridge s ++ [color]) (prestarts s).
Definition count_prestart (s : script) : script :=
  Script (window_qt s) (params s) (document_body s) (auth s) (media_of s)
         (controls s) (session s) (getUserInputEl s) (lights s) (bridge s)
         (S (prestarts s)).

Definition on_controller (f : world → world) (u : ui world) : ui world :=
  UI (f (controller_of u)) (usersText u) (toggleControls u).

Definition set_video_paused (b : bool) (m : media) : media :=
  Media b (audio_paused m) (audio_volume m) (slider_value m) (loading_display m).
Definition set_audio_paused (b : bool) (m : media) : media :=
  Media (video_paused m) b (audio_volume m) (slider_value m) (loading_display m).
Definition set_audio_volume (v : jsnum) (m : media) : media :=
  Media (video_paused m) (audio_paused m) v (slider_value m) (loading_display m).
Definition set_slider_value (v : jsnum) (m : media) : media :=
  Media (video_paused m) (audio_paused m) (audio_volume m) v (loading_display m).
Definition set_loading_display (d : string) (m : media) : media :=
  Media (video_paused m) (audio_paused m) (audio_volume m) (slider_value m) d.

(** ** The handlers *)

(** [el.paused] *)
Definition paused (el : sink) (m : media) : bool :=
  match el with
  | VideoEl => video_paused m
  | AudioEl => audio_paused m
  end.

Definition set_paused (el : sink) (b : bool) (m : media) : media :=
  match el with
  | VideoEl => set_video_paused b m
  | AudioEl => set_audio_paused b m
  end.

(** [el.play()]: the element plays if the browser allows it; if not, the
    promise is rejected and the element stays as it is. *)
Definition play_el (el : sink) (allowed : bool) (m : media) : media :=
  if allowed then set_paused el false m else m.

(** The 500 ms timer, index.js 317-328. *)
Definition poll (allow_video allow_audio : bool) (m : media) : media :=
  let m := if video_paused m then play_el VideoEl allow_video m else m in
  if audio_paused m then play_el AudioEl allow_audio m else m.

(** The listener of "playing" on the video element, index.js 313-315. *)
Definition on_playing (m : media) : media :=
  set_loading_display (if video_paused m then "initial" else "none") m.

(** The listener of "input" on the slider, index.js 300-302, when
    [volumeSliderEl.value] is [value]. *)
Definition slider_input (value : string) (m : media) : media :=
  if in_unitb (StringToNumber value)
  then set_audio_volume (StringToNumber value) m
  else m.

(** The call of [preStartJanus] at index.js 411 and 417. *)
Definition start_sessions (s : script) : script :=
  s |> on_session preStartJanus |> count_prestart.

(** The listener of "click" on [get-user-input], index.js 415-418.
    Without a parent the first statement throws. *)
Definition prompt_click (s : script) : script :=
  let p := getUserInputEl s in
  if in_document p
  then s |> set_prompt (Prompt (prompt_display p) false (listening p))
         |> start_sessions
  else s.

(** What a call that the sessions made on an element does to it.
    [Janus.attachMediaStream] assigns the stream to [el.srcObject], which
    loads it: loading pauses an element that was playing. *)
Definition apply_call (c : element_call) (m : media) : media :=
  match c with
  | Attached el _ => set_paused el true m
  | Played el allowed => play_el el allowed m
  end.

(** A callback of the signaling library or of the retry timer.  The
    sessions take it, and the calls they make on the media elements take
    effect on the elements of the page, which are the objects [check]
    passed to [startJanus] (index.js 401-402). *)
Definition library (c : callback) (s : script) : script :=
  let w := sstep c (session s) in
  let calls := drop (length (element_calls (session s))) (element_calls w) in
  s |> on_session (λ _, w) |> on_media (run apply_call calls).

(** The end of the 30 Hz timer of the lights, index.js 477-480, for the
    string [color] that [getColors] returned. *)
Definition lights_tick (color : string) (s : script) : script :=
  if window_qt s then emitWebEvent color s else s.

(** ** Loading the page *)

(** The query of the socket's handshake, index.js 282-287. *)
Definition connect (q : gmap string qvalue) : option qvalue := q !! "password".

(** The media elements when the script has looked them up and set the
    volume, index.js 289-311.  A media element starts paused with volume
    1; the slider starts where the document puts it. *)
Definition initial_media (slider : jsnum) (q : gmap string qvalue) : media :=
  Media true true
        (initial_volume (q !! "volume") (JsFin 1))
        (initial_volume (q !! "volume") slider) "".

(** The controller and the elements of the controls, index.js 330-336. *)
Definition new_controls (clipboard_api : bool) : ui world :=
  UI (new_controller clipboard_api) "" (Toggle "" "" false).

(** The start of the sessions, index.js 410-419: at once under Qt, at
    the click on the prompt otherwise. *)
Definition gate (s : script) : script :=
  if window_qt s then start_sessions s
  else set_prompt (Prompt "flex" (in_document (getUserInputEl s)) true) s.

(** The script from its first line to its last, index.js 254-483. *)
Definition load (b : browser) : script :=
  let q := queryParams (search b) in
  gate (Script (qt b) q (apply_query q (Body "" "")) (connect q)
               (initial_media (slider_default b) q)
               (new_controls (has_clipboard b))
               (new_page (has_webrtc b)) (Prompt "" true false)
               (truthy (q !! "dynamicLights")) [] 0).

(** ** The event loop *)

Inductive action : Type :=
  | Dom (e : event)
  | InfoMsg (id : string) (i : info)
  | ToggleClick
  | PromptClick
  | Library (c : callback)
  | Playing
  | Poll (allow_video allow_audio : bool)
  | MediaState (el : sink) (paused : bool)
  | SliderInput (value : string)
  | ContextMenu
  | LightsTick (color : string).

(** One turn of the event loop.  An event reaches a listener that is
    registered: the click listener of the prompt without Qt, the timer of
    the lights with the parameter [dynamicLights].  The slider stands at
    its new value when its listener runs.  The calls of [start] and [stop]
    come from the handler of "info" only, and that of [preStartJanus] from
    [load] or the click on [get-user-input]: they are no events of the
    browser. *)
Definition deliver (a : action) (s : script) : script :=
  match a with
  | Dom e => match e with
             | Start | Stop => s
             | _ => on_controls (on_controller (dispatch e)) s
             end
  | InfoMsg id i => on_controls (on_info id i) s
  | ToggleClick => on_controls (on_controller toggle_click) s
  | PromptClick => if listening (getUserInputEl s) then prompt_click s else s
  | Library c => match c with
                 | PreStart => s
                 | _ => library c s
                 end
  | Playing => on_media on_playing s
  | Poll v a => on_media (poll v a) s
  | MediaState VideoEl p => on_media (set_video_paused p) s
  | MediaState AudioEl p => on_media (set_audio_paused p) s
  | SliderInput value =>
      s |> on_media (set_slider_value (StringToNumber value))
        |> on_media (slider_input value)
  | ContextMenu => s
  | LightsTick color => if lights s then lights_tick color s else s
  end.

(** The state after a sequence of actions. *)
Abbreviation perform := (run deliver).

(** Unfold the updates down to record literals. *)
Ltac script_simpl :=
  unfold start_sessions, on_media, on_controls, on_session, set_prompt,
    emitWebEvent, count_prestart, on_controller in *;
  cbn [window_qt params document_body auth media_of controls session
       getUserInputEl lights bridge prestarts controller_of usersText
       toggleControls prompt_display in_document listening] in *.

Ltac media_simpl :=
  unfold poll, on_playing, slider_input, play_el, set_paused, set_video_paused,
    set_audio_paused, set_audio_volume, set_slider_value,
    set_loading_display in *;
  cbn [video_paused audio_paused audio_volume slider_value loading_display]
    in *.

(** ** Well-formed states *)

(** The invariant of the page: the controller is wired, the attempts
    follow the protocol, the volume is a volume, the click listener
    exists unless the page runs under Qt, the retry timer runs exactly
    when the page runs under Qt or the prompt was clicked away, and
    [preStartJanus] was called once if the timer runs and never if not. *)
Record script_ok (s : script) : Prop := ScriptOk {
  ok_wired : wired (controller_of (controls s));
  ok_attempts : Forall attempt_ok (attempts (session s));
  ok_volume : in_unit (audio_volume (media_of s));
  ok_listening : listening (getUserInputEl s) = negb (window_qt s);
  ok_timer :
    retry_timer (session s)
    = window_qt s || negb (in_document (getUserInputEl s));
  ok_prestarts :
    prestarts s = if retry_timer (session s) then 1 else 0;
}.

Section invariant.
Implicit Types (s : script) (a : action) (b : browser) (w : page).
Implicit Types (m : media) (c : callback).

Lemma preStartJanus_ok w :
  Forall attempt_ok (attempts w) → Forall attempt_ok (attempts (preStartJanus w)).
Proof. intros Hw. unfold preStartJanus. page_simpl. by apply check_both_ok. Qed.

(** No callback of the library or the timer starts or stops the timer. *)
Lemma sstep_timer c w :
  c ≠ PreStart → retry_timer (sstep c w) = retry_timer w.
Proof.
  intros Hc. destruct (target c) as [n|] eqn:Htc.
  - rewrite (sstep_targeted c n) by done.
    destruct (attempts w !! n) as [a|]; [|done].
    destruct c; simplify_eq/=; sstep_unfold; by repeat case_match.
  - destruct c; simplify_eq/=. case_match; [|done].
    unfold check_both, check, startJanus, after_init.
    by repeat case_match.
Qed.

Lemma on_info_wired id i (u : ui world) :
  wired (controller_of u) → wired (controller_of (on_info id i u)).
Proof. intros Hu. rewrite on_info_controller. by apply switch_to_wired. Qed.

Lemma set_paused_volume el (p : bool) m :
  audio_volume (set_paused el p m) = audio_volume m.
Proof. by destruct el. Qed.

Lemma play_el_volume el allowed m :
  audio_volume (play_el el allowed m) = audio_volume m.
Proof. destruct allowed; [apply set_paused_volume|done]. Qed.

Lemma poll_volume (v av : bool) m : audio_volume (poll v av m) = audio_volume m.
Proof. unfold poll. repeat case_match; by rewrite ?play_el_volume. Qed.

(** The calls of the sessions leave the volume as it is. *)
Lemma calls_volume (calls : list element_call) m :
  audio_volume (run apply_call calls m) = audio_volume m.
Proof.
  apply run_const. intros [] ?; [apply set_paused_volume|apply play_el_volume].
Qed.

Lemma library_session c s : session (library c s) = sstep c (session s).
Proof. done. Qed.

Lemma slider_input_volume value m :
  in_unit (audio_volume m) → in_unit (audio_volume (slider_input value m)).
Proof.
  intros Hm. unfold slider_input.
  destruct (in_unitb (StringToNumber value)) eqn:Hv; [|done].
  by apply in_unitb_spec.
Qed.

Lemma lights_tick_ok color s : script_ok s → script_ok (lights_tick color s).
Proof.
  intros Hs. unfold lights_tick. destruct (window_qt s) eqn:Hq; [|done].
  destruct Hs. by constructor.
Qed.

Lemma load_ok b : script_ok (load b).
Proof.
  unfold load, gate, initial_media, new_controls. script_simpl.
  destruct (qt b) eqn:Hqt; script_simpl;
    (constructor; script_simpl; rewrite ?Hqt; try done;
     first [apply new_controller_wired
           |apply initial_volume_in_unit; by_compute
           |apply preStartJanus_ok; constructor
           |constructor]).
Qed.

Lemma prompt_click_ok s :
  script_ok s → listening (getUserInputEl s) = true →
  script_ok (prompt_click s).
Proof.
  intros [Hw Ha Hv Hl Ht Hp] Hli. unfold prompt_click.
  destruct (in_document _) eqn:Hin; [|by constructor; rewrite ?Hin].
  assert (window_qt s = false) as Hq
    by (destruct (window_qt s); [by rewrite Hli in Hl|done]).
  rewrite Hq in Ht. simpl in Ht. rewrite Ht in Hp.
  constructor; script_simpl; rewrite ?Hq, ?Hp; try done.
  by apply preStartJanus_ok.
Qed.

(** Every turn of the event loop keeps the page well formed. *)
Lemma deliver_ok a s : script_ok s → script_ok (deliver a s).
Proof.
  intros Hs. destruct a as [e|id i| | |c| |v av|el p|value| |color];
    cbn [deliver]; try done.
  - destruct Hs. destruct e; try done; constructor; script_simpl;
      try done; by apply dispatch_wired.
  - destruct Hs. constructor; script_simpl; try done. by apply on_info_wired.
  - destruct Hs. constructor; script_simpl; try done.
    by apply wired_socket_emit.
  - destruct (listening _) eqn:Hli; [by apply prompt_click_ok|done].
  - destruct Hs as [Hw Ha Hv Hl Ht Hp].
    destruct c; try done; constructor; unfold library; script_simpl;
      rewrite ?sstep_timer, ?calls_volume by done; try done;
      by apply sstep_ok.
  - destruct Hs. by constructor.
  - destruct Hs. constructor; script_simpl; try done. by rewrite poll_volume.
  - destruct Hs. by destruct el; constructor.
  - destruct Hs. constructor; script_simpl; try done.
    by apply slider_input_volume.
  - destruct (lights s); [by apply lights_tick_ok|done].
Qed.

End invariant.

(** ** The components *)

(** What each kind of action is addressed to. *)
Definition is_control (a : action) : bool :=
  match a with
  | Dom _ | InfoMsg _ _ | ToggleClick => true
  | _ => false
  end.

Definition is_session (a : action) : bool :=
  match a with
  | PromptClick | Library _ => true
  | _ => false
  end.

Definition is_prompt_click (a : action) : bool :=
  match a with
  | PromptClick => true
  | _ => false
  end.

(** What an action does to the controls and to the prompt. *)
Definition control_step (a : action) (u : ui world) : ui world :=
  match a with
  | Dom e => match e with
             | Start | Stop => u
             | _ => on_controller (dispatch e) u
             end
  | InfoMsg id i => on_info id i u
  | ToggleClick => on_controller toggle_click u
  | _ => u
  end.

Definition prompt_step (a : action) (p : prompt) : prompt :=
  match a with
  | PromptClick => if listening p && in_document p
                   then Prompt (prompt_display p) false true else p
  | _ => p
  end.

(** The callback of [Session] that an action stands for, under Qt or
    not. *)
Definition session_event (q : bool) (a : action) : option callback :=
  match a with
  | PromptClick => if q then None else Some PreStart
  | Library PreStart => None
  | Library c => Some c
  | _ => None
  end.

Definition session_step (q : bool) (a : action) (w : page) : page :=
  from_option (λ c, sstep c w) w (session_event q a).

(** The callbacks of [Session] that a run of the page amounts to. *)
Definition session_events (q : bool) (acts : list action) : list callback :=
  (if q then [PreStart] else []) ++ omap (session_event q) acts.

Section components.
Implicit Types (s : script) (a : action) (b : browser) (w : page).
Implicit Types (acts : list action) (p : prompt) (m : media).

Lemma deliver_controls a s : controls (deliver a s) = control_step a (controls s).
Proof.
  destruct a as [e| | | |c| | |el ?| | |]; cbn [deliver control_step]; try done.
  - by destruct e.
  - unfold prompt_click. by repeat case_match.
  - by destruct c.
  - by destruct el.
  - unfold lights_tick. by repeat case_match.
Qed.

Lemma deliver_prompt a s :
  getUserInputEl (deliver a s) = prompt_step a (getUserInputEl s).
Proof.
  destruct a as [e| | | |c| | |el ?| | |]; cbn [deliver prompt_step]; try done.
  - by destruct e.
  - unfold prompt_click. by repeat case_match.
  - by destruct c.
  - by destruct el.
  - unfold lights_tick. by repeat case_match.
Qed.

Lemma deliver_window_qt a s : window_qt (deliver a s) = window_qt s.
Proof.
  destruct a as [e| | | |c| | |el ?| | |]; cbn [deliver]; try done.
  - by destruct e.
  - unfold prompt_click. by repeat case_match.
  - by destruct c.
  - by destruct el.
  - unfold lights_tick. by repeat case_match.
Qed.

(** On a well-formed page the guard of the click listener and the guard
    of [PreStart] in [sstep] agree. *)
Lemma deliver_session a s :
  script_ok s →
  session (deliver a s) = session_step (window_qt s) a (session s).
Proof.
  intros [_ _ _ Hl Ht _]. unfold session_step.
  destruct a as [e| | | |c| | |el ?| | |]; cbn [deliver session_event];
    try done.
  - by destruct e.
  - unfold prompt_click. rewrite Hl.
    destruct (window_qt s); [done|]. cbn [negb from_option sstep].
    rewrite Ht. by destruct (in_document _).
  - by destruct c.
  - by destruct el.
  - unfold lights_tick. by repeat case_match.
Qed.

Lemma control_step_other a u : is_control a = false → control_step a u = u.
Proof. by destruct a. Qed.

Lemma session_step_other q a w : is_session a = false → session_step q a w = w.
Proof. by destruct a. Qed.

Lemma perform_window_qt acts s : window_qt (perform acts s) = window_qt s.
Proof. apply run_const, deliver_window_qt. Qed.

Lemma perform_ok acts s : script_ok s → script_ok (perform acts s).
Proof. apply run_invariant, deliver_ok. Qed.

Lemma perform_session acts s :
  script_ok s →
  session (perform acts s) = run (session_step (window_qt s)) acts (session s).
Proof.
  intros Hs.
  apply (run_project_where deliver (session_step (window_qt s)) session
           (λ s', script_ok s' ∧ window_qt s' = window_qt s)); [| |done].
  - intros a s' [??]. split; [by apply deliver_ok|].
    by rewrite deliver_window_qt.
  - intros a s' [? <-]. by apply deliver_session.
Qed.

(** The same at the instants of a schedule: the sessions have the
    schedule of the callbacks among the events of the page, and an instant
    at which the page does something else delivers nothing to them. *)
Lemma state_at_session (σ : nat → action) s n :
  script_ok s →
  session (state_at deliver σ s n)
  = state_at ostep (λ i, session_event (window_qt s) (σ i)) (session s) n.
Proof.
  intros Hs.
  apply (state_at_project deliver ostep (session_event (window_qt s)) session
           (λ s', script_ok s' ∧ window_qt s' = window_qt s)); [| |done].
  - intros a s' [??]. split; [by apply deliver_ok|].
    by rewrite deliver_window_qt.
  - intros a s' [? <-]. by apply deliver_session.
Qed.

(** After the first click the sessions are started, under Qt and
    elsewhere. *)
Lemma click_starts b :
  session (deliver PromptClick (load b))
  = sstep PreStart (new_page (has_webrtc b)).
Proof. unfold load, gate. by destruct (qt b). Qed.

(** The prompt leaves the document at the first click that finds its
    listener. *)
Lemma prompt_run acts p :
  in_document (run prompt_step acts p)
  = in_document p && negb (listening p && existsb is_prompt_click acts).
Proof.
  revert p. induction acts as [|a acts IH]; intros p.
  { cbn [existsb]. by rewrite andb_false_r, andb_true_r. }
  rewrite run_cons, IH. destruct a; cbn [prompt_step existsb is_prompt_click orb];
    try done.
  destruct (listening p) eqn:Hl, (in_document p) eqn:Hi; simpl;
    rewrite ?Hl, ?Hi; simpl; by rewrite ?andb_false_r.
Qed.

End components.

(** ** The counter is a ghost

    [prestarts] is a variable of the model, not of the program.  Pages
    that differ in it only are equivalent; every handler respects the
    equivalence and no component of the page depends on the counter, so
    counting the calls changes nothing of what the program does. *)

Definition forget (s : script) : script :=
  Script (window_qt s) (params s) (document_body s) (auth s) (media_of s)
         (controls s) (session s) (getUserInputEl s) (lights s) (bridge s) 0.

#[export] Instance script_equiv : Equiv script := λ s s', forget s = forget s'.

#[export] Instance script_equivalence : Equivalence (≡@{script}).
Proof.
  unfold equiv, script_equiv. split; [by intros ?|by intros ??|].
  intros ???. apply eq_trans.
Qed.

Ltac forget_fields H :=
  unfold equiv, script_equiv, forget in H |- *; injection H as ?????????? .

#[export] Instance deliver_proper a : Proper ((≡) ==> (≡)) (deliver a).
Proof.
  intros [] [] H. forget_fields H. simplify_eq/=.
  destruct a as [[]| | | |[]| | |[]?| | |]; cbn [deliver]; try done;
    unfold prompt_click, lights_tick; script_simpl;
    repeat case_match; done.
Qed.

#[export] Instance perform_proper acts : Proper ((≡) ==> (≡)) (perform acts).
Proof.
  induction acts as [|a acts IH]; intros s s' H; [done|].
  rewrite !run_cons. by apply IH, deliver_proper.
Qed.

#[export] Instance session_proper : Proper ((≡) ==> (=)) session.
Proof. intros [] [] H. by forget_fields H. Qed.

#[export] Instance controls_proper : Proper ((≡) ==> (=)) controls.
Proof. intros [] [] H. by forget_fields H. Qed.

#[export] Instance media_proper : Proper ((≡) ==> (=)) media_of.
Proof. intros [] [] H. by forget_fields H. Qed.

#[export] Instance bridge_proper : Proper ((≡) ==> (=)) bridge.
Proof. intros [] [] H. by forget_fields H. Qed.

(** What the program does is what it does without the counter. *)
Theorem counter_is_ghost acts s :
  perform acts s ≡ perform acts (forget s).
Proof. by apply perform_proper. Qed.

(** ** Theorems *)

(** C15: the page stays well formed.  Whatever the query string and the
    browser, and whatever happens afterwards, the state of the page is
    well formed: the controller's listeners, handlers and timers match
    its [active] flag, every attempt has sent the handshake its progress
    calls for, the volume of the audio element is a number of [0,1], and
    the retry timer runs exactly when the page runs under Qt or the prompt
    was clicked away. *)
Theorem page_stays_well_formed (b : browser) (acts : list action) :
  script_ok (perform acts (load b)).
Proof. apply perform_ok, load_ok. Qed.

(** C21: [preStartJanus] runs once.  Under Qt it is called when the page
    loads; otherwise it is called at the first click on the prompt, which
    removes the prompt; it is never called a second time, so the page has
    at most one retry timer. *)
Theorem preStartJanus_called_once (b : browser) (acts : list action) :
  prestarts (perform acts (load b))
  = if qt b || existsb is_prompt_click acts then 1 else 0.
Proof.
  pose proof (perform_ok acts (load b) (load_ok b)) as [_ _ _ _ Ht ->].
  rewrite Ht, perform_window_qt.
  rewrite (run_project deliver prompt_step getUserInputEl)
    by apply deliver_prompt.
  rewrite prompt_run. unfold load, gate. script_simpl.
  destruct (qt b); script_simpl; [done|].
  by destruct (existsb _ _).
Qed.

(** C16: the sessions of the page are a run of [Session].  The stream
    sessions after any run of the page are those that [sstep] produces
    from the new page, for the callbacks of the library and the timer in
    the order of the run, with [PreStart] in the place of each click on
    the prompt or, under Qt, at the start.  The guard of [PreStart] in
    [sstep], which lets it act once, is the guard of the page. *)
Theorem sessions_are_a_run (b : browser) (acts : list action) :
  session (perform acts (load b))
  = splay (session_events (qt b) acts) (new_page (has_webrtc b)).
Proof.
  rewrite perform_session by apply load_ok. unfold session_events.
  rewrite run_app. unfold session_step. rewrite run_omap. f_equal.
  - unfold load, gate. script_simpl. by destruct (qt b).
  - unfold load, gate. script_simpl. by destruct (qt b).
Qed.

(** The controls and the sessions do not interfere.  The controls after
    a run are the controls after the actions of the run that are
    addressed to the controller, and the sessions those after the clicks
    on the prompt and the callbacks.  The media elements are not
    independent of the sessions: a remote stream plays its element. *)
Theorem components_independent (s : script) (acts : list action) :
  script_ok s →
  controls (perform acts s)
  = controls (perform (filter (λ a, is_control a = true) acts) s) ∧
  session (perform acts s)
  = session (perform (filter (λ a, is_session a = true) acts) s).
Proof.
  intros Hs. split.
  - rewrite !(run_project deliver control_step controls) by apply deliver_controls.
    symmetry. apply run_filter, control_step_other.
  - rewrite !perform_session by done.
    symmetry. apply run_filter, session_step_other.
Qed.

(** ** Remote streams *)

(** C17: a remote stream is played.  When the library hands a remote
    stream to an attempt that holds its plugin handle, the stream is
    attached to the element the attempt was started with and [play] is
    called on that element, in this order.  Afterwards the element plays
    if the browser allows it and is paused if not; the other element, the
    volume, the slider and the loading indicator are as before, and so are
    the attempts. *)
Theorem remote_stream_plays (s : script) n a stream allowed :
  attempts (session s) !! n = Some a → live a = true →
  let s' := deliver (Library (RemoteStream n stream allowed)) s in
  element_calls (session s')
  = element_calls (session s)
    ++ [Attached (streamEl a) stream; Played (streamEl a) allowed] ∧
  attempts (session s') = attempts (session s) ∧
  paused (streamEl a) (media_of s') = negb allowed ∧
  media_of s' = set_paused (streamEl a) (negb allowed) (media_of s).
Proof.
  intros Ha Hl. cbn [deliver]. unfold library.
  rewrite (sstep_targeted _ n), Ha, Hl by done.
  unfold onremotestream. page_simpl. script_simpl.
  rewrite <-app_assoc, drop_app_length. cbn [app run foldl apply_call].
  split_and!; [done..| |];
    destruct (streamEl a), allowed, (media_of s) as [[] [] ???]; done.
Qed.

(** ** Liveness of the autoplay poll *)

Lemma poll_plays m : 
  video_paused (poll true true m) = false ∧
  audio_paused (poll true true m) = false.
Proof. unfold poll. by destruct m as [[] [] ? ? ?]. Qed.

(** The elements play again and again.  In every schedule in which
    the 500 ms timer fires infinitely often at instants at which the
    browser lets the elements play, whenever the browser pauses an
    element, both elements are playing at some later instant. *)
Theorem elements_resume (σ : nat → action) (s : script) :
  infinitely_often (λ a, a = Poll true true) σ →
  ∀ n, ∃ m, n ≤ m ∧
    video_paused (media_of (state_at deliver σ s m)) = false ∧
    audio_paused (media_of (state_at deliver σ s m)) = false.
Proof.
  intros Hpoll n. destruct (Hpoll n) as (m & Hnm & Hm).
  exists (S m). split; [lia|]. cbn [state_at]. rewrite Hm. apply poll_plays.
Qed.

(** ** Liveness of the page

    The events of the page are of every kind: input, messages of the
    socket, polls, callbacks of the library.  The sessions see the
    callbacks only, and what [Recovery] proves of their schedules holds of
    the schedules of the page. *)

(** C12: a click brings the streams.  In a browser with WebRTC, once the
    prompt was clicked (or at once under Qt), in every schedule of the
    page, whatever the input, the messages and the polls in it, in which
    the 5 s timer keeps firing and the library answers without reporting
    a failure, each of the two sub-streams is established at some
    instant. *)
Theorem click_connects (b : browser) (σ : nat → action) name :
  has_webrtc b = true → name ∈ ["video"; "audio"] →
  let s := deliver PromptClick (load b) in
  let τ := λ i, session_event (qt b) (σ i) in
  (∀ i, ohelpful (session (state_at deliver σ s i)) (τ i) = true) →
  infinitely_often (λ a, a = Library Tick) σ →
  answered τ (session s) →
  ∃ m, established name (session (state_at deliver σ s m)).
Proof.
  intros Hw Hname s τ Hhelp Htick Hans.
  assert (script_ok s) as Hs by apply deliver_ok, load_ok.
  assert (window_qt s = qt b) as Hq.
  { unfold s. rewrite deliver_window_qt. unfold load, gate. by destruct (qt b). }
  assert (session s = sstep PreStart (new_page true)) as Hs0
    by by rewrite <-Hw; apply click_starts.
  setoid_rewrite (state_at_session σ s _ Hs) in Hhelp.
  setoid_rewrite (state_at_session σ s _ Hs).
  rewrite Hq in *. fold τ in Hhelp |- *. rewrite Hs0 in *.
  apply first_connection; [done..| |done].
  intros n. destruct (Htick n) as (m & ? & Hm). exists m.
  split; [done|]. unfold τ. by rewrite Hm.
Qed.

(** ** The theorems at concrete pages *)

(** A desktop browser opening the page with a volume and a filter. *)
Definition desktop : browser :=
  Browser "?volume=0.5&sepia" false true true (JsFin 1).

(** The video attempt holds its handle when a remote stream arrives and
    the browser lets the element play. *)
Lemma remote_stream_plays_witness :
  let s := perform [PromptClick; Library (InitDone 0);
                    Library (SessionSuccess 0); Library (AttachSuccess 0)]
             (load desktop) in
  let s' := deliver (Library (RemoteStream 0 7 true)) s in
  element_calls (session s')
  = element_calls (session s) ++ [Attached VideoEl 7; Played VideoEl true] ∧
  attempts (session s') = attempts (session s) ∧
  paused VideoEl (media_of s') = negb true ∧
  media_of s' = set_paused VideoEl (negb true) (media_of s).
Proof.
  intros s.
  apply (remote_stream_plays s 0
           (Attempt VideoEl "video" Listing true [ReqList] [] false) 7 true);
    reflexivity.
Defined.

(** The schedule that delivers [acts] and then the ticks of the retry
    timer for ever. *)
Definition and_then_ticks (acts : list action) : nat → action :=
  λ n, default (Library Tick) (acts !! n).

(** A visit: the library answers the two attempts of the start while the
    pointer moves, the poll fires and the video starts to play. *)
Definition visit : list action :=
  [Library (InitDone 0); Dom (MouseDown 0); Library (InitDone 1);
   Poll true true; Library (SessionSuccess 0); Library (SessionSuccess 1);
   Library (AttachSuccess 0); Dom (MouseUp 0); Library (AttachSuccess 1);
   Library (ListResult 0 streams); Library (ListResult 1 streams); Playing;
   Library (WatchAck 0); Poll true false; Library (WatchAck 1)].

Lemma visit_tail n :
  length visit ≤ n →
  session_event false (and_then_ticks visit n) = Some Tick.
Proof. intros Hn. unfold and_then_ticks. by rewrite lookup_ge_None_2. Qed.

Lemma click_connects_witness :
  ∃ m, established "video"
         (session (state_at deliver (and_then_ticks visit)
                     (deliver PromptClick (load desktop)) m)).
Proof.
  apply (click_connects desktop (and_then_ticks visit) "video");
    [done|set_solver| | |].
  - intros i. rewrite state_at_session by apply deliver_ok, load_ok.
    revert i. apply (helpful_check _ _ 15); [apply visit_tail|by_compute].
  - intros n. exists (n `max` 15). split; [lia|].
    unfold and_then_ticks. by rewrite lookup_ge_None_2 by (simpl; lia).
  - apply (answered_check _ _ 15); [apply visit_tail|by_compute..].
Defined.

Lemma elements_resume_witness :
  ∃ m, 3 ≤ m ∧
    video_paused (media_of (state_at deliver (λ _, Poll true true)
                              (load desktop) m)) = false ∧
    audio_paused (media_of (state_at deliver (λ _, Poll true true)
                              (load desktop) m)) = false.
Proof. apply elements_resume. intros n. by exists n. Defined.

Example load_desktop :
  audio_volume (media_of (load desktop)) = JsFin (1 # 2) ∧
  filter_style (document_body (load desktop)) = "sepia(1)" ∧
  prompt_display (getUserInputEl (load desktop)) = "flex" ∧
  retry_timer (session (load desktop)) = false ∧
  retry_timer (session (deliver PromptClick (load desktop))) = true.
Proof. split_and!; reflexivity. Qed.
