(* ===== verification/Lights.v ===== *)
(** * Lights: the ambient light sampler (index.js 423-482)

    With the query parameter [dynamicLights] the page draws the video on a
    30x30 canvas thirty times a second, averages the colour of eight of
    its nine 10x10 blocks and hands the 24 numbers, written in decimal and
    joined by commas, to the Qt bridge.

    [getAverageColor] is the loop of the source, as a fold over the pixel
    indices; [block_sum] is the sum it computes, as a big operator.
    [colorArray] is the array that [getColors] builds, and [getColors] its
    [join].  [sample] is the timer's callback up to the call of
    [getColors]; the emission to the bridge is [lights_tick] of [Script].
    The picture the browser draws for a video frame at a given size is a
    parameter: how a frame is scaled is not the program's business.

    The theorems relate the loop to the sum, bound the result by the
    largest byte, and show which blocks the colours are those of, in
    which order, and which pixels they do not depend on.

    This file uses MathComp's [seq] and [bigop]; of the other files it
    loads [Text] only, which is built on the Standard Library. *)

#[local] Set Warnings "-notation-overridden,-rewrite-rw".
From mathcomp Require Import ssreflect ssrfun ssrbool eqtype ssrnat seq div bigop.
From Stdlib Require Import NArith String.
From S2P Require Import Text.

Set Implicit Arguments.
Unset Strict Implicit.
Unset Printing Implicit Defensive.

(** ** Data *)

(** The [data] of an [ImageData]: four bytes (red, green, blue, alpha)
    for each pixel, row by row. *)
Definition imageData := seq nat.

(** A pixel: its red, green, blue and alpha bytes. *)
Definition pixel := (nat * nat * nat * nat)%type.

Definition channels (p : pixel) : seq nat :=
  let: (r, g, b, a) := p in [:: r; g; b; a].

Definition rgb (p : pixel) : seq nat :=
  let: (r, g, b, _) := p in [:: r; g; b].

(** A canvas gives the pixel at each position. *)
Definition canvas := nat -> nat -> pixel.

(** Every entry is a byte. *)
Definition bytes (colors : imageData) : bool := all (fun b => b <= 255) colors.

(** [ctx.getImageData(sx, sy, w, h).data] *)
Definition getImageData (c : canvas) (sx sy w h : nat) : imageData :=
  flatten [seq flatten [seq channels (c (sx + dx) (sy + dy)) | dx <- iota 0 w]
          | dy <- iota 0 h].

(** ** The sampler *)

(** The body of the loop, index.js 438-441. *)
Definition accumulate (colors : imageData) (average : nat * nat * nat)
    (i : nat) : nat * nat * nat :=
  let: (r, g, b) := average in
  let index := i * 4 in
  (r + nth 0 colors index,
   g + nth 0 colors (index + 1),
   b + nth 0 colors (index + 2)).

(** The loop and the return of [getAverageColor], index.js 434-448, on
    the data of a block. *)
Definition averageColor (colors : imageData) : seq nat :=
  let: (r, g, b) := foldl (accumulate colors) (0, 0, 0) (iota 0 100) in
  [:: r %/ 100; g %/ 100; b %/ 100].

(** [getAverageColor(x, y)], index.js 433-449. *)
Definition getAverageColor (c : canvas) (x y : nat) : seq nat :=
  averageColor (getImageData c (x * 10) (y * 10) 10 10).

(** The blocks that are sampled, in the order of index.js 453-463: the
    top row, the two ends of the middle row, the bottom row. *)
Definition blocks : seq (nat * nat) :=
  [:: (0, 0); (1, 0); (2, 0); (0, 1); (2, 1); (0, 2); (1, 2); (2, 2)].

(** The array of [getColors] before the final [join], index.js
    452-468. *)
Definition colorArray (c : canvas) : seq nat :=
  foldl (fun colors a => colors ++ [:: nth 0 a 0; nth 0 a 1; nth 0 a 2]) [::]
        [seq getAverageColor c p.1 p.2 | p <- blocks].

(** [getColors()], index.js 451-469: each number is written in decimal
    and the numerals are joined by commas. *)
Definition getColors (c : canvas) : string :=
  join (String comma EmptyString)
       [seq toString (N.of_nat n) | n <- colorArray c].

(** [renderWidth], index.js 471-472, for [threeD] the truth of the query
    parameter [3D]. *)
Definition renderWidth (threeD : bool) : nat :=
  if threeD then 30 * 2 else 30.

(** [ctx.drawImage(video, 0, 0, dw, dh)]: the picture of the frame at
    the size [dw] x [dh] replaces the pixels it covers. *)
Definition drawImage (video : nat -> nat -> canvas) (dw dh : nat) (c : canvas)
    : canvas :=
  fun x y => if (x < dw) && (y < dh) then video dw dh x y else c x y.

(** The callback of the 30 Hz timer up to index.js 477: the canvas after
    the frame was drawn, and the colours read from it. *)
Definition sample (threeD : bool) (video : nat -> nat -> canvas) (c : canvas)
    : canvas * string :=
  let c' := drawImage video (renderWidth threeD) 30 c in
  (c', getColors c').

(** ** Reference definitions *)

(** The sum of channel [ch] over the first [n] pixels. *)
Definition block_sum (colors : imageData) (ch n : nat) : nat :=
  \sum_(0 <= i < n) nth 0 colors (i * 4 + ch).

(** ** Lists of lists *)

Lemma all_flatten (T : Type) (p : pred T) (ss : seq (seq T)) :
  all p (flatten ss) = all (all p) ss.
Proof. by elim: ss => [|s ss IH] //=; rewrite all_cat IH. Qed.

(** ** The loop computes the sums *)

Section sampler.
Variable colors : imageData.

Lemma accumulate_sum n :
  foldl (accumulate colors) (0, 0, 0) (iota 0 n)
  = (block_sum colors 0 n, block_sum colors 1 n, block_sum colors 2 n).
Proof.
rewrite /block_sum; elim: n => [|n IH]; first by rewrite !big_geq.
rewrite -[in iota 0 _]addn1 iotaD foldl_cat IH /= add0n !big_nat_recr //=.
by rewrite addn0.
Qed.

(** A read of the data is a byte, also past its end. *)
Lemma nth_byte i : bytes colors -> nth 0 colors i <= 255.
Proof.
move=> Hb; case: (ltnP i (size colors)) => Hi; last by rewrite nth_default.
exact: (allP Hb) (mem_nth 0 Hi).
Qed.

Lemma block_sum_bound ch n : bytes colors -> block_sum colors ch n <= n * 255.
Proof.
move=> Hb; rewrite /block_sum.
rewrite -[n in n * 255]subn0 -sum_nat_const_nat.
by apply: leq_sum => i _; apply: nth_byte.
Qed.

End sampler.

Arguments getAverageColor : simpl never.
Arguments block_sum : simpl never.

(** ** The average of a block *)

Section average.
Implicit Types (colors : imageData) (c : canvas).

(** C40: the loop is the mean.  [getAverageColor] returns, for each
    of the three colour channels, the sum of that channel over the 100
    pixels of the block divided by 100 and rounded down; the alpha bytes
    are not read. *)
Theorem averageColor_mean colors :
  averageColor colors
  = [:: block_sum colors 0 100 %/ 100; block_sum colors 1 100 %/ 100;
        block_sum colors 2 100 %/ 100].
Proof. by rewrite /averageColor accumulate_sum. Qed.

Lemma mean_byte colors ch : bytes colors -> block_sum colors ch 100 %/ 100 <= 255.
Proof.
move=> Hb; rewrite -[255](@mulnK _ 100) //.
by apply: leq_div2r; rewrite mulnC; apply: block_sum_bound.
Qed.

(** A block of one colour has that colour as its average. *)
Lemma block_sum_uniform colors ch n v :
  (forall i, i < n -> nth 0 colors (i * 4 + ch) = v) ->
  block_sum colors ch n = n * v.
Proof.
move=> Hv; rewrite /block_sum -[n in n * v]subn0 -sum_nat_const_nat.
by rewrite big_nat_cond [RHS]big_nat_cond; apply: eq_bigr => i /andP [/andP [_ /Hv]].
Qed.

Lemma bytes_getImageData c sx sy w h :
  (forall x y, bytes (channels (c x y))) -> bytes (getImageData c sx sy w h).
Proof.
move=> Hc; rewrite /bytes /getImageData all_flatten all_map.
apply/allP => dy _ /=; rewrite all_flatten all_map.
by apply/allP => dx _ /=; apply: Hc.
Qed.

Lemma getAverageColor_byte c x y ch :
  (forall x y, bytes (channels (c x y))) ->
  nth 0 (getAverageColor c x y) ch <= 255.
Proof.
move=> Hc; rewrite /getAverageColor /averageColor accumulate_sum.
have Hb := bytes_getImageData (x * 10) (y * 10) 10 10 Hc.
by case: ch => [|[|[|ch]]] /=; rewrite ?mean_byte ?nth_nil.
Qed.

End average.

(** ** The colours *)

Section colours.
Implicit Types (c : canvas).

(** The pixels of the middle block. *)
Definition centre (x y : nat) : bool := (10 <= x < 20) && (10 <= y < 20).

(** The data of a block depends on the pixels of the block only. *)
Lemma getImageData_ext c c' sx sy w h :
  (forall dx dy, dx < w -> dy < h -> c (sx + dx) (sy + dy) = c' (sx + dx) (sy + dy)) ->
  getImageData c sx sy w h = getImageData c' sx sy w h.
Proof.
move=> Hc; rewrite /getImageData; congr flatten.
apply/eq_in_map => dy; rewrite mem_iota add0n => /andP [_ Hdy].
congr flatten; apply/eq_in_map => dx; rewrite mem_iota add0n => /andP [_ Hdx].
by rewrite Hc.
Qed.

(** No pixel of a sampled block lies in the middle block. *)
Lemma blocks_off_centre p dx dy :
  p \in blocks -> dx < 10 -> dy < 10 ->
  centre (p.1 * 10 + dx) (p.2 * 10 + dy) = false.
Proof.
case: p => x y /= Hp Hdx Hdy; rewrite /centre.
have H0 d : d < 10 -> (10 <= 0 * 10 + d) = false.
  by move=> Hd; rewrite mul0n add0n leqNgt Hd.
have H2 d : (2 * 10 + d < 20) = false by rewrite ltnNge leq_addr.
move: Hp; rewrite /blocks !inE.
do 7![case/orP=> [/eqP [-> ->]|]; first by rewrite ?(H0 dx) ?(H0 dy) ?H2 ?andbF].
by move=> /eqP [-> ->]; rewrite !H2.
Qed.

Lemma bytes3 (r g b : nat) :
  r <= 255 -> g <= 255 -> b <= 255 -> bytes [:: r; g; b].
Proof. by rewrite /bytes /= andbT => -> -> ->. Qed.

Lemma colorArray_unfold c :
  colorArray c
  = flatten [seq [:: nth 0 (getAverageColor c p.1 p.2) 0;
                     nth 0 (getAverageColor c p.1 p.2) 1;
                     nth 0 (getAverageColor c p.1 p.2) 2] | p <- blocks].
Proof. by []. Qed.

(** C32: the colours are 24 bytes.  For a canvas of byte pixels,
    [getColors] joins 24 numbers, three for each sampled block, and each
    is at most 255. *)
Theorem colorArray_bytes c :
  (forall x y, bytes (channels (c x y))) ->
  size (colorArray c) = 24 /\ bytes (colorArray c).
Proof.
move=> Hc; split=> //.
rewrite colorArray_unfold /bytes all_flatten.
apply/allP => s /mapP [p _ ->].
by apply: bytes3; apply: getAverageColor_byte.
Qed.

(** The middle of the picture is not sampled.  Two canvases
    that differ only inside the middle 10x10 block give the same
    colours. *)
Theorem colorArray_ignores_centre c c' :
  (forall x y, ~~ centre x y -> c x y = c' x y) ->
  colorArray c = colorArray c'.
Proof.
move=> Hc; rewrite !colorArray_unfold; congr flatten.
apply/eq_in_map => p Hp.
suff -> : getAverageColor c p.1 p.2 = getAverageColor c' p.1 p.2 by [].
rewrite /getAverageColor; congr averageColor.
apply: getImageData_ext => dx dy Hdx Hdy.
by apply: Hc; rewrite blocks_off_centre.
Qed.

(** Every pixel of a sampled block lies on the canvas. *)
Lemma blocks_on_canvas p dx dy :
  p \in blocks -> dx < 10 -> dy < 10 ->
  (p.1 * 10 + dx < 30) && (p.2 * 10 + dy < 30).
Proof.
case: p => x y /= Hp Hdx Hdy.
have H d k : k <= 2 -> d < 10 -> k * 10 + d < 30.
  move=> Hk Hd; apply: (@leq_trans (k * 10 + 10)); first by rewrite ltn_add2l.
  by rewrite addnC -mulSn (_ : 30 = 3 * 10) // leq_mul2r /= ltnS.
move: Hp; rewrite /blocks !inE.
by do 7![case/orP=> [/eqP [-> ->]|]; first by rewrite !H]; move=> /eqP [-> ->]; rewrite !H.
Qed.

(** *** Blocks of one colour *)

(** The data of pixels that are all [q]: entry [k] of pixel [i]. *)
Lemma nth_flatten_nseq n (q : seq nat) i k :
  size q = 4 -> i < n -> k < 4 ->
  nth 0 (flatten (nseq n q)) (i * 4 + k) = nth 0 q k.
Proof.
move=> Hq; elim: n i => [|n IH] [|i] //= Hi Hk; rewrite nth_cat Hq.
  by rewrite mul0n add0n Hk.
by rewrite mulSn -addnA ltnNge leq_addr /= addKn IH.
Qed.

Lemma getImageData_uniform c sx sy q :
  (forall dx dy, dx < 10 -> dy < 10 -> c (sx + dx) (sy + dy) = q) ->
  getImageData c sx sy 10 10 = flatten (nseq 100 (channels q)).
Proof.
move=> Hc; rewrite (@getImageData_ext c (fun _ _ => q)) //.
by case: q {Hc} => [[[r g] b] a].
Qed.

(** The average of a block of one colour is that colour. *)
Lemma getAverageColor_uniform c x y q :
  (forall dx dy, dx < 10 -> dy < 10 -> c (x * 10 + dx) (y * 10 + dy) = q) ->
  getAverageColor c x y = rgb q.
Proof.
move=> /getImageData_uniform Hc.
rewrite /getAverageColor Hc /averageColor accumulate_sum.
have Hs ch : ch < 4 ->
    block_sum (flatten (nseq 100 (channels q))) ch 100 %/ 100
    = nth 0 (channels q) ch.
  move=> Hch; rewrite (@block_sum_uniform _ _ _ (nth 0 (channels q) ch)).
    by move=> i Hi; apply: nth_flatten_nseq => //; case: q {Hc} => [[[r g] b] a].
  by rewrite mulKn.
by rewrite !Hs //; case: q {Hc Hs} => [[[r g] b] a].
Qed.

(** C30: which blocks, in which order.  For a picture made of nine
    10x10 blocks of one colour each, the array of [getColors] lists the
    red, green and blue of the top row from left to right, of the left and
    the right block of the middle row, and of the bottom row from left to
    right.  The middle block and the alpha bytes do not appear. *)
Theorem colorArray_blocks (colour : nat -> nat -> pixel) c :
  (forall x y, x < 30 -> y < 30 -> c x y = colour (x %/ 10) (y %/ 10)) ->
  colorArray c
  = flatten [seq rgb (colour p.1 p.2)
            | p <- [:: (0, 0); (1, 0); (2, 0); (0, 1); (2, 1);
                       (0, 2); (1, 2); (2, 2)]].
Proof.
move=> Hc; rewrite colorArray_unfold -/blocks; congr flatten.
apply/eq_in_map => p Hp.
rewrite (@getAverageColor_uniform c p.1 p.2 (colour p.1 p.2)).
  move=> dx dy Hdx Hdy; have /andP [Hx Hy] := blocks_on_canvas Hp Hdx Hdy.
  by rewrite Hc // !divnMDl // !divn_small // !addn0.
by case: (colour p.1 p.2) => [[[r g] b] a].
Qed.

(** *** The frame *)

Lemma colorArray_ext c c' :
  (forall x y, (x < 30) && (y < 30) -> c x y = c' x y) ->
  colorArray c = colorArray c'.
Proof.
move=> Hc; rewrite !colorArray_unfold; congr flatten.
apply/eq_in_map => p Hp.
suff -> : getAverageColor c p.1 p.2 = getAverageColor c' p.1 p.2 by [].
rewrite /getAverageColor; congr averageColor.
apply: getImageData_ext => dx dy Hdx Hdy.
by apply: Hc; apply: blocks_on_canvas.
Qed.

(** The colours are those of the frame.  What [getColors] reads
    after [drawImage] is the picture of the current frame, at 30x30 or,
    with the parameter [3D], the left half of its picture at 60x30;
    nothing of what the canvas held before is left in the colours. *)
Theorem sample_frame threeD video c :
  (sample threeD video c).2
  = getColors (video (renderWidth threeD) 30).
Proof.
rewrite /sample /getColors; cbn [snd]; congr join; congr map.
apply: colorArray_ext => x y /andP [Hx Hy].
rewrite /drawImage Hy andbT.
by case: threeD => /=; rewrite ?Hx // (leq_trans Hx).
Qed.

End colours.

(** ** The theorems at concrete canvases *)

(** A canvas of one colour. *)
Definition plain : canvas := fun _ _ => (10, 20, 30, 255).

(** The same with a middle block of another colour. *)
Definition spotted : canvas :=
  fun x y => if centre x y then (200, 200, 200, 255) else plain x y.

(** Nine blocks, each with its column in the red byte and its row in
    the green. *)
Definition tiles : canvas := fun x y => (x %/ 10, y %/ 10, 7, 255).

Lemma colorArray_blocks_witness :
  colorArray tiles
  = [:: 0; 0; 7; 1; 0; 7; 2; 0; 7; 0; 1; 7; 2; 1; 7; 0; 2; 7; 1; 2; 7;
        2; 2; 7].
Proof.
exact: (@colorArray_blocks (fun qx qy => (qx, qy, 7, 255)) tiles
          (fun _ _ _ _ => erefl)).
Defined.

Example colorArray_plain : colorArray plain = flatten (nseq 8 [:: 10; 20; 30]).
Proof. by vm_compute. Qed.

Example getColors_plain :
  getColors plain
  = "10,20,30,10,20,30,10,20,30,10,20,30,10,20,30,10,20,30,10,20,30,10,20,30"%string.
Proof. by vm_compute. Qed.

Lemma colorArray_bytes_witness :
  size (colorArray spotted) = 24 /\ bytes (colorArray spotted).
Proof.
by apply: colorArray_bytes => x y; rewrite /spotted; case: (centre x y).
Defined.

Lemma colorArray_ignores_centre_witness : colorArray plain = colorArray spotted.
Proof.
by apply: colorArray_ignores_centre => x y /negbTE; rewrite /spotted => ->.
Defined.
